(** * Qualcomm SCM firmware call-dispatch layer (drivers/firmware/qcom_scm.c)

    A shallow embedding of the dispatch file: the resource gate (clock and
    bandwidth votes), the calling-convention negotiator, the call
    dispatcher, the peripheral-authentication image set-up, the
    memory-ownership reassignment, the inline-encryption key operations and
    the wait-queue bridge.  Kernel state that the C code mutates in place
    (the [__scm] singleton, the global [qcom_scm_convention], the clock
    framework's enable counts, DMA memory) is threaded explicitly through a
    [world] record; what the hardware, the allocator and the firmware answer
    is read from an [env] record, so every function below is executable. *)

From stdpp Require Import base numbers list strings gmap.
From Stdlib Require Import ZArith Lia.

Local Open Scope Z_scope.

(** ** Fixed-width integers of the C code *)

(** Conversion of a mathematical integer to C [int] (two's complement,
    32 bits), to [u32] and to [u64]. *)
Definition to_int (z : Z) : Z := (z + 2 ^ 31) mod 2 ^ 32 - 2 ^ 31.
Definition to_u32 (z : Z) : Z := z mod 2 ^ 32.
Definition to_u64 (z : Z) : Z := z mod 2 ^ 64.

Definition UINT_MAX : Z := 2 ^ 32 - 1.

(** [unsigned long] is 64 bits wide on the arm64 builds this driver's
    wrapped-key paths target; [BIT(nr)] is [1UL << nr], defined for
    [0 <= nr < BITS_PER_LONG]. *)
Definition BITS_PER_LONG : Z := 64.
Definition BIT (nr : Z) : Z := Z.shiftl 1 nr mod 2 ^ BITS_PER_LONG.

(** errno values used by the file (include/uapi/asm-generic/errno-base.h). *)
Definition ENOMEM : Z := 12.
Definition EINVAL : Z := 22.

(** ** Data model *)

(** [enum qcom_scm_convention]. *)
Inductive qcom_scm_convention :=
| SMC_CONVENTION_UNKNOWN
| SMC_CONVENTION_LEGACY
| SMC_CONVENTION_ARM_32
| SMC_CONVENTION_ARM_64.

Global Instance qcom_scm_convention_eq_dec : EqDecision qcom_scm_convention.
Proof. solve_decision. Defined.

(** [qcom_scm_convention_names[]]. *)
Definition qcom_scm_convention_names (c : qcom_scm_convention) : string :=
  match c with
  | SMC_CONVENTION_UNKNOWN => "unknown"
  | SMC_CONVENTION_ARM_32 => "smc arm 32"
  | SMC_CONVENTION_ARM_64 => "smc arm 64"
  | SMC_CONVENTION_LEGACY => "smc legacy"
  end.

(** The three clocks of [struct qcom_scm]. *)
Inductive clk_id := CORE_CLK | IFACE_CLK | BUS_CLK.

Global Instance clk_id_eq_dec : EqDecision clk_id.
Proof. solve_decision. Defined.

(** [__scm->path]: NULL (no interconnect path configured), an [ERR_PTR], or
    a usable handle. *)
Inductive icc_path := PATH_NULL | PATH_ERR | PATH_OK.

Global Instance icc_path_eq_dec : EqDecision icc_path.
Proof. solve_decision. Defined.

(** The SCM commands the modelled functions issue (service and command id
    pairs of qcom_scm.h, kept symbolic). *)
Inductive scm_cmd :=
| INFO_IS_CALL_AVAIL
| PIL_PAS_INIT_IMAGE
| MP_ASSIGN
| ES_CONFIG_SET_ICE_KEY
| ES_DERIVE_SW_SECRET
| ES_GENERATE_ICE_KEY
| ES_PREPARE_ICE_KEY
| ES_IMPORT_ICE_KEY.

Global Instance scm_cmd_eq_dec : EqDecision scm_cmd.
Proof. solve_decision. Defined.

(** Argument type tags of [QCOM_SCM_ARGS]. *)
Inductive scm_arg_type := QCOM_SCM_VAL | QCOM_SCM_RO | QCOM_SCM_RW.

(** [struct qcom_scm_desc]: the command, the tagged argument words. *)
Record qcom_scm_desc := {
  cmd : scm_cmd;
  arginfo : list scm_arg_type;
  args : list Z
}.

(** [struct qcom_scm_res]. *)
Record qcom_scm_res := { result : list Z }.

(** [res.result[i]]; the array has three words. *)
Definition result_at (r : qcom_scm_res) (i : nat) : Z := default 0 (result r !! i).

(** Which allocator a transport buffer comes from: [dma_alloc_coherent]
    (direct) or [qtee_shmbridge_allocate_shm] (bridged). *)
Inductive backend := Direct | Bridged.

Global Instance backend_eq_dec : EqDecision backend.
Proof. solve_decision. Defined.

(** Bytes are integers in [0, 256). *)
Abbreviation bytes := (list Z).

(** What the program does that is visible outside: calls into the clock
    framework, the interconnect, the allocators, the firmware, the log. *)
Inductive event :=
| EvClkEnable (c : clk_id)
| EvClkEnableFail (c : clk_id) (ret : Z)
| EvClkDisable (c : clk_id)
| EvIccSetBw (peak : Z) (ret : Z)
| EvErr (msg : string)
| EvInfo (msg : string)
| EvProbe (conv : qcom_scm_convention)
| EvSmcCall (atomic : bool) (d : qcom_scm_desc)
| EvLegacyCall (atomic : bool) (d : qcom_scm_desc)
| EvAlloc (b : backend) (addr : Z) (size : nat)
| EvAllocFail (b : backend) (size : nat)
| EvMemcpyIn (addr : Z) (data : bytes)
| EvMemset0 (addr : Z)
| EvMemzeroExplicit (addr : Z)
| EvCopyOut (addr : Z) (data : bytes)
| EvFlush (addr : Z)
| EvInv (addr : Z)
| EvFree (b : backend) (addr : Z) (data : bytes)
| EvWait
| EvComplete.

(** A live transport buffer: its allocator and its content. *)
Record buffer := { buf_backend : backend; buf_data : bytes }.

(** The mutable state: the fields of [__scm] the code writes, the global
    convention, the clock framework's enable counts, the number of
    allocation attempts so far, the live buffers keyed by bus address, and
    the trace of events (oldest first). *)
Record world := {
  scm_vote_count : Z;
  convention : qcom_scm_convention;
  waitq_done : nat;
  core_en : nat;
  iface_en : nat;
  bus_en : nat;
  bw_vote : Z;
  allocs : nat;
  heap : gmap Z buffer;
  trace : list event
}.

(** What the platform answers. *)
Record env := {
  CONFIG_ARM64 : bool;
  is_sc7180 : bool;
  clk_prepare_enable_ret : clk_id -> Z;
  path : icc_path;
  icc_set_bw_ret : Z -> Z;
  qtee_shmbridge_is_enabled : bool;
  alloc_ok : nat -> bool;
  pool_fill : nat -> bytes;
  fw_ret : qcom_scm_convention -> qcom_scm_desc -> Z;
  fw_res : qcom_scm_convention -> qcom_scm_desc -> qcom_scm_res;
  fw_mem : qcom_scm_desc -> list (Z * bytes)
}.

Definition emit (e : event) (w : world) : world :=
  {| scm_vote_count := scm_vote_count w; convention := convention w;
     waitq_done := waitq_done w; core_en := core_en w;
     iface_en := iface_en w; bus_en := bus_en w; bw_vote := bw_vote w;
     allocs := allocs w; heap := heap w; trace := trace w ++ [e] |}.

Definition clk_count (c : clk_id) (w : world) : nat :=
  match c with
  | CORE_CLK => core_en w
  | IFACE_CLK => iface_en w
  | BUS_CLK => bus_en w
  end.

Definition set_clk_count (c : clk_id) (n : nat) (w : world) : world :=
  {| scm_vote_count := scm_vote_count w; convention := convention w;
     waitq_done := waitq_done w;
     core_en := match c with CORE_CLK => n | _ => core_en w end;
     iface_en := match c with IFACE_CLK => n | _ => iface_en w end;
     bus_en := match c with BUS_CLK => n | _ => bus_en w end;
     bw_vote := bw_vote w; allocs := allocs w; heap := heap w;
     trace := trace w |}.

Definition set_vote_count (n : Z) (w : world) : world :=
  {| scm_vote_count := n; convention := convention w;
     waitq_done := waitq_done w; core_en := core_en w;
     iface_en := iface_en w; bus_en := bus_en w; bw_vote := bw_vote w;
     allocs := allocs w; heap := heap w; trace := trace w |}.

Definition set_bw_vote (n : Z) (w : world) : world :=
  {| scm_vote_count := scm_vote_count w; convention := convention w;
     waitq_done := waitq_done w; core_en := core_en w;
     iface_en := iface_en w; bus_en := bus_en w; bw_vote := n;
     allocs := allocs w; heap := heap w; trace := trace w |}.

Definition set_convention (c : qcom_scm_convention) (w : world) : world :=
  {| scm_vote_count := scm_vote_count w; convention := c;
     waitq_done := waitq_done w; core_en := core_en w;
     iface_en := iface_en w; bus_en := bus_en w; bw_vote := bw_vote w;
     allocs := allocs w; heap := heap w; trace := trace w |}.

Definition set_waitq_done (n : nat) (w : world) : world :=
  {| scm_vote_count := scm_vote_count w; convention := convention w;
     waitq_done := n; core_en := core_en w;
     iface_en := iface_en w; bus_en := bus_en w; bw_vote := bw_vote w;
     allocs := allocs w; heap := heap w; trace := trace w |}.

Definition set_heap (h : gmap Z buffer) (w : world) : world :=
  {| scm_vote_count := scm_vote_count w; convention := convention w;
     waitq_done := waitq_done w; core_en := core_en w;
     iface_en := iface_en w; bus_en := bus_en w; bw_vote := bw_vote w;
     allocs := allocs w; heap := h; trace := trace w |}.

Definition bump_allocs (w : world) : world :=
  {| scm_vote_count := scm_vote_count w; convention := convention w;
     waitq_done := waitq_done w; core_en := core_en w;
     iface_en := iface_en w; bus_en := bus_en w; bw_vote := bw_vote w;
     allocs := S (allocs w); heap := heap w; trace := trace w |}.

(** A freshly booted system: nothing enabled, nothing voted, no buffer. *)
Definition boot : world :=
  {| scm_vote_count := 0; convention := SMC_CONVENTION_UNKNOWN;
     waitq_done := 0%nat; core_en := 0%nat; iface_en := 0%nat;
     bus_en := 0%nat; bw_vote := 0; allocs := 0%nat; heap := ∅;
     trace := [] |}.

(** ** ResourceGate: clocks *)

(** [clk_prepare_enable]: the clock framework either fails with its error
    code or raises the clock's enable count.  (An optional clock the
    platform does not have is a NULL handle, for which the framework
    answers 0 and [clk_disable_unprepare] undoes nothing more than the
    enable did; it behaves as a clock that never fails.) *)
Definition clk_prepare_enable (E : env) (c : clk_id) (w : world) : Z * world :=
  let r := clk_prepare_enable_ret E c in
  if decide (r = 0)
  then (0, emit (EvClkEnable c) (set_clk_count c (S (clk_count c w)) w))
  else (r, emit (EvClkEnableFail c r) w).

(** [clk_disable_unprepare]: drops one enable of the clock. *)
Definition clk_disable_unprepare (c : clk_id) (w : world) : world :=
  emit (EvClkDisable c) (set_clk_count c (Nat.pred (clk_count c w)) w).

(** [qcom_scm_clk_enable]. *)
Definition qcom_scm_clk_enable (E : env) (w : world) : Z * world :=
  let '(ret, w) := clk_prepare_enable E CORE_CLK w in
  if decide (ret ≠ 0) then (ret, w) else
  let '(ret, w) := clk_prepare_enable E IFACE_CLK w in
  if decide (ret ≠ 0) then (ret, clk_disable_unprepare CORE_CLK w) else
  let '(ret, w) := clk_prepare_enable E BUS_CLK w in
  if decide (ret ≠ 0)
  then (ret, clk_disable_unprepare CORE_CLK (clk_disable_unprepare IFACE_CLK w))
  else (0, w).

(** [qcom_scm_clk_disable]. *)
Definition qcom_scm_clk_disable (w : world) : world :=
  clk_disable_unprepare BUS_CLK
    (clk_disable_unprepare IFACE_CLK
       (clk_disable_unprepare CORE_CLK w)).

(** The enable counts of the three clocks. *)
Definition clocks_of (w : world) : nat * nat * nat := (core_en w, iface_en w, bus_en w).

(** ** ResourceGate: bandwidth vote *)

(** [icc_set_bw(__scm->path, 0, peak)]: the interconnect framework answers
    with its return code; a refused request leaves the vote as it was. *)
Definition icc_set_bw (E : env) (peak : Z) (w : world) : Z * world :=
  let r := icc_set_bw_ret E peak in
  (r, emit (EvIccSetBw peak r) (if decide (r < 0) then w else set_bw_vote peak w)).

(** [qcom_scm_bw_enable]. [scm_vote_count] is a C [int]. *)
Definition qcom_scm_bw_enable (E : env) (w : world) : Z * world :=
  match path E with
  | PATH_NULL => (0, w)
  | PATH_ERR => (- EINVAL, w)
  | PATH_OK =>
      if decide (scm_vote_count w = 0) then
        let '(ret, w) := icc_set_bw E UINT_MAX w in
        if decide (ret < 0)
        then (ret, emit (EvErr "failed to set bandwidth request") w)
        else (ret, set_vote_count (to_int (scm_vote_count w + 1)) w)
      else (0, set_vote_count (to_int (scm_vote_count w + 1)) w)
  end.

(** [qcom_scm_bw_disable]: [if (__scm->scm_vote_count-- == 1)]. *)
Definition qcom_scm_bw_disable (E : env) (w : world) : world :=
  match path E with
  | PATH_OK =>
      let old := scm_vote_count w in
      let w := set_vote_count (to_int (old - 1)) w in
      if decide (old = 1) then snd (icc_set_bw E 0 w) else w
  | _ => w
  end.

(** A caller's use of the bandwidth gate. *)
Inductive bw_op := BwEnable | BwDisable.

Global Instance bw_op_eq_dec : EqDecision bw_op.
Proof. solve_decision. Defined.

Definition bw_step (E : env) (o : bw_op) (w : world) : world :=
  match o with
  | BwEnable => snd (qcom_scm_bw_enable E w)
  | BwDisable => qcom_scm_bw_disable E w
  end.

(** The gate after a sequence of calls, first call first. *)
Definition bw_run (E : env) (ops : list bw_op) (w : world) : world :=
  foldl (fun w o => bw_step E o w) w ops.

(** Number of [qcom_scm_bw_disable] calls in a sequence. *)
Definition bw_disables (ops : list bw_op) : Z :=
  Z.of_nat (length (filter (fun o => o = BwDisable) ops)).

(** Number of [qcom_scm_bw_enable] calls in a sequence. *)
Definition bw_enables (ops : list bw_op) : Z :=
  Z.of_nat (length (filter (fun o => o = BwEnable) ops)).

(** The caller contract of the gate: each [qcom_scm_bw_disable] of the
    sequence is issued while a vote is held (the count is positive). *)
Fixpoint bw_disciplined (E : env) (ops : list bw_op) (w : world) : bool :=
  match ops with
  | [] => true
  | o :: ops =>
      match o with
      | BwDisable => bool_decide (0 < scm_vote_count w)
      | BwEnable => true
      end && bw_disciplined E ops (bw_step E o w)
  end.

(** ** ConventionNegotiator *)

(** The descriptor [__get_convention] probes with; [fnid] stands for
    [SCM_SMC_FNID(QCOM_SCM_SVC_INFO, QCOM_SCM_INFO_IS_CALL_AVAIL) |
    (ARM_SMCCC_OWNER_SIP << ARM_SMCCC_OWNER_SHIFT)]. *)
Definition probe_desc (fnid : Z) : qcom_scm_desc :=
  {| cmd := INFO_IS_CALL_AVAIL; arginfo := [QCOM_SCM_VAL]; args := [fnid] |}.

(** The function id word of the probe (macros of qcom_scm.h and
    arm-smccc.h: service 0x06, command 0x01, owner SIP = 2 at bit 24). *)
Definition IS_CALL_AVAIL_FNID : Z :=
  Z.lor (Z.lor (Z.shiftl (Z.land 6 255) 8) (Z.land 1 255)) (Z.shiftl 2 24).

(** The firmware's answer to the probe in convention [c], as the test
    [!ret && res.result[0] == 1] reads it. *)
Definition probe_ok (E : env) (c : qcom_scm_convention) : bool :=
  let d := probe_desc IS_CALL_AVAIL_FNID in
  bool_decide (fw_ret E c d = 0 /\ result_at (fw_res E c d) 0 = 1).

(** [__scm_smc_call(NULL, &desc, probed_convention, &res, true)] followed
    by that test. *)
Definition probe (E : env) (c : qcom_scm_convention) (w : world) : bool * world :=
  (probe_ok E c, emit (EvProbe c) w).

(** The [found:] label: publish under [scm_query_lock], log on change. *)
Definition found (probed_convention : qcom_scm_convention) (forced : bool)
    (w : world) : qcom_scm_convention * world :=
  let w :=
    if decide (probed_convention ≠ convention w) then
      emit (EvInfo ("qcom_scm: convention: " +:+
                    qcom_scm_convention_names probed_convention +:+
                    (if forced then " (forced)" else EmptyString)))
           (set_convention probed_convention w)
    else w in
  (convention w, w).

(** The part of [__get_convention] after the [CONFIG_ARM64] block. *)
Definition probe_arm_32 (E : env) (w : world) : qcom_scm_convention * world :=
  let '(ok, w) := probe E SMC_CONVENTION_ARM_32 w in
  if ok then found SMC_CONVENTION_ARM_32 false w
  else found SMC_CONVENTION_LEGACY false w.

(** [__get_convention]. *)
Definition __get_convention (E : env) (w : world) : qcom_scm_convention * world :=
  if decide (convention w ≠ SMC_CONVENTION_UNKNOWN) then (convention w, w) else
  if CONFIG_ARM64 E then
    let '(ok, w) := probe E SMC_CONVENTION_ARM_64 w in
    if ok then found SMC_CONVENTION_ARM_64 false w
    else if is_sc7180 E then found SMC_CONVENTION_ARM_64 true w
    else probe_arm_32 E w
  else probe_arm_32 E w.

(** The probes a trace contains. *)
Definition probes (tr : list event) : list qcom_scm_convention :=
  omap (fun e => match e with EvProbe c => Some c | _ => None end) tr.

(** ** CallDispatcher *)

(** Overwrite the start of [old] with [data], keeping [old]'s length. *)
Definition store_bytes (data old : bytes) : bytes :=
  take (length old) data ++ drop (length data) old.

Global Arguments store_bytes : simpl never.

Definition poke (h : gmap Z buffer) (wr : Z * bytes) : gmap Z buffer :=
  match h !! wr.1 with
  | Some b => <[wr.1 := {| buf_backend := buf_backend b;
                            buf_data := store_bytes wr.2 (buf_data b) |}]> h
  | None => h
  end.

(** What the secure world does to the buffers handed to it. *)
Definition fw_touch (E : env) (d : qcom_scm_desc) (w : world) : world :=
  set_heap (foldl poke (heap w) (fw_mem E d)) w.

(** A result structure the callee did not write. *)
Definition res_unset : qcom_scm_res := {| result := [] |}.

(** [scm_smc_call(dev, desc, res, atomic)] of qcom_scm-smc.c: the call
    goes out in the published convention. *)
Definition scm_smc_call (E : env) (d : qcom_scm_desc) (atomic : bool)
    (w : world) : Z * qcom_scm_res * world :=
  (fw_ret E (convention w) d, fw_res E (convention w) d,
   fw_touch E d (emit (EvSmcCall atomic d) w)).

(** [scm_legacy_call] and [scm_legacy_call_atomic] of qcom_scm-legacy.c. *)
Definition scm_legacy_call (E : env) (d : qcom_scm_desc) (atomic : bool)
    (w : world) : Z * qcom_scm_res * world :=
  (fw_ret E SMC_CONVENTION_LEGACY d, fw_res E SMC_CONVENTION_LEGACY d,
   fw_touch E d (emit (EvLegacyCall atomic d) w)).

(** The [switch] of [qcom_scm_call] on the value [__get_convention()]
    returned. *)
Definition qcom_scm_call_switch (E : env) (c : qcom_scm_convention)
    (d : qcom_scm_desc) (w : world) : Z * qcom_scm_res * world :=
  match c with
  | SMC_CONVENTION_ARM_32 | SMC_CONVENTION_ARM_64 => scm_smc_call E d false w
  | SMC_CONVENTION_LEGACY => scm_legacy_call E d false w
  | _ => (- EINVAL, res_unset,
          emit (EvErr "Unknown current SCM calling convention.") w)
  end.

(** [qcom_scm_call]. *)
Definition qcom_scm_call (E : env) (d : qcom_scm_desc) (w : world)
    : Z * qcom_scm_res * world :=
  let '(c, w) := __get_convention E w in
  qcom_scm_call_switch E c d w.

(** The [switch] of [qcom_scm_call_atomic]. *)
Definition qcom_scm_call_atomic_switch (E : env) (c : qcom_scm_convention)
    (d : qcom_scm_desc) (w : world) : Z * qcom_scm_res * world :=
  match c with
  | SMC_CONVENTION_ARM_32 | SMC_CONVENTION_ARM_64 => scm_smc_call E d true w
  | SMC_CONVENTION_LEGACY => scm_legacy_call E d true w
  | _ => (- EINVAL, res_unset,
          emit (EvErr "Unknown current SCM calling convention.") w)
  end.

(** [qcom_scm_call_atomic]. *)
Definition qcom_scm_call_atomic (E : env) (d : qcom_scm_desc) (w : world)
    : Z * qcom_scm_res * world :=
  let '(c, w) := __get_convention E w in
  qcom_scm_call_atomic_switch E c d w.

(** [ret ? : res.result[0]], returned as an [int]. *)
Definition ret_or_result (ret : Z) (res : qcom_scm_res) : Z :=
  to_int (if decide (ret ≠ 0) then ret else result_at res 0).

(** The calls a trace shows going out to the firmware. *)
Definition is_dispatch (e : event) : bool :=
  match e with
  | EvSmcCall _ _ | EvLegacyCall _ _ => true
  | _ => false
  end.

Definition dispatched (tr : list event) : list event :=
  filter (fun e => is_dispatch e) tr.

(** ** SecureBufferBroker: the two allocators and the memory primitives *)

(** The bus address of the buffer the [n]-th allocation attempt returns;
    it doubles as the key of the buffer in [heap]. *)
Definition buf_addr (n : nat) : Z := Z.of_nat (S n) * 4096.

Definition alloc_from (E : env) (b : backend) (size : nat) (fill : bytes)
    (w : world) : option Z * world :=
  let n := allocs w in
  let w := bump_allocs w in
  if alloc_ok E n then
    let a := buf_addr n in
    (Some a,
     emit (EvAlloc b a size)
          (set_heap (<[a := {| buf_backend := b; buf_data := fill |}]> (heap w)) w))
  else (None, emit (EvAllocFail b size) w).

(** [dma_alloc_coherent(__scm->dev, size, &phys, GFP_KERNEL)]: coherent
    memory comes back zero-filled; NULL on failure. *)
Definition dma_alloc_coherent (E : env) (size : nat) (w : world) : option Z * world :=
  alloc_from E Direct size (replicate size 0) w.

(** [qtee_shmbridge_allocate_shm(size, &shm)]: a region of the pre-shared
    pool, holding whatever the pool held; nonzero return on failure. *)
Definition qtee_shmbridge_allocate_shm (E : env) (size : nat) (w : world)
    : option Z * world :=
  alloc_from E Bridged size (resize size 0 (pool_fill E (allocs w))) w.

Definition update_buf (a : Z) (f : bytes -> bytes) (w : world) : world :=
  match heap w !! a with
  | Some b => set_heap (<[a := {| buf_backend := buf_backend b;
                                  buf_data := f (buf_data b) |}]> (heap w)) w
  | None => w
  end.

(** [memcpy(buf, src, len)] with [len] the length of the caller's data. *)
Definition memcpy_in (a : Z) (data : bytes) (w : world) : world :=
  emit (EvMemcpyIn a data) (update_buf a (store_bytes data) w).

(** [memset(buf, 0, len)]. *)
Definition memset0 (a : Z) (len : nat) (w : world) : world :=
  emit (EvMemset0 a) (update_buf a (store_bytes (replicate len 0)) w).

(** [memzero_explicit(buf, len)]: the zeroing the compiler may not drop. *)
Definition memzero_explicit (a : Z) (len : nat) (w : world) : world :=
  emit (EvMemzeroExplicit a) (update_buf a (store_bytes (replicate len 0)) w).

(** The first [len] bytes of a buffer. *)
Definition peek (a : Z) (len : nat) (w : world) : bytes :=
  match heap w !! a with
  | Some b => take len (buf_data b)
  | None => []
  end.

(** [memcpy(out, buf, len)]: returns what the caller's buffer receives. *)
Definition memcpy_out (a : Z) (len : nat) (w : world) : bytes * world :=
  (peek a len w, emit (EvCopyOut a (peek a len w)) w).

(** Handing a buffer back to its allocator; the event keeps the bytes the
    buffer holds at that moment. *)
Definition free_buf (b : backend) (a : Z) (w : world) : world :=
  match heap w !! a with
  | Some buf => emit (EvFree b a (buf_data buf)) (set_heap (delete a (heap w)) w)
  | None => emit (EvFree b a []) w
  end.

(** [dma_free_coherent]. *)
Definition dma_free_coherent (a : Z) (w : world) : world := free_buf Direct a w.

(** [qtee_shmbridge_free_shm]. *)
Definition qtee_shmbridge_free_shm (a : Z) (w : world) : world := free_buf Bridged a w.

(** [qtee_shmbridge_flush_shm_buf] and [qtee_shmbridge_inv_shm_buf]: cache
    maintenance, visible only in the trace. *)
Definition qtee_shmbridge_flush_shm_buf (a : Z) (w : world) : world := emit (EvFlush a) w.
Definition qtee_shmbridge_inv_shm_buf (a : Z) (w : world) : world := emit (EvInv a) w.

(** ** Peripheral authentication: image metadata *)

(** [struct qcom_scm_pas_metadata]; [ctx_ptr = None] is a NULL [ptr]. *)
Record qcom_scm_pas_metadata := {
  ctx_ptr : option Z;
  ctx_phys : Z;
  ctx_size : nat
}.

Global Instance qcom_scm_pas_metadata_eq_dec : EqDecision qcom_scm_pas_metadata.
Proof. solve_decision. Defined.

(** The [out:] label of [qcom_scm_pas_init_image] and its [return]. *)
Definition pas_init_image_out (mdata_buf : Z) (size : nat)
    (ctx : option qcom_scm_pas_metadata) (ret : Z) (res : qcom_scm_res)
    (w : world) : Z * option qcom_scm_pas_metadata * world :=
  let r := ret_or_result ret res in
  if decide (ret < 0 \/ ctx = None) then (r, ctx, dma_free_coherent mdata_buf w)
  else (r, Some {| ctx_ptr := Some mdata_buf; ctx_phys := mdata_buf;
                   ctx_size := size |}, w).

(** [qcom_scm_pas_init_image]; [ctx = None] is a NULL context pointer. *)
Definition qcom_scm_pas_init_image (E : env) (peripheral : Z) (metadata : bytes)
    (ctx : option qcom_scm_pas_metadata) (w : world)
    : Z * option qcom_scm_pas_metadata * world :=
  let size := length metadata in
  match dma_alloc_coherent E size w with
  | (None, w) =>
      (- ENOMEM, ctx, emit (EvErr "Allocation of metadata buffer failed.") w)
  | (Some mdata_buf, w) =>
      let w := memcpy_in mdata_buf metadata w in
      let '(ret, w) := qcom_scm_clk_enable E w in
      if decide (ret ≠ 0) then pas_init_image_out mdata_buf size ctx ret res_unset w else
      let '(ret, w) := qcom_scm_bw_enable E w in
      if decide (ret ≠ 0) then (ret, ctx, w) else
      let desc := {| cmd := PIL_PAS_INIT_IMAGE;
                     arginfo := [QCOM_SCM_VAL; QCOM_SCM_RW];
                     args := [peripheral; mdata_buf] |} in
      let '(ret, res, w) := qcom_scm_call E desc w in
      let w := qcom_scm_bw_disable E w in
      let w := qcom_scm_clk_disable w in
      pas_init_image_out mdata_buf size ctx ret res w
  end.

(** [qcom_scm_pas_metadata_release]. *)
Definition qcom_scm_pas_metadata_release (ctx : qcom_scm_pas_metadata) (w : world)
    : qcom_scm_pas_metadata * world :=
  match ctx_ptr ctx with
  | None => (ctx, w)
  | Some p =>
      ({| ctx_ptr := None; ctx_phys := 0; ctx_size := 0 |}, dma_free_coherent p w)
  end.

(** Nothing is held: no clock enabled, no bandwidth vote, no live buffer. *)
Definition nothing_held (w : world) : Prop :=
  core_en w = 0%nat /\ iface_en w = 0%nat /\ bus_en w = 0%nat /\
  scm_vote_count w = 0 /\ heap w = ∅.

(** ** Memory-ownership reassignment *)

(** [struct qcom_scm_vmperm]. *)
Record qcom_scm_vmperm := { vmid : Z; perm : Z }.

Definition SZ_64 : Z := 64.

(** [ALIGN(x, a)] for a power of two [a]. *)
Definition ALIGN (x a : Z) : Z := Z.land (x + (a - 1)) (Z.lnot (a - 1)).

(** The owner ids a [u64] bitmask names, lowest first: the [b] of the loop
    [for (b = 0; b < BITS_PER_TYPE(u64); b++) if (srcvm_bits & BIT(b))]. *)
Definition src_vmids (srcvm_bits : Z) : list Z :=
  filter (fun b => Z.land srcvm_bits (BIT b) ≠ 0) (seqZ 0 64).

(** [hweight64]. *)
Definition hweight64 (x : Z) : Z :=
  Z.of_nat (length (filter (fun b => Z.testbit x b) (seqZ 0 64))).

(** Little-endian bytes of a word. *)
Definition le_bytes (n : nat) (z : Z) : bytes :=
  (fun i => Z.land (Z.shiftr z (8 * Z.of_nat i)) 255) <$> seq 0 n.
Definition cpu_to_le32 (z : Z) : bytes := le_bytes 4 (to_u32 z).
Definition cpu_to_le64 (z : Z) : bytes := le_bytes 8 (to_u64 z).

(** One [struct qcom_scm_current_perm_info] (24 bytes): vmid, perm, ctx,
    ctx_size, unused. *)
Definition destvm_bytes (vm : qcom_scm_vmperm) : bytes :=
  cpu_to_le32 (vmid vm) ++ cpu_to_le32 (perm vm) ++ cpu_to_le64 0 ++
  cpu_to_le32 0 ++ replicate 4 0.

(** Stores into a buffer at a byte offset. *)
Definition write_at (a : Z) (off : Z) (data : bytes) (w : world) : world :=
  update_buf a (fun old => take (Z.to_nat off) old ++
                           store_bytes data (drop (Z.to_nat off) old)) w.

(** The accumulation [next_vm |= BIT(newvm->vmid)] over the destination
    list: [next_vm] is an [int], [BIT] an [unsigned long]; the [int] is
    converted to [unsigned long] for the OR and the result converted back
    to [int]. *)
Definition next_vm_of (newvm : list qcom_scm_vmperm) : Z :=
  foldl (fun next_vm vm => to_int (Z.lor (to_u64 next_vm) (BIT (vmid vm)))) 0 newvm.

(** The OR of [BIT(vmid)] over the destination list, as a [u64]. *)
Definition dest_mask (newvm : list qcom_scm_vmperm) : Z :=
  foldl (fun m vm => Z.lor m (BIT (vmid vm))) 0 newvm.

(** The descriptor of [__qcom_scm_assign_mem]. *)
Definition assign_desc (mem_region mem_sz src src_sz dest dest_sz : Z) : qcom_scm_desc :=
  {| cmd := MP_ASSIGN;
     arginfo := [QCOM_SCM_RO; QCOM_SCM_VAL; QCOM_SCM_RO; QCOM_SCM_VAL;
                 QCOM_SCM_RO; QCOM_SCM_VAL; QCOM_SCM_VAL];
     args := [mem_region; mem_sz; src; src_sz; dest; dest_sz; 0] |}.

(** [__qcom_scm_assign_mem]. *)
Definition __qcom_scm_assign_mem (E : env) (mem_region mem_sz src src_sz dest dest_sz : Z)
    (w : world) : Z * world :=
  let desc := assign_desc mem_region mem_sz src src_sz dest dest_sz in
  let '(ret, res, w) := qcom_scm_call E desc w in
  (ret_or_result ret res, w).

(** [qcom_scm_assign_mem]: returns the status and the value of [*srcvm]
    afterwards; [dest_cnt] is the length of [newvm]. *)
Definition qcom_scm_assign_mem (E : env) (mem_addr mem_sz : Z) (srcvm : Z)
    (newvm : list qcom_scm_vmperm) (w : world) : Z * Z * world :=
  let dest_cnt := Z.of_nat (length newvm) in
  let srcvm_bits := srcvm in
  let src_sz := hweight64 srcvm_bits * 4 in
  let mem_to_map_sz := 16 in
  let dest_sz := dest_cnt * 24 in
  let ptr_sz := ALIGN src_sz SZ_64 + ALIGN mem_to_map_sz SZ_64 +
                ALIGN dest_sz SZ_64 in
  match dma_alloc_coherent E (Z.to_nat ptr_sz) w with
  | (None, w) => (- ENOMEM, srcvm, w)
  | (Some ptr, w) =>
      let w := write_at ptr 0 (concat (cpu_to_le32 <$> src_vmids srcvm_bits)) w in
      let mem_to_map_phys := ptr + ALIGN src_sz SZ_64 in
      let w := write_at ptr (ALIGN src_sz SZ_64)
                 (cpu_to_le64 mem_addr ++ cpu_to_le64 mem_sz) w in
      let dest_off := ALIGN mem_to_map_sz SZ_64 + ALIGN src_sz SZ_64 in
      let dest_phys := ptr + dest_off in
      let w := write_at ptr dest_off (concat (destvm_bytes <$> newvm)) w in
      let next_vm := next_vm_of newvm in
      let '(ret, w) := __qcom_scm_assign_mem E mem_to_map_phys mem_to_map_sz
                         ptr src_sz dest_phys dest_sz w in
      let w := dma_free_coherent ptr w in
      if decide (ret ≠ 0)
      then (- EINVAL, srcvm, emit (EvErr "Assign memory protection call failed") w)
      else (0, to_u64 next_vm, w)
  end.

(** The bitmask of a set of owner ids. *)
Definition mask_of (ids : list Z) : Z := foldl (fun m i => Z.lor m (BIT i)) 0 ids.

(** ** Inline-encryption key operations *)

(** [qcom_scm_ice_set_key] from the [qcom_scm_call] on: the call, the
    clean-up of the success path, the [exit:] label. *)
Definition ice_set_key_call (E : env) (use_qtee_shmbridge : bool)
    (desc : qcom_scm_desc) (keybuf : Z) (key_size : nat) (w : world) : Z * world :=
  let '(ret, _, w) := qcom_scm_call E desc w in
  let w :=
    if decide (ret ≠ 0) then emit (EvErr "qcom_scm_ice_set_key, scm call failed") w
    else if use_qtee_shmbridge then qtee_shmbridge_inv_shm_buf keybuf w
    else memzero_explicit keybuf key_size w in
  let w :=
    if use_qtee_shmbridge then qtee_shmbridge_free_shm keybuf w
    else dma_free_coherent keybuf w in
  (ret, w).

(** [qcom_scm_ice_set_key]; [key_size] is the length of [key]. *)
Definition qcom_scm_ice_set_key (E : env) (index : Z) (key : bytes)
    (cipher data_unit_size : Z) (w : world) : Z * world :=
  let key_size := length key in
  let desc a := {| cmd := ES_CONFIG_SET_ICE_KEY;
                   arginfo := [QCOM_SCM_VAL; QCOM_SCM_RW; QCOM_SCM_VAL;
                               QCOM_SCM_VAL; QCOM_SCM_VAL];
                   args := [index; a; Z.of_nat key_size; cipher; data_unit_size] |} in
  let use_qtee_shmbridge := qtee_shmbridge_is_enabled E in
  if use_qtee_shmbridge then
    match qtee_shmbridge_allocate_shm E key_size w with
    | (None, w) =>
        (- ENOMEM, emit (EvErr "qcom_scm_ice_set_key, smbridge allocate error") w)
    | (Some shm_key_phys, w) =>
        let w := memcpy_in shm_key_phys key w in
        let w := qtee_shmbridge_flush_shm_buf shm_key_phys w in
        ice_set_key_call E true (desc shm_key_phys) shm_key_phys key_size w
    end
  else
    match dma_alloc_coherent E key_size w with
    | (None, w) => (- ENOMEM, w)
    | (Some keybuf, w) =>
        let w := memcpy_in keybuf key w in
        ice_set_key_call E false (desc keybuf) keybuf key_size w
    end.

(** The descriptor of the two-buffer key operations: input buffer and
    size, output buffer and size. *)
Definition key_desc (c : scm_cmd) (in_tag : scm_arg_type) (in_buf : Z) (in_size : nat)
    (out_buf : Z) (out_size : nat) : qcom_scm_desc :=
  {| cmd := c; arginfo := [in_tag; QCOM_SCM_VAL; QCOM_SCM_RW; QCOM_SCM_VAL];
     args := [in_buf; Z.of_nat in_size; out_buf; Z.of_nat out_size] |}.

(** [qcom_scm_derive_sw_secret] from the [qcom_scm_call] on. *)
Definition derive_sw_secret_call (E : env) (use_qtee_shmbridge : bool)
    (wkey_buf : Z) (wkey_size : nat) (secret_buf : Z) (sw_secret_size : nat)
    (w : world) : Z * option bytes * world :=
  let desc := key_desc ES_DERIVE_SW_SECRET QCOM_SCM_RW wkey_buf wkey_size
                secret_buf sw_secret_size in
  let '(ret, _, w) := qcom_scm_call E desc w in
  let '(sw_secret, w) :=
    if decide (ret ≠ 0)
    then (None, emit (EvErr "qcom_scm_derive_sw_secret, scm call failed") w)
    else if use_qtee_shmbridge then
      let w := qtee_shmbridge_inv_shm_buf secret_buf w in
      let '(out, w) := memcpy_out secret_buf sw_secret_size w in
      (Some out, qtee_shmbridge_inv_shm_buf wkey_buf w)
    else
      let '(out, w) := memcpy_out secret_buf sw_secret_size w in
      (Some out, w) in
  let w :=
    if use_qtee_shmbridge then
      qtee_shmbridge_free_shm wkey_buf (qtee_shmbridge_free_shm secret_buf w)
    else
      let w := memzero_explicit secret_buf sw_secret_size w in
      let w := dma_free_coherent secret_buf w in
      let w := memzero_explicit wkey_buf wkey_size w in
      dma_free_coherent wkey_buf w in
  (ret, sw_secret, w).

(** [qcom_scm_derive_sw_secret]: returns the status and, when it copied
    one out, the software secret. *)
Definition qcom_scm_derive_sw_secret (E : env) (wkey : bytes) (sw_secret_size : nat)
    (w : world) : Z * option bytes * world :=
  let wkey_size := length wkey in
  let use_qtee_shmbridge := qtee_shmbridge_is_enabled E in
  if use_qtee_shmbridge then
    match qtee_shmbridge_allocate_shm E sw_secret_size w with
    | (None, w) =>
        (- ENOMEM, None,
         emit (EvErr "qcom_scm_derive_sw_secret, smbridge allocate error") w)
    | (Some shm_secret_phys, w) =>
        let w := memset0 shm_secret_phys sw_secret_size w in
        let w := qtee_shmbridge_flush_shm_buf shm_secret_phys w in
        match qtee_shmbridge_allocate_shm E wkey_size w with
        | (None, w) =>
            let w := qtee_shmbridge_free_shm shm_secret_phys w in
            (- ENOMEM, None,
             emit (EvErr "qcom_scm_derive_sw_secret, smbridge allocate error") w)
        | (Some shm_wkey_phys, w) =>
            let w := memcpy_in shm_wkey_phys wkey w in
            let w := qtee_shmbridge_flush_shm_buf shm_wkey_phys w in
            derive_sw_secret_call E true shm_wkey_phys wkey_size
              shm_secret_phys sw_secret_size w
        end
    end
  else
    match dma_alloc_coherent E wkey_size w with
    | (None, w) => (- ENOMEM, None, w)
    | (Some wkey_buf, w) =>
        match dma_alloc_coherent E sw_secret_size w with
        | (None, w) =>
            let w := memzero_explicit wkey_buf wkey_size w in
            let w := dma_free_coherent wkey_buf w in
            (- ENOMEM, None, w)
        | (Some secret_buf, w) =>
            let w := memcpy_in wkey_buf wkey w in
            derive_sw_secret_call E false wkey_buf wkey_size
              secret_buf sw_secret_size w
        end
    end.

(** [qcom_scm_generate_ice_key]: returns the status and, when it copied
    one out, the wrapped key. *)
Definition qcom_scm_generate_ice_key (E : env) (lt_key_size : nat) (w : world)
    : Z * option bytes * world :=
  let desc a := {| cmd := ES_GENERATE_ICE_KEY;
                   arginfo := [QCOM_SCM_RW; QCOM_SCM_VAL];
                   args := [a; Z.of_nat lt_key_size] |} in
  let use_qtee_shmbridge := qtee_shmbridge_is_enabled E in
  let alloc :=
    if use_qtee_shmbridge then
      match qtee_shmbridge_allocate_shm E lt_key_size w with
      | (None, w) =>
          inl (emit (EvErr "qcom_scm_generate_ice_key, smbridge allocate error") w)
      | (Some shm_lt_key_phys, w) =>
          let w := memset0 shm_lt_key_phys lt_key_size w in
          inr (shm_lt_key_phys, qtee_shmbridge_flush_shm_buf shm_lt_key_phys w)
      end
    else
      match dma_alloc_coherent E lt_key_size w with
      | (None, w) => inl w
      | (Some lt_key_buf, w) => inr (lt_key_buf, w)
      end in
  match alloc with
  | inl w => (- ENOMEM, None, w)
  | inr (lt_key_buf, w) =>
      let '(ret, _, w) := qcom_scm_call E (desc lt_key_buf) w in
      let '(lt_key, w) :=
        if decide (ret ≠ 0)
        then (None, emit (EvErr "qcom_scm_generate_ice_key, scm call failed") w)
        else if use_qtee_shmbridge then
          let w := qtee_shmbridge_inv_shm_buf lt_key_buf w in
          let '(out, w) := memcpy_out lt_key_buf lt_key_size w in
          (Some out, w)
        else
          let '(out, w) := memcpy_out lt_key_buf lt_key_size w in
          (Some out, w) in
      let w :=
        if use_qtee_shmbridge then qtee_shmbridge_free_shm lt_key_buf w
        else dma_free_coherent lt_key_buf (memzero_explicit lt_key_buf lt_key_size w) in
      (ret, lt_key, w)
  end.

(** [qcom_scm_prepare_ice_key] from the [qcom_scm_call] on. *)
Definition prepare_ice_key_call (E : env) (use_qtee_shmbridge : bool)
    (lt_key_buf : Z) (lt_key_size : nat) (eph_key_buf : Z) (eph_key_size : nat)
    (w : world) : Z * option bytes * world :=
  let desc := key_desc ES_PREPARE_ICE_KEY QCOM_SCM_RO lt_key_buf lt_key_size
                eph_key_buf eph_key_size in
  let '(ret, _, w) := qcom_scm_call E desc w in
  let '(eph_key, w) :=
    if decide (ret ≠ 0)
    then (None, emit (EvErr "qcom_scm_prepare_ice_key, scm call failed") w)
    else if use_qtee_shmbridge then
      let w := qtee_shmbridge_inv_shm_buf eph_key_buf w in
      let '(out, w) := memcpy_out eph_key_buf eph_key_size w in
      (Some out, qtee_shmbridge_inv_shm_buf lt_key_buf w)
    else
      let '(out, w) := memcpy_out eph_key_buf eph_key_size w in
      (Some out, w) in
  let w :=
    if use_qtee_shmbridge then
      qtee_shmbridge_free_shm lt_key_buf (qtee_shmbridge_free_shm eph_key_buf w)
    else
      let w := memzero_explicit eph_key_buf eph_key_size w in
      let w := dma_free_coherent eph_key_buf w in
      let w := memzero_explicit lt_key_buf lt_key_size w in
      dma_free_coherent lt_key_buf w in
  (ret, eph_key, w).

(** [qcom_scm_prepare_ice_key]: returns the status and, when it copied
    one out, the ephemerally wrapped key. *)
Definition qcom_scm_prepare_ice_key (E : env) (lt_key : bytes) (eph_key_size : nat)
    (w : world) : Z * option bytes * world :=
  let lt_key_size := length lt_key in
  let use_qtee_shmbridge := qtee_shmbridge_is_enabled E in
  if use_qtee_shmbridge then
    match qtee_shmbridge_allocate_shm E eph_key_size w with
    | (None, w) =>
        (- ENOMEM, None,
         emit (EvErr "qcom_scm_prepare_ice_key, smbridge allocate error") w)
    | (Some shm_eph_key_phys, w) =>
        let w := memset0 shm_eph_key_phys eph_key_size w in
        let w := qtee_shmbridge_flush_shm_buf shm_eph_key_phys w in
        match qtee_shmbridge_allocate_shm E lt_key_size w with
        | (None, w) =>
            let w := qtee_shmbridge_free_shm shm_eph_key_phys w in
            (- ENOMEM, None,
             emit (EvErr "qcom_scm_prepare_ice_key, smbridge allocate error") w)
        | (Some shm_lt_key_phys, w) =>
            let w := memcpy_in shm_lt_key_phys lt_key w in
            let w := qtee_shmbridge_flush_shm_buf shm_lt_key_phys w in
            prepare_ice_key_call E true shm_lt_key_phys lt_key_size
              shm_eph_key_phys eph_key_size w
        end
    end
  else
    match dma_alloc_coherent E lt_key_size w with
    | (None, w) => (- ENOMEM, None, w)
    | (Some lt_key_buf, w) =>
        match dma_alloc_coherent E eph_key_size w with
        | (None, w) =>
            let w := memzero_explicit lt_key_buf lt_key_size w in
            let w := dma_free_coherent lt_key_buf w in
            (- ENOMEM, None, w)
        | (Some eph_key_buf, w) =>
            let w := memcpy_in lt_key_buf lt_key w in
            prepare_ice_key_call E false lt_key_buf lt_key_size
              eph_key_buf eph_key_size w
        end
    end.

(** [qcom_scm_import_ice_key] from the [qcom_scm_call] on. *)
Definition import_ice_key_call (E : env) (use_qtee_shmbridge : bool)
    (imp_key_buf : Z) (imp_key_size : nat) (lt_key_buf : Z) (lt_key_size : nat)
    (w : world) : Z * option bytes * world :=
  let desc := key_desc ES_IMPORT_ICE_KEY QCOM_SCM_RO imp_key_buf imp_key_size
                lt_key_buf lt_key_size in
  let '(ret, _, w) := qcom_scm_call E desc w in
  let '(lt_key, w) :=
    if decide (ret ≠ 0)
    then (None, emit (EvErr "qcom_scm_import_ice_key, scm call failed") w)
    else if use_qtee_shmbridge then
      let w := qtee_shmbridge_inv_shm_buf lt_key_buf w in
      let '(out, w) := memcpy_out lt_key_buf lt_key_size w in
      (Some out, qtee_shmbridge_inv_shm_buf imp_key_buf w)
    else
      let '(out, w) := memcpy_out lt_key_buf lt_key_size w in
      (Some out, w) in
  let w :=
    if use_qtee_shmbridge then
      qtee_shmbridge_free_shm lt_key_buf (qtee_shmbridge_free_shm imp_key_buf w)
    else
      let w := memzero_explicit lt_key_buf lt_key_size w in
      let w := dma_free_coherent lt_key_buf w in
      let w := memzero_explicit imp_key_buf imp_key_size w in
      dma_free_coherent imp_key_buf w in
  (ret, lt_key, w).

(** [qcom_scm_import_ice_key]: returns the status and, when it copied one
    out, the wrapped key. *)
Definition qcom_scm_import_ice_key (E : env) (imp_key : bytes) (lt_key_size : nat)
    (w : world) : Z * option bytes * world :=
  let imp_key_size := length imp_key in
  let use_qtee_shmbridge := qtee_shmbridge_is_enabled E in
  if use_qtee_shmbridge then
    match qtee_shmbridge_allocate_shm E imp_key_size w with
    | (None, w) =>
        (- ENOMEM, None,
         emit (EvErr "qcom_scm_import_ice_key, smbridge allocate error") w)
    | (Some shm_imp_key_phys, w) =>
        let w := memcpy_in shm_imp_key_phys imp_key w in
        let w := qtee_shmbridge_flush_shm_buf shm_imp_key_phys w in
        match qtee_shmbridge_allocate_shm E lt_key_size w with
        | (None, w) =>
            let w := qtee_shmbridge_free_shm shm_imp_key_phys w in
            (- ENOMEM, None,
             emit (EvErr "qcom_scm_import_ice_key, smbridge allocate error") w)
        | (Some shm_lt_key_phys, w) =>
            let w := memset0 shm_lt_key_phys lt_key_size w in
            let w := qtee_shmbridge_flush_shm_buf shm_lt_key_phys w in
            import_ice_key_call E true shm_imp_key_phys imp_key_size
              shm_lt_key_phys lt_key_size w
        end
    end
  else
    match dma_alloc_coherent E imp_key_size w with
    | (None, w) => (- ENOMEM, None, w)
    | (Some imp_key_buf, w) =>
        match dma_alloc_coherent E lt_key_size w with
        | (None, w) =>
            let w := memzero_explicit imp_key_buf imp_key_size w in
            let w := dma_free_coherent imp_key_buf w in
            (- ENOMEM, None, w)
        | (Some lt_key_buf, w) =>
            let w := memcpy_in imp_key_buf imp_key w in
            import_ice_key_call E false imp_key_buf imp_key_size
              lt_key_buf lt_key_size w
        end
    end.

(** *** What a trace says about the transport buffers *)

Definition all_zero (data : bytes) : bool := forallb (Z.eqb 0) data.

(** Scanning a trace while remembering which buffers were last written by
    [memzero_explicit]: any other write to a buffer, a fresh allocation at
    its address, or a firmware call (which may write to any buffer handed
    over) ends that; a buffer given back to its allocator must be in the
    remembered set and hold only zero bytes. *)
Fixpoint frees_wiped_from (wiped : list Z) (tr : list event) : bool :=
  match tr with
  | [] => true
  | e :: tr =>
      match e with
      | EvMemzeroExplicit a => frees_wiped_from (a :: wiped) tr
      | EvMemcpyIn a _ | EvMemset0 a | EvAlloc _ a _ =>
          frees_wiped_from (filter (fun x => x ≠ a) wiped) tr
      | EvSmcCall _ _ | EvLegacyCall _ _ => frees_wiped_from [] tr
      | EvFree _ a data =>
          bool_decide (a ∈ wiped) && all_zero data && frees_wiped_from wiped tr
      | _ => frees_wiped_from wiped tr
      end
  end.

(** Every buffer the trace frees was wiped by [memzero_explicit] as the last
    thing done to it. *)
Definition frees_wiped (tr : list event) : bool := frees_wiped_from [] tr.

(** The buffers handed back holding something other than zeros. *)
Definition freed_dirty (tr : list event) : list (Z * bytes) :=
  omap (fun e => match e with
                 | EvFree _ a data => if all_zero data then None else Some (a, data)
                 | _ => None
                 end) tr.

(** No allocation is attempted once caller data has been copied into a
    transport buffer. *)
Fixpoint alloc_before_marshal_from (marshaled : bool) (tr : list event) : bool :=
  match tr with
  | [] => true
  | e :: tr =>
      match e with
      | EvMemcpyIn _ _ => alloc_before_marshal_from true tr
      | EvAlloc _ _ _ | EvAllocFail _ _ =>
          negb marshaled && alloc_before_marshal_from marshaled tr
      | _ => alloc_before_marshal_from marshaled tr
      end
  end.

Definition alloc_before_marshal (tr : list event) : bool :=
  alloc_before_marshal_from false tr.

(** The buffers a trace hands back to an allocator. *)
Definition frees (tr : list event) : list Z :=
  omap (fun e => match e with EvFree _ a _ => Some a | _ => None end) tr.

(** ** WaitQueueBridge *)

Definition QCOM_SMC_WAITQ_FLAG_WAKE_ONE : Z := BIT 0.
Definition QCOM_SMC_WAITQ_FLAG_WAKE_ALL : Z := BIT 1.

(** Where a call that may sleep ends up: back in the caller with a status,
    or asleep in [wait_for_completion]. *)
Inductive wait_result :=
| Returned (ret : Z) (w : world)
| Sleeping (w : world).

(** [wait_for_completion(&__scm->waitq_comp)]: takes one posted completion
    if there is one; otherwise the caller sleeps ([None]). *)
Definition wait_for_completion (w : world) : option world :=
  match waitq_done w with
  | O => None
  | S n => Some (set_waitq_done n w)
  end.

(** [complete(&__scm->waitq_comp)]. *)
Definition complete (w : world) : world :=
  emit EvComplete (set_waitq_done (S (waitq_done w)) w).

(** [qcom_scm_assert_valid_wq_ctx]; [wq_ctx] is a [u32]. *)
Definition qcom_scm_assert_valid_wq_ctx (wq_ctx : Z) (w : world) : Z * world :=
  if decide (wq_ctx ≠ 0)
  then (- EINVAL, emit (EvErr "Firmware unexpectedly passed non-zero wq_ctx") w)
  else (0, w).

(** [qcom_scm_wait_for_wq_completion]. *)
Definition qcom_scm_wait_for_wq_completion (wq_ctx : Z) (w : world) : wait_result :=
  let '(ret, w) := qcom_scm_assert_valid_wq_ctx wq_ctx w in
  if decide (ret ≠ 0) then Returned ret w else
  let w := emit EvWait w in
  match wait_for_completion w with
  | Some w => Returned 0 w
  | None => Sleeping w
  end.

(** A caller asleep in [qcom_scm_wait_for_wq_completion] looks at the
    completion again whenever it is scheduled. *)
Definition wq_resume (w : world) : wait_result :=
  match wait_for_completion w with
  | Some w => Returned 0 w
  | None => Sleeping w
  end.

(** [qcom_scm_waitq_wakeup]. *)
Definition qcom_scm_waitq_wakeup (wq_ctx : Z) (w : world) : Z * world :=
  let '(ret, w) := qcom_scm_assert_valid_wq_ctx wq_ctx w in
  if decide (ret ≠ 0) then (ret, w) else (0, complete w).

(** What [scm_get_wq_ctx] reports. *)
Record wq_answer := {
  wq_ret : Z;
  wq_ctx : Z;
  wq_flags : Z;
  wq_more_pending : Z
}.

(** [qcom_scm_irq_handler]: the [do ... while (more_pending)] loop, run
    against the answers the firmware gives to successive [scm_get_wq_ctx]
    queries; it ends when the answers do. *)
Fixpoint qcom_scm_irq_handler (answers : list wq_answer) (w : world) : world :=
  match answers with
  | [] => w
  | a :: answers =>
      if decide (wq_ret a ≠ 0)
      then emit (EvErr "GET_WQ_CTX SMC call failed") w
      else if decide (wq_flags a ≠ QCOM_SMC_WAITQ_FLAG_WAKE_ONE /\
                      wq_flags a ≠ QCOM_SMC_WAITQ_FLAG_WAKE_ALL)
      then emit (EvErr "Invalid flags found for wq_ctx") w
      else
        let '(ret, w) := qcom_scm_waitq_wakeup (wq_ctx a) w in
        if decide (ret ≠ 0) then w
        else if decide (wq_more_pending a ≠ 0) then qcom_scm_irq_handler answers w
        else w
  end.

(** ** The spec's account of the negotiation *)

(** The convention the negotiation settles on, in the spec's words: the
    widest convention when the platform is 64-bit and the probe answers yes;
    the widest convention, forced, when the probe is inconclusive on the
    named variant; else the narrower convention when its probe answers yes;
    else legacy. *)
Definition negotiated_spec (E : env) : qcom_scm_convention * bool :=
  if CONFIG_ARM64 E && probe_ok E SMC_CONVENTION_ARM_64
  then (SMC_CONVENTION_ARM_64, false)
  else if CONFIG_ARM64 E && is_sc7180 E
  then (SMC_CONVENTION_ARM_64, true)
  else if probe_ok E SMC_CONVENTION_ARM_32
  then (SMC_CONVENTION_ARM_32, false)
  else (SMC_CONVENTION_LEGACY, false).

(** The probes the spec's account issues, in order. *)
Definition negotiation_probes_spec (E : env) : list qcom_scm_convention :=
  if CONFIG_ARM64 E then
    if probe_ok E SMC_CONVENTION_ARM_64 || is_sc7180 E
    then [SMC_CONVENTION_ARM_64]
    else [SMC_CONVENTION_ARM_64; SMC_CONVENTION_ARM_32]
  else [SMC_CONVENTION_ARM_32].

(** The line logged on first resolution. *)
Definition convention_log_spec (E : env) : event :=
  EvInfo ("qcom_scm: convention: " +:+
          qcom_scm_convention_names (negotiated_spec E).1 +:+
          (if (negotiated_spec E).2 then " (forced)" else EmptyString)).

(** The world after a first resolution, by the spec's account: the probes
    issued, the convention published, the line logged. *)
Definition negotiated_world (E : env) (w : world) : world :=
  emit (convention_log_spec E)
    (set_convention (negotiated_spec E).1
       (foldl (fun w c => emit (EvProbe c) w) w (negotiation_probes_spec E))).

(** The convention calls go out in: the cached one, or the one the first
    resolution settles on. *)
Definition convention_in_effect (E : env) (w : world) : qcom_scm_convention :=
  if decide (convention w = SMC_CONVENTION_UNKNOWN)
  then (negotiated_spec E).1 else convention w.

(** The trace entry of a call dispatched in convention [c]. *)
Definition call_event (c : qcom_scm_convention) (atomic : bool) (d : qcom_scm_desc)
    : event :=
  match c with
  | SMC_CONVENTION_LEGACY => EvLegacyCall atomic d
  | _ => EvSmcCall atomic d
  end.

(** The descriptor [qcom_scm_assign_mem] hands to [__qcom_scm_assign_mem]
    when its buffer sits at [ptr]. *)
Definition assign_mem_desc (ptr srcvm : Z) (newvm : list qcom_scm_vmperm)
    : qcom_scm_desc :=
  let src_sz := hweight64 srcvm * 4 in
  let dest_sz := Z.of_nat (length newvm) * 24 in
  assign_desc (ptr + ALIGN src_sz SZ_64) 16 ptr src_sz
    (ptr + (ALIGN 16 SZ_64 + ALIGN src_sz SZ_64)) dest_sz.

(** What the underlying assign call returns to [qcom_scm_assign_mem] when
    the buffer is the next one allocated in [w]. *)
Definition assign_status (E : env) (w : world) (srcvm : Z)
    (newvm : list qcom_scm_vmperm) : Z :=
  let c := convention_in_effect E w in
  let d := assign_mem_desc (buf_addr (allocs w)) srcvm newvm in
  ret_or_result (fw_ret E c d) (fw_res E c d).

(** What a two-buffer key operation returns and adds to the trace. *)
Definition outcome (w : world) (r : Z * option bytes * world)
    : Z * option bytes * list event :=
  (r.1.1, r.1.2, drop (length (trace w)) (trace r.2)).

(** ** Sample platforms *)

(** A platform where everything works: all clocks present, an interconnect
    path, the direct buffer backend, firmware that accepts every call. *)
Definition platform_ok : env :=
  {| CONFIG_ARM64 := true; is_sc7180 := false;
     clk_prepare_enable_ret := fun _ => 0;
     path := PATH_OK; icc_set_bw_ret := fun _ => 0;
     qtee_shmbridge_is_enabled := false;
     alloc_ok := fun _ => true; pool_fill := fun _ => [];
     fw_ret := fun _ _ => 0;
     fw_res := fun _ d => {| result := if decide (cmd d = INFO_IS_CALL_AVAIL)
                                        then [1; 0; 0] else [0; 0; 0] |};
     fw_mem := fun _ => [] |}.

(** The same platform with some answers changed. *)
Definition with_clk_ret (f : clk_id -> Z) (E : env) : env :=
  {| CONFIG_ARM64 := CONFIG_ARM64 E; is_sc7180 := is_sc7180 E;
     clk_prepare_enable_ret := f;
     path := path E; icc_set_bw_ret := icc_set_bw_ret E;
     qtee_shmbridge_is_enabled := qtee_shmbridge_is_enabled E;
     alloc_ok := alloc_ok E; pool_fill := pool_fill E;
     fw_ret := fw_ret E; fw_res := fw_res E; fw_mem := fw_mem E |}.

Definition with_icc_ret (f : Z -> Z) (E : env) : env :=
  {| CONFIG_ARM64 := CONFIG_ARM64 E; is_sc7180 := is_sc7180 E;
     clk_prepare_enable_ret := clk_prepare_enable_ret E;
     path := path E; icc_set_bw_ret := f;
     qtee_shmbridge_is_enabled := qtee_shmbridge_is_enabled E;
     alloc_ok := alloc_ok E; pool_fill := pool_fill E;
     fw_ret := fw_ret E; fw_res := fw_res E; fw_mem := fw_mem E |}.

Definition with_shmbridge (b : bool) (E : env) : env :=
  {| CONFIG_ARM64 := CONFIG_ARM64 E; is_sc7180 := is_sc7180 E;
     clk_prepare_enable_ret := clk_prepare_enable_ret E;
     path := path E; icc_set_bw_ret := icc_set_bw_ret E;
     qtee_shmbridge_is_enabled := b;
     alloc_ok := alloc_ok E; pool_fill := pool_fill E;
     fw_ret := fw_ret E; fw_res := fw_res E; fw_mem := fw_mem E |}.

Definition with_alloc_ok (f : nat -> bool) (E : env) : env :=
  {| CONFIG_ARM64 := CONFIG_ARM64 E; is_sc7180 := is_sc7180 E;
     clk_prepare_enable_ret := clk_prepare_enable_ret E;
     path := path E; icc_set_bw_ret := icc_set_bw_ret E;
     qtee_shmbridge_is_enabled := qtee_shmbridge_is_enabled E;
     alloc_ok := f; pool_fill := pool_fill E;
     fw_ret := fw_ret E; fw_res := fw_res E; fw_mem := fw_mem E |}.

Definition with_fw_ret (f : qcom_scm_convention -> qcom_scm_desc -> Z) (E : env) : env :=
  {| CONFIG_ARM64 := CONFIG_ARM64 E; is_sc7180 := is_sc7180 E;
     clk_prepare_enable_ret := clk_prepare_enable_ret E;
     path := path E; icc_set_bw_ret := icc_set_bw_ret E;
     qtee_shmbridge_is_enabled := qtee_shmbridge_is_enabled E;
     alloc_ok := alloc_ok E; pool_fill := pool_fill E;
     fw_ret := f; fw_res := fw_res E; fw_mem := fw_mem E |}.

Definition with_fw_mem (f : qcom_scm_desc -> list (Z * bytes)) (E : env) : env :=
  {| CONFIG_ARM64 := CONFIG_ARM64 E; is_sc7180 := is_sc7180 E;
     clk_prepare_enable_ret := clk_prepare_enable_ret E;
     path := path E; icc_set_bw_ret := icc_set_bw_ret E;
     qtee_shmbridge_is_enabled := qtee_shmbridge_is_enabled E;
     alloc_ok := alloc_ok E; pool_fill := pool_fill E;
     fw_ret := fw_ret E; fw_res := fw_res E; fw_mem := f |}.


(** Firmware that writes the key material it produces into the output
    buffer of the key commands: the third argument of the two-buffer
    commands, the first of the generate command. *)
Definition fw_key_out (out : bytes) (d : qcom_scm_desc) : list (Z * bytes) :=
  match cmd d, args d with
  | ES_GENERATE_ICE_KEY, a :: _ => [(a, out)]
  | (ES_DERIVE_SW_SECRET | ES_PREPARE_ICE_KEY | ES_IMPORT_ICE_KEY),
    _ :: _ :: a :: _ => [(a, out)]
  | _, _ => []
  end.

(** Sample key material. *)
Definition sample_key : bytes := [17; 34; 51; 68].
Definition sample_out : bytes := [85; 102; 119; 136].

(** The sample platform with firmware that produces [sample_out]. *)
Definition platform_keys (bridged : bool) : env :=
  with_shmbridge bridged (with_fw_mem (fw_key_out sample_out) platform_ok).

(** Firmware that answers the probe but refuses every other command with
    [-EIO]-like status [-5]. *)
Definition fw_refuses (c : qcom_scm_convention) (d : qcom_scm_desc) : Z :=
  if decide (cmd d = INFO_IS_CALL_AVAIL) then 0 else -5.

(** The bus clock refuses to start. *)
Definition bus_clk_fails (c : clk_id) : Z :=
  if decide (c = BUS_CLK) then - EINVAL else 0.

(** The second allocation attempt fails. *)
Definition second_alloc_fails (n : nat) : bool :=
  if decide (n = 1%nat) then false else true.

(** ** Further functions of the dispatch file *)

(** [k] successive calls of [qcom_scm_clk_enable], and of
    [qcom_scm_clk_disable]. *)
Definition clk_enable_times (E : env) (k : nat) (w : world) : world :=
  Nat.iter k (fun w => (qcom_scm_clk_enable E w).2) w.

Definition clk_disable_times (k : nat) (w : world) : world :=
  Nat.iter k qcom_scm_clk_disable w.

(** The requests a trace shows reaching the interconnect: the peak
    bandwidth of each [icc_set_bw]. *)
Definition icc_requests (tr : list event) : list Z :=
  omap (fun e => match e with EvIccSetBw peak _ => Some peak | _ => None end) tr.

(** The body the three functions [qcom_scm_pas_mem_setup],
    [qcom_scm_pas_auth_and_reset] and [qcom_scm_pas_shutdown] share word
    for word: clocks, bandwidth vote, the call, release, and
    [return ret ? : res.result[0]]. *)
Definition pas_gated_call (E : env) (desc : qcom_scm_desc) (w : world) : Z * world :=
  let '(ret, w) := qcom_scm_clk_enable E w in
  if decide (ret ≠ 0) then (ret, w) else
  let '(ret, w) := qcom_scm_bw_enable E w in
  if decide (ret ≠ 0) then (ret, w) else
  let '(ret, res, w) := qcom_scm_call E desc w in
  let w := qcom_scm_bw_disable E w in
  let w := qcom_scm_clk_disable w in
  (ret_or_result ret res, w).

(** [qcom_scm_pas_mem_setup].  The command ids of the three functions are
    constants of qcom_scm.h and are taken as parameters. *)
Definition qcom_scm_pas_mem_setup (E : env) (QCOM_SCM_PIL_PAS_MEM_SETUP : scm_cmd)
    (peripheral addr size : Z) (w : world) : Z * world :=
  pas_gated_call E
    {| cmd := QCOM_SCM_PIL_PAS_MEM_SETUP;
       arginfo := [QCOM_SCM_VAL; QCOM_SCM_VAL; QCOM_SCM_VAL];
       args := [peripheral; addr; size] |} w.

(** [qcom_scm_pas_auth_and_reset]. *)
Definition qcom_scm_pas_auth_and_reset (E : env)
    (QCOM_SCM_PIL_PAS_AUTH_AND_RESET : scm_cmd) (peripheral : Z) (w : world)
    : Z * world :=
  pas_gated_call E
    {| cmd := QCOM_SCM_PIL_PAS_AUTH_AND_RESET; arginfo := [QCOM_SCM_VAL];
       args := [peripheral] |} w.

(** [qcom_scm_pas_shutdown]. *)
Definition qcom_scm_pas_shutdown (E : env) (QCOM_SCM_PIL_PAS_SHUTDOWN : scm_cmd)
    (peripheral : Z) (w : world) : Z * world :=
  pas_gated_call E
    {| cmd := QCOM_SCM_PIL_PAS_SHUTDOWN; arginfo := [QCOM_SCM_VAL];
       args := [peripheral] |} w.

(** *** Availability queries *)

(** [__qcom_scm_is_call_available].  [smc_fnid] stands for
    [SCM_SMC_FNID(svc_id, cmd_id) | (ARM_SMCCC_OWNER_SIP << ARM_SMCCC_OWNER_SHIFT)]
    and [legacy_fnid] for [SCM_LEGACY_FNID(svc_id, cmd_id)], macros of
    qcom_scm.h and arm-smccc.h. *)
Definition __qcom_scm_is_call_available (E : env) (smc_fnid legacy_fnid : Z)
    (w : world) : bool * world :=
  let ask (arg : Z) (w : world) : bool * world :=
    let desc := {| cmd := INFO_IS_CALL_AVAIL; arginfo := [QCOM_SCM_VAL];
                   args := [arg] |} in
    let '(ret, res, w) := qcom_scm_call E desc w in
    (if decide (ret ≠ 0) then false else bool_decide (result_at res 0 ≠ 0), w) in
  let '(c, w) := __get_convention E w in
  match c with
  | SMC_CONVENTION_ARM_32 | SMC_CONVENTION_ARM_64 => ask smc_fnid w
  | SMC_CONVENTION_LEGACY => ask legacy_fnid w
  | _ => (false, emit (EvErr "Unknown SMC convention being used") w)
  end.

(** [qcom_scm_hdcp_available]: the function returns [bool], so
    [return ret] with a nonzero [ret] returns [true]. *)
Definition qcom_scm_hdcp_available (E : env) (smc_fnid legacy_fnid : Z) (w : world)
    : bool * world :=
  let '(ret, w) := qcom_scm_clk_enable E w in
  if decide (ret ≠ 0) then (bool_decide (ret ≠ 0), w) else
  let '(avail, w) := __qcom_scm_is_call_available E smc_fnid legacy_fnid w in
  (avail, qcom_scm_clk_disable w).

(** [qcom_scm_ice_available]: [&&] evaluates its second operand only when
    the first is true. *)
Definition qcom_scm_ice_available (E : env) (inv_smc inv_legacy set_smc set_legacy : Z)
    (w : world) : bool * world :=
  let '(a, w) := __qcom_scm_is_call_available E inv_smc inv_legacy w in
  if a then __qcom_scm_is_call_available E set_smc set_legacy w else (false, w).

(** *** Register access *)

(** [qcom_scm_io_readl]: returns the status and the value of [*val]
    afterwards; [*val] is an [unsigned int]. *)
Definition qcom_scm_io_readl (E : env) (QCOM_SCM_IO_READ : scm_cmd) (addr val : Z)
    (w : world) : Z * Z * world :=
  let desc := {| cmd := QCOM_SCM_IO_READ; arginfo := [QCOM_SCM_VAL];
                 args := [addr] |} in
  let '(ret, res, w) := qcom_scm_call_atomic E desc w in
  let val := if decide (0 <= ret) then to_u32 (result_at res 0) else val in
  (if decide (ret < 0) then ret else 0, val, w).

(** *** Limits management *)

(** [qcom_scm_lmh_dcvsh]: the payload is five [u32] words, stored
    little-endian. *)
Definition qcom_scm_lmh_dcvsh (E : env) (QCOM_SCM_LMH_LIMIT_DCVSH : scm_cmd)
    (payload_fn payload_reg payload_val limit_node node_id version : Z) (w : world)
    : Z * world :=
  let payload_size := 20%nat in
  match dma_alloc_coherent E payload_size w with
  | (None, w) => (- ENOMEM, w)
  | (Some payload_buf, w) =>
      let w := write_at payload_buf 0
                 (concat (cpu_to_le32 <$>
                          [payload_fn; 0; payload_reg; 1; payload_val])) w in
      let desc := {| cmd := QCOM_SCM_LMH_LIMIT_DCVSH;
                     arginfo := [QCOM_SCM_RO; QCOM_SCM_VAL; QCOM_SCM_VAL;
                                 QCOM_SCM_VAL; QCOM_SCM_VAL];
                     args := [payload_buf; Z.of_nat payload_size; limit_node;
                              node_id; version] |} in
      let '(ret, _, w) := qcom_scm_call E desc w in
      (ret, dma_free_coherent payload_buf w)
  end.

(** *** Boot addresses *)



(** The loop of [qcom_scm_set_boot_addr] over the present CPUs, in
    increasing order: [None] is the [return -EINVAL] from inside the loop.
    [max_cpus] stands for [QCOM_SCM_BOOT_MAX_CPUS] of qcom_scm.h. *)
Fixpoint boot_flags (max_cpus : Z) (cpu_bits : list Z) (present : list Z)
    (flags : Z) : option Z :=
  match present with
  | [] => Some flags
  | cpu :: present =>
      if decide (max_cpus <= cpu) then None
      else boot_flags max_cpus cpu_bits present
             (Z.lor flags (default 0 (cpu_bits !! Z.to_nat cpu)))
  end.

(** [qcom_scm_set_boot_addr]; [entry] is [virt_to_phys(entry)]. *)
Definition qcom_scm_set_boot_addr (E : env) (QCOM_SCM_BOOT_SET_ADDR : scm_cmd)
    (max_cpus : Z) (present : list Z) (entry : Z) (cpu_bits : list Z) (w : world)
    : Z * world :=
  match boot_flags max_cpus cpu_bits present 0 with
  | None => (- EINVAL, w)
  | Some flags =>
      let desc := {| cmd := QCOM_SCM_BOOT_SET_ADDR;
                     arginfo := [QCOM_SCM_VAL; QCOM_SCM_VAL];
                     args := [flags; entry] |} in
      let '(ret, _, w) := qcom_scm_call_atomic E desc w in
      (ret, w)
  end.





(** What the clock framework, the interconnect, the allocators and the
    completion see of a state: everything but the convention and the
    trace, with the buffers reduced to the set of live addresses. *)
Definition held (w : world) : nat * nat * nat * Z * Z * nat * nat * gset Z :=
  (core_en w, iface_en w, bus_en w, scm_vote_count w, bw_vote w, allocs w,
   waitq_done w, dom (heap w)).

(** The part of a state the resource properties speak about: clock
    enable counts, vote count, allocation attempts, live buffer addresses,
    and the calls sent to the firmware so far. *)
Definition footprint (w : world) : (nat * nat * nat) * Z * nat * gset Z * list event :=
  (clocks_of w, scm_vote_count w, allocs w, dom (heap w), dispatched (trace w)).

(** The allocators hand out memory that is not in use: no live buffer sits
    at an address a later allocation will return. *)
Definition heap_fresh (w : world) : Prop :=
  forall n : nat, (allocs w <= n)%nat -> heap w !! buf_addr n = None.

(** The size of the live buffer at an address. *)
Definition buf_size (h : gmap Z buffer) (a : Z) : option nat :=
  (fun b => length (buf_data b)) <$> h !! a.

(** The buffers a trace shows wiped by [memzero_explicit]. *)
Definition wipes (tr : list event) : list Z :=
  omap (fun e => match e with EvMemzeroExplicit a => Some a | _ => None end) tr.

(** An answer of [scm_get_wq_ctx] the interrupt handler acts on: the query
    succeeded, the flags are one of the two recognised values, and the
    context is the one supported. *)
Definition wq_valid (a : wq_answer) : Prop :=
  wq_ret a = 0 /\ wq_ctx a = 0 /\
  (wq_flags a = QCOM_SMC_WAITQ_FLAG_WAKE_ONE \/
   wq_flags a = QCOM_SMC_WAITQ_FLAG_WAKE_ALL).

(** Everything a trace shows reaching the firmware: the probes of the
    negotiation and the calls proper. *)
Definition is_fw_call (e : event) : bool :=
  match e with
  | EvProbe _ | EvSmcCall _ _ | EvLegacyCall _ _ => true
  | _ => false
  end.

Definition fw_calls (tr : list event) : list event :=
  filter (fun e => is_fw_call e) tr.

(** The probes [__get_convention] sends from a state: none once the
    convention is published. *)
Definition negotiation (E : env) (w : world) : list event :=
  if decide (convention w = SMC_CONVENTION_UNKNOWN)
  then EvProbe <$> negotiation_probes_spec E else [].

(** * Properties *)

#[local] Set Warnings "-clear-no-such-hyp".

(** ** Fixed-width arithmetic *)

Lemma to_int_id (z : Z) : - 2 ^ 31 <= z < 2 ^ 31 -> to_int z = z.
Proof.
  intros Hz. unfold to_int.
  rewrite Z.mod_small by lia. lia.
Qed.

Lemma to_u64_id (z : Z) : 0 <= z < 2 ^ 64 -> to_u64 z = z.
Proof. intros Hz. unfold to_u64. now rewrite Z.mod_small. Qed.

Lemma BIT_eq (n : Z) : 0 <= n < 64 -> BIT n = 2 ^ n.
Proof.
  intros Hn. unfold BIT, BITS_PER_LONG.
  rewrite Z.shiftl_1_l. apply Z.mod_small.
  split; [apply Z.pow_nonneg; lia | apply Z.pow_lt_mono_r; lia].
Qed.

(** ** ResourceGate: clocks *)

Global Arguments qcom_scm_call : simpl never.
Global Arguments __get_convention : simpl never.
Global Arguments free_buf : simpl never.

Ltac dec_solve := first [done | lia | tauto | congruence].

(** Symbolic execution: decide every test the hypotheses settle, branch on
    the others. *)
Ltac run :=
  repeat (cbn;
          match goal with
          | |- context [decide ?P] => destruct (decide P); try (exfalso; dec_solve)
          end);
  cbn.

(** C4. [qcom_scm_clk_enable] starts the core clock, then the interface
    clock, then the bus clock.  When all three start it returns 0 with each
    enable count raised by one.  When a stage fails, the stages enabled
    before it are disabled again before the failing stage's error code is
    returned, and the enable counts are what they were at entry; so a bus
    clock that refuses to start on a system with no clock enabled leaves no
    clock enabled. *)
Theorem qcom_scm_clk_enable_rollback (E : env) (w : world) :
  let r := qcom_scm_clk_enable E w in
  let core := clk_prepare_enable_ret E CORE_CLK in
  let iface := clk_prepare_enable_ret E IFACE_CLK in
  let bus := clk_prepare_enable_ret E BUS_CLK in
  (core = 0 -> iface = 0 -> bus = 0 ->
     r.1 = 0 /\
     trace r.2 = trace w ++ [EvClkEnable CORE_CLK; EvClkEnable IFACE_CLK;
                             EvClkEnable BUS_CLK] /\
     clocks_of r.2 = (S (core_en w), S (iface_en w), S (bus_en w))) /\
  (core ≠ 0 ->
     r.1 = core /\
     trace r.2 = trace w ++ [EvClkEnableFail CORE_CLK core] /\
     clocks_of r.2 = clocks_of w) /\
  (core = 0 -> iface ≠ 0 ->
     r.1 = iface /\
     trace r.2 = trace w ++ [EvClkEnable CORE_CLK; EvClkEnableFail IFACE_CLK iface;
                             EvClkDisable CORE_CLK] /\
     clocks_of r.2 = clocks_of w) /\
  (core = 0 -> iface = 0 -> bus ≠ 0 ->
     r.1 = bus /\
     trace r.2 = trace w ++ [EvClkEnable CORE_CLK; EvClkEnable IFACE_CLK;
                             EvClkEnableFail BUS_CLK bus;
                             EvClkDisable IFACE_CLK; EvClkDisable CORE_CLK] /\
     clocks_of r.2 = clocks_of w /\
     (clocks_of w = (0, 0, 0)%nat -> clocks_of r.2 = (0, 0, 0)%nat)).
Proof.
  cbv zeta. unfold qcom_scm_clk_enable, clk_prepare_enable.
  repeat split; intros;
    try match goal with
        | H : clocks_of w = _ |- _ => rewrite <- H; clear H
        end;
    repeat match goal with
           | H : clk_prepare_enable_ret _ _ = 0 |- _ => rewrite H in *; clear H
           end;
    repeat (case_decide; try congruence; try lia);
    cbn in *; rewrite <- ?app_assoc; try reflexivity; try congruence.
Qed.

(** The bus clock of the sample platform refuses to start at boot: both
    clocks enabled before it are disabled again. *)
Lemma qcom_scm_clk_enable_rollback_witness :
  let r := qcom_scm_clk_enable (with_clk_ret bus_clk_fails platform_ok) boot in
  r.1 = - EINVAL /\ clocks_of r.2 = (0, 0, 0)%nat.
Proof.
  pose proof (qcom_scm_clk_enable_rollback
                (with_clk_ret bus_clk_fails platform_ok) boot) as H.
  cbv zeta in H. destruct H as (_ & _ & _ & H).
  destruct H as (Hr & _ & _ & Hc); [reflexivity | reflexivity | discriminate |].
  split; [exact Hr | apply Hc; reflexivity].
Defined.

(** ** ResourceGate: bandwidth vote *)

Lemma icc_set_bw_vote_count (E : env) (peak : Z) (w : world) :
  scm_vote_count (icc_set_bw E peak w).2 = scm_vote_count w.
Proof. unfold icc_set_bw. cbn. now case_decide. Qed.

(** [qcom_scm_bw_disable] with a usable path always takes one off the
    count, whatever the count is. *)
Lemma qcom_scm_bw_disable_count (E : env) (w : world) :
  path E = PATH_OK ->
  scm_vote_count (qcom_scm_bw_disable E w) = to_int (scm_vote_count w - 1).
Proof.
  intros HP. unfold qcom_scm_bw_disable. rewrite HP.
  case_decide; [rewrite icc_set_bw_vote_count |]; reflexivity.
Qed.

(** Without a usable path the gate does not count at all. *)
Lemma qcom_scm_bw_no_path (E : env) (o : bw_op) (w : world) :
  path E ≠ PATH_OK -> bw_step E o w = w.
Proof.
  intros HP. destruct o; cbn; unfold qcom_scm_bw_enable, qcom_scm_bw_disable;
    destruct (path E); first [reflexivity | congruence].
Qed.

(** [qcom_scm_bw_enable] leaves the count or adds one to it. *)
Lemma qcom_scm_bw_enable_count (E : env) (w : world) :
  let c := scm_vote_count (qcom_scm_bw_enable E w).2 in
  c = scm_vote_count w \/ c = to_int (scm_vote_count w + 1).
Proof.
  cbv zeta. unfold qcom_scm_bw_enable, icc_set_bw.
  destruct (path E); cbn; auto.
  repeat (case_decide; cbn); auto.
Qed.

(** One call made within the contract keeps the count non-negative and
    raises it by one at most. *)
Lemma bw_step_bounds (E : env) (o : bw_op) (w : world) :
  0 <= scm_vote_count w < 2 ^ 31 - 1 ->
  match o with BwDisable => 0 < scm_vote_count w | BwEnable => True end ->
  0 <= scm_vote_count (bw_step E o w) <= scm_vote_count w + 1.
Proof.
  intros Hw Ho. destruct o; cbn.
  - destruct (qcom_scm_bw_enable_count E w) as [-> | ->]; [lia |].
    rewrite to_int_id by lia. lia.
  - destruct (decide (path E = PATH_OK)) as [HP | HP].
    + rewrite qcom_scm_bw_disable_count by exact HP.
      rewrite to_int_id by lia. lia.
    + pose proof (qcom_scm_bw_no_path E BwDisable w HP) as Hn.
      cbn in Hn. rewrite Hn. lia.
Qed.

Lemma bw_run_cons (E : env) (o : bw_op) (ops : list bw_op) (w : world) :
  bw_run E (o :: ops) w = bw_run E ops (bw_step E o w).
Proof. reflexivity. Qed.

Lemma bw_run_nonneg (E : env) (ops : list bw_op) :
  forall w : world,
    0 <= scm_vote_count w ->
    scm_vote_count w + Z.of_nat (length ops) < 2 ^ 31 ->
    bw_disciplined E ops w = true ->
    0 <= scm_vote_count (bw_run E ops w).
Proof.
  induction ops as [| o ops IH]; intros w H0 Hlen Hd.
  - exact H0.
  - rewrite bw_run_cons. cbn [bw_disciplined] in Hd.
    apply andb_prop in Hd as [Ho Hd].
    cbn [length] in Hlen.
    assert (0 <= scm_vote_count (bw_step E o w) <= scm_vote_count w + 1) as Hb.
    { apply bw_step_bounds; [lia |].
      destruct o; [exact I | now apply bool_decide_eq_true in Ho]. }
    apply IH; [lia | lia | exact Hd].
Qed.

Lemma bw_disciplined_take (E : env) (ops : list bw_op) :
  forall (n : nat) (w : world),
    bw_disciplined E ops w = true -> bw_disciplined E (take n ops) w = true.
Proof.
  induction ops as [| o ops IH]; intros [| n] w Hd; try reflexivity.
  cbn [take bw_disciplined] in *.
  apply andb_prop in Hd as [Ho Hd].
  rewrite Ho. cbn. now apply IH.
Qed.

(** With a usable path and an interconnect that grants every request, the
    count is plain bookkeeping: it goes up by one per enable and down by one
    per disable, with no floor at zero. *)
Lemma bw_run_accounting (E : env) (ops : list bw_op) :
  path E = PATH_OK ->
  (forall peak, 0 <= icc_set_bw_ret E peak) ->
  forall w : world,
    Z.abs (scm_vote_count w) + Z.of_nat (length ops) < 2 ^ 31 ->
    scm_vote_count (bw_run E ops w) =
    scm_vote_count w + bw_enables ops - bw_disables ops.
Proof.
  intros HP Hicc. unfold bw_enables, bw_disables.
  induction ops as [| o ops IH]; intros w Hb.
  - cbn. lia.
  - rewrite bw_run_cons. cbn [length] in Hb.
    assert (scm_vote_count (bw_step E o w) =
            scm_vote_count w + (match o with BwEnable => 1 | BwDisable => -1 end))
      as Hstep.
    { destruct o; cbn.
      - unfold qcom_scm_bw_enable, icc_set_bw. rewrite HP.
        pose proof (Hicc UINT_MAX).
        repeat (case_decide; cbn); try lia; apply to_int_id; lia.
      - rewrite qcom_scm_bw_disable_count by exact HP. apply to_int_id. lia. }
    rewrite IH by (rewrite Hstep; destruct o; lia).
    rewrite Hstep. destruct o.
    + rewrite (filter_cons_True (fun o => o = BwEnable)) by reflexivity.
      rewrite (filter_cons_False (fun o => o = BwDisable)) by discriminate.
      cbn [length]. lia.
    + rewrite (filter_cons_False (fun o => o = BwEnable)) by discriminate.
      rewrite (filter_cons_True (fun o => o = BwDisable)) by reflexivity.
      cbn [length]. lia.
Qed.

(** C2, as the code has it.  Along every sequence of [qcom_scm_bw_enable]
    and [qcom_scm_bw_disable] calls in which each disable is issued while a
    vote is held (the count is positive), [scm_vote_count] is non-negative
    after every call.  The code has no guard of its own: with a usable path,
    [qcom_scm_bw_disable] takes one off the count whatever it is, and a
    disable at count zero leaves it at -1. *)
Theorem bw_vote_count_nonneg (E : env) (ops : list bw_op) (w : world) :
  0 <= scm_vote_count w ->
  scm_vote_count w + Z.of_nat (length ops) < 2 ^ 31 ->
  bw_disciplined E ops w = true ->
  (forall n : nat, 0 <= scm_vote_count (bw_run E (take n ops) w)) /\
  (path E = PATH_OK -> scm_vote_count w = 0 ->
   scm_vote_count (qcom_scm_bw_disable E w) = -1).
Proof.
  intros H0 Hlen Hd. split.
  - intros n. apply bw_run_nonneg; [exact H0 | | now apply bw_disciplined_take].
    rewrite length_take. lia.
  - intros HP Hz. rewrite qcom_scm_bw_disable_count by exact HP.
    rewrite Hz. reflexivity.
Qed.

(** Two enables and two disables from boot keep the count at or above 0. *)
Lemma bw_vote_count_nonneg_witness :
  (forall n : nat,
     0 <= scm_vote_count
            (bw_run platform_ok
               (take n [BwEnable; BwEnable; BwDisable; BwDisable]) boot)) /\
  (path platform_ok = PATH_OK -> scm_vote_count boot = 0 ->
   scm_vote_count (qcom_scm_bw_disable platform_ok boot) = -1).
Proof.
  apply (bw_vote_count_nonneg platform_ok
           [BwEnable; BwEnable; BwDisable; BwDisable] boot).
  - cbn. lia.
  - cbn. lia.
  - reflexivity.
Defined.

(** C2, as stated, fails: a [qcom_scm_bw_disable] issued at boot, when the
    count is zero, is not a no-op; the count becomes -1. *)
Lemma bw_disable_at_zero_underflows :
  scm_vote_count boot = 0 /\
  scm_vote_count (bw_run platform_ok [BwDisable] boot) = -1 /\
  bw_run platform_ok [BwDisable] boot ≠ boot.
Proof.
  split; [reflexivity |]. split; [reflexivity |].
  intros H. apply (f_equal scm_vote_count) in H. discriminate H.
Qed.

(** ** ConventionNegotiator *)

Lemma negotiated_spec_known (E : env) :
  (negotiated_spec E).1 ≠ SMC_CONVENTION_UNKNOWN.
Proof.
  unfold negotiated_spec.
  repeat match goal with |- context [if ?b then _ else _] => destruct b end;
    discriminate.
Qed.

(** A resolved convention is returned as cached: nothing is probed and
    nothing changes. *)
Lemma get_convention_cached (E : env) (w : world) :
  convention w ≠ SMC_CONVENTION_UNKNOWN ->
  __get_convention E w = (convention w, w).
Proof. intros H. unfold __get_convention. now rewrite decide_True. Qed.

(** The first resolution does what the spec's account says. *)
Lemma get_convention_fresh (E : env) (w : world) :
  convention w = SMC_CONVENTION_UNKNOWN ->
  __get_convention E w = ((negotiated_spec E).1, negotiated_world E w).
Proof.
  intros H. unfold __get_convention. rewrite decide_False by congruence.
  unfold negotiated_world, convention_log_spec, negotiation_probes_spec,
    negotiated_spec, probe_arm_32, probe, found.
  destruct (CONFIG_ARM64 E), (probe_ok E SMC_CONVENTION_ARM_64), (is_sc7180 E),
    (probe_ok E SMC_CONVENTION_ARM_32);
    cbn; rewrite H; reflexivity.
Qed.

Lemma get_convention_fst (E : env) (w : world) :
  (__get_convention E w).1 = convention_in_effect E w.
Proof.
  unfold convention_in_effect. case_decide as H.
  - now rewrite get_convention_fresh.
  - now rewrite get_convention_cached.
Qed.

Lemma convention_in_effect_known (E : env) (w : world) :
  convention_in_effect E w ≠ SMC_CONVENTION_UNKNOWN.
Proof.
  unfold convention_in_effect. case_decide; [apply negotiated_spec_known | done].
Qed.

Lemma get_convention_published (E : env) (w : world) :
  convention (__get_convention E w).2 = convention_in_effect E w.
Proof.
  unfold convention_in_effect. case_decide as H.
  - now rewrite get_convention_fresh.
  - now rewrite get_convention_cached.
Qed.

Lemma negotiated_world_trace (E : env) (w : world) :
  trace (negotiated_world E w) =
  trace w ++ (EvProbe <$> negotiation_probes_spec E) ++ [convention_log_spec E].
Proof.
  unfold negotiated_world. cbn. rewrite app_assoc. f_equal.
  generalize (negotiation_probes_spec E). intros l. revert w.
  induction l as [| c l IH]; intros w; cbn.
  - now rewrite app_nil_r.
  - rewrite IH. cbn. now rewrite <- app_assoc.
Qed.

(** C5. [__get_convention] never returns [SMC_CONVENTION_UNKNOWN], and what
    it returns is what it leaves published.  On first use it settles as the
    spec describes: on a 64-bit platform ARM_64 is probed first and adopted
    on a yes; on an inconclusive probe the sc7180 variant adopts ARM_64
    without a further probe and the logged line says "(forced)"; otherwise
    ARM_32 is probed and adopted on a yes; otherwise LEGACY is adopted.  The
    trace holds exactly those probes, then the logged line.  Once a
    convention is published, a call returns it and changes nothing: no
    probe is issued again. *)
Theorem get_convention_resolves (E : env) (w : world) :
  let r := __get_convention E w in
  r.1 ≠ SMC_CONVENTION_UNKNOWN /\
  convention r.2 = r.1 /\
  __get_convention E r.2 = r /\
  (if decide (convention w = SMC_CONVENTION_UNKNOWN) then
     r.1 = (negotiated_spec E).1 /\
     trace r.2 = trace w ++ (EvProbe <$> negotiation_probes_spec E) ++
                 [convention_log_spec E]
   else r = (convention w, w)).
Proof.
  cbv zeta.
  assert ((__get_convention E w).1 ≠ SMC_CONVENTION_UNKNOWN) as Hk.
  { rewrite get_convention_fst. apply convention_in_effect_known. }
  assert (convention (__get_convention E w).2 = (__get_convention E w).1) as Hp.
  { now rewrite get_convention_published, get_convention_fst. }
  repeat split; [exact Hk | exact Hp | |].
  - rewrite get_convention_cached by (rewrite Hp; exact Hk).
    rewrite Hp. now destruct (__get_convention E w).
  - case_decide as H.
    + rewrite get_convention_fresh by exact H. cbn.
      split; [reflexivity | apply negotiated_world_trace].
    + now apply get_convention_cached.
Qed.

(** The sc7180 case on the sample platform: the ARM_64 probe is refused,
    the convention is forced, and no further probe is made. *)
Example get_convention_sc7180_forced :
  let E := {| CONFIG_ARM64 := true; is_sc7180 := true;
              clk_prepare_enable_ret := fun _ => 0; path := PATH_OK;
              icc_set_bw_ret := fun _ => 0; qtee_shmbridge_is_enabled := false;
              alloc_ok := fun _ => true; pool_fill := fun _ => [];
              fw_ret := fun _ _ => - EINVAL;
              fw_res := fun _ _ => {| result := [0; 0; 0] |};
              fw_mem := fun _ => [] |} in
  __get_convention E boot =
  (SMC_CONVENTION_ARM_64,
   emit (EvInfo "qcom_scm: convention: smc arm 64 (forced)")
     (set_convention SMC_CONVENTION_ARM_64
        (emit (EvProbe SMC_CONVENTION_ARM_64) boot))).
Proof. reflexivity. Qed.

(** ** CallDispatcher *)

Lemma dispatched_snoc_other (tr : list event) (e : event) :
  is_dispatch e = false -> dispatched (tr ++ [e]) = dispatched tr.
Proof.
  intros He. unfold dispatched. rewrite filter_app.
  rewrite filter_cons_False by (rewrite He; auto).
  rewrite filter_nil. apply app_nil_r.
Qed.

(** The default arm of the two switches: a value that is none of the three
    recognised conventions gives [-EINVAL]; no call goes out to the firmware
    and no buffer is touched. *)
Lemma call_switch_default_arm (E : env) (c : qcom_scm_convention)
    (d : qcom_scm_desc) (w : world) :
  c ≠ SMC_CONVENTION_ARM_32 ->
  c ≠ SMC_CONVENTION_ARM_64 ->
  c ≠ SMC_CONVENTION_LEGACY ->
  let r := qcom_scm_call_switch E c d w in
  let ra := qcom_scm_call_atomic_switch E c d w in
  (r.1.1 = - EINVAL /\ dispatched (trace r.2) = dispatched (trace w) /\
   heap r.2 = heap w) /\
  (ra.1.1 = - EINVAL /\ dispatched (trace ra.2) = dispatched (trace w) /\
   heap ra.2 = heap w).
Proof.
  intros H32 H64 HL. cbv zeta.
  destruct c; try congruence; cbn;
    rewrite dispatched_snoc_other by reflexivity; auto.
Qed.

(** What [qcom_scm_call] does: it resolves the convention and sends the
    call out in it; the default arm of its [switch] is never taken. *)
Lemma qcom_scm_call_spec (E : env) (d : qcom_scm_desc) (w : world) :
  let c := convention_in_effect E w in
  qcom_scm_call E d w =
  (fw_ret E c d, fw_res E c d,
   fw_touch E d (emit (call_event c false d) (__get_convention E w).2)).
Proof.
  cbv zeta. unfold qcom_scm_call.
  pose proof (get_convention_fst E w) as H1.
  pose proof (get_convention_published E w) as H2.
  pose proof (convention_in_effect_known E w) as H3.
  destruct (__get_convention E w) as [c w1]. cbn in H1, H2. subst c.
  destruct (convention_in_effect E w); try congruence; cbn;
    unfold scm_smc_call, scm_legacy_call; cbn; rewrite ?H2; reflexivity.
Qed.

(** ** WaitQueueBridge *)

(** C9. For a [wq_ctx] other than 0, [qcom_scm_wait_for_wq_completion]
    returns [-EINVAL] at once: it logs the error and never reaches
    [wait_for_completion].  For [wq_ctx] 0 with no completion posted the
    caller sleeps; it stays asleep while no wake arrives and while a wake
    for another context is rejected; a wake for context 0, delivered by
    [qcom_scm_waitq_wakeup] directly or through [qcom_scm_irq_handler] with
    either recognised flag, lets it return 0 and uses the completion up, so
    that a second wait blocks again. *)
Theorem wait_for_wq_completion_contract (wq_ctx : Z) (w : world) :
  (wq_ctx ≠ 0 ->
   qcom_scm_wait_for_wq_completion wq_ctx w =
   Returned (- EINVAL)
     (emit (EvErr "Firmware unexpectedly passed non-zero wq_ctx") w)) /\
  (waitq_done w = 0%nat ->
   let s := emit EvWait w in
   let woken := set_waitq_done 0 (complete s) in
   qcom_scm_wait_for_wq_completion 0 w = Sleeping s /\
   wq_resume s = Sleeping s /\
   (wq_ctx ≠ 0 ->
    exists s', wq_resume (qcom_scm_waitq_wakeup wq_ctx s).2 = Sleeping s') /\
   wq_resume (qcom_scm_waitq_wakeup 0 s).2 = Returned 0 woken /\
   (forall flags more,
      flags = QCOM_SMC_WAITQ_FLAG_WAKE_ONE \/ flags = QCOM_SMC_WAITQ_FLAG_WAKE_ALL ->
      wq_resume (qcom_scm_irq_handler
                   [{| wq_ret := 0; wq_ctx := 0; wq_flags := flags;
                       wq_more_pending := more |}] s) = Returned 0 woken) /\
   qcom_scm_wait_for_wq_completion 0 woken = Sleeping (emit EvWait woken)).
Proof.
  split.
  - intros H. unfold qcom_scm_wait_for_wq_completion, qcom_scm_assert_valid_wq_ctx.
    rewrite decide_True by exact H. cbn. reflexivity.
  - intros Hd. cbv zeta.
    unfold qcom_scm_wait_for_wq_completion, qcom_scm_waitq_wakeup,
      qcom_scm_assert_valid_wq_ctx, wq_resume, wait_for_completion, complete.
    destruct w as [vc cv dn ce ie be bv al hp tr]. cbn in Hd. subst dn.
    repeat split; cbn.
    + intros H. rewrite decide_True by exact H. cbn. eauto.
    + intros flags more Hf.
      unfold qcom_scm_waitq_wakeup, qcom_scm_assert_valid_wq_ctx, complete.
      repeat (case_decide; cbn); try reflexivity; exfalso; intuition congruence.
Qed.

(** A wait on context 7 from boot comes straight back with [-EINVAL]; a
    wait on context 0 from boot sleeps. *)
Lemma wait_for_wq_completion_contract_witness :
  qcom_scm_wait_for_wq_completion 7 boot =
  Returned (- EINVAL)
    (emit (EvErr "Firmware unexpectedly passed non-zero wq_ctx") boot) /\
  qcom_scm_wait_for_wq_completion 0 boot = Sleeping (emit EvWait boot).
Proof.
  destruct (wait_for_wq_completion_contract 7 boot) as [H1 H2].
  split; [apply H1; discriminate | apply H2; reflexivity].
Defined.

(** ** Memory-ownership reassignment *)

Lemma convention_in_effect_ext (E : env) (w1 w2 : world) :
  convention w1 = convention w2 ->
  convention_in_effect E w1 = convention_in_effect E w2.
Proof. intros H. unfold convention_in_effect. now rewrite H. Qed.

Lemma convention_update_buf (a : Z) (f : bytes -> bytes) (w : world) :
  convention (update_buf a f w) = convention w.
Proof. unfold update_buf. now destruct (heap w !! a). Qed.

(** What [qcom_scm_assign_mem] returns once its buffer is allocated: the
    status is [-EINVAL] with [*srcvm] untouched when the underlying call
    fails, and 0 with [*srcvm] set from [next_vm] when it succeeds. *)
Lemma qcom_scm_assign_mem_outcome (E : env) (mem_addr mem_sz srcvm : Z)
    (newvm : list qcom_scm_vmperm) (w : world) :
  alloc_ok E (allocs w) = true ->
  (qcom_scm_assign_mem E mem_addr mem_sz srcvm newvm w).1 =
  if decide (assign_status E w srcvm newvm ≠ 0)
  then (- EINVAL, srcvm)
  else (0, to_u64 (next_vm_of newvm)).
Proof.
  intros Ha.
  unfold qcom_scm_assign_mem, dma_alloc_coherent, alloc_from.
  rewrite Ha. cbv zeta. unfold __qcom_scm_assign_mem.
  rewrite qcom_scm_call_spec. cbv zeta.
  unfold assign_status, assign_mem_desc.
  match goal with
  | |- context [convention_in_effect E ?w1] =>
      match w1 with
      | w => fail 1
      | _ => rewrite (convention_in_effect_ext E w1 w)
               by (unfold write_at; now rewrite !convention_update_buf)
      end
  end.
  case_decide; reflexivity.
Qed.

(** C10. When the underlying assign call fails, [qcom_scm_assign_mem]
    returns [-EINVAL], whatever the underlying error code was, and the
    caller's [*srcvm] holds what it held before. *)
Theorem assign_mem_failure_keeps_srcvm (E : env) (mem_addr mem_sz srcvm : Z)
    (newvm : list qcom_scm_vmperm) (w : world) :
  alloc_ok E (allocs w) = true ->
  assign_status E w srcvm newvm ≠ 0 ->
  (qcom_scm_assign_mem E mem_addr mem_sz srcvm newvm w).1 = (- EINVAL, srcvm).
Proof.
  intros Ha Hs. rewrite qcom_scm_assign_mem_outcome by exact Ha.
  now rewrite decide_True.
Qed.

(** Firmware that refuses the assign call with -5: the caller sees
    [-EINVAL] and its owner mask [{0,3}] is unchanged. *)
Lemma assign_mem_failure_keeps_srcvm_witness :
  (qcom_scm_assign_mem (with_fw_ret fw_refuses platform_ok) 4096 4096
     (mask_of [0; 3]) [{| vmid := 5; perm := 6 |}] boot).1 =
  (- EINVAL, mask_of [0; 3]).
Proof.
  apply (assign_mem_failure_keeps_srcvm (with_fw_ret fw_refuses platform_ok)
           4096 4096 (mask_of [0; 3]) [{| vmid := 5; perm := 6 |}] boot).
  - reflexivity.
  - vm_compute. discriminate.
Defined.

Lemma lor_below_pow2 (a b n : Z) :
  0 <= n -> 0 <= a < 2 ^ n -> 0 <= b < 2 ^ n -> 0 <= Z.lor a b < 2 ^ n.
Proof.
  intros Hn Ha Hb. split; [apply Z.lor_nonneg; lia |].
  destruct (decide (a = 0)) as [-> | Ha0]; [rewrite Z.lor_0_l; lia |].
  destruct (decide (b = 0)) as [-> | Hb0]; [rewrite Z.lor_0_r; lia |].
  apply Z.log2_lt_pow2.
  - assert (0 <= Z.lor a b) by (apply Z.lor_nonneg; lia).
    assert (Z.lor a b ≠ 0) by (rewrite Z.lor_eq_0_iff; tauto). lia.
  - rewrite Z.log2_lor by lia.
    apply Z.max_lub_lt; apply Z.log2_lt_pow2; lia.
Qed.

Lemma next_vm_fold_small (newvm : list qcom_scm_vmperm) :
  Forall (fun vm => 0 <= vmid vm < 31) newvm ->
  forall acc : Z,
    0 <= acc < 2 ^ 31 ->
    let step next_vm vm := to_int (Z.lor (to_u64 next_vm) (BIT (vmid vm))) in
    let r := foldl step acc newvm in
    r = foldl (fun m vm => Z.lor m (BIT (vmid vm))) acc newvm /\ 0 <= r < 2 ^ 31.
Proof.
  cbv zeta. induction 1 as [| vm newvm Hvm _ IH]; intros acc Hacc; cbn.
  - auto.
  - assert (0 <= BIT (vmid vm) < 2 ^ 31) as Hb.
    { rewrite BIT_eq by lia. split; [apply Z.pow_nonneg; lia |].
      apply Z.pow_lt_mono_r; lia. }
    pose proof (lor_below_pow2 acc (BIT (vmid vm)) 31 ltac:(lia) Hacc Hb) as Hl.
    rewrite (to_u64_id acc) by lia.
    rewrite to_int_id by lia.
    apply IH. exact Hl.
Qed.

(** For destination owner ids below 31 the [int] accumulator loses
    nothing: the value stored in [*srcvm] is the OR of [BIT(vmid)]. *)
Lemma next_vm_of_small (newvm : list qcom_scm_vmperm) :
  Forall (fun vm => 0 <= vmid vm < 31) newvm ->
  to_u64 (next_vm_of newvm) = dest_mask newvm.
Proof.
  intros H. unfold next_vm_of, dest_mask.
  destruct (next_vm_fold_small newvm H 0 ltac:(lia)) as [-> Hr].
  apply to_u64_id. lia.
Qed.

(** On success with owner ids below 31, [*srcvm] becomes the OR of the
    destination bits, whatever it was before. *)
Lemma qcom_scm_assign_mem_success_small (E : env) (mem_addr mem_sz srcvm : Z)
    (newvm : list qcom_scm_vmperm) (w : world) :
  alloc_ok E (allocs w) = true ->
  assign_status E w srcvm newvm = 0 ->
  Forall (fun vm => 0 <= vmid vm < 31) newvm ->
  (qcom_scm_assign_mem E mem_addr mem_sz srcvm newvm w).1 = (0, dest_mask newvm).
Proof.
  intros Ha Hs Hv. rewrite qcom_scm_assign_mem_outcome by exact Ha.
  rewrite decide_False by (rewrite Hs; tauto).
  now rewrite next_vm_of_small.
Qed.

(** The spec's example: owners [{0,3}], destination [(vmid=5, perm=RW)]:
    afterwards bit 5 is set and bits 0 and 3 are clear. *)
Example assign_mem_spec_example :
  let r := qcom_scm_assign_mem platform_ok 4096 4096 (mask_of [0; 3])
             [{| vmid := 5; perm := 6 |}] boot in
  r.1 = (0, mask_of [5]) /\
  Z.testbit r.1.2 5 = true /\ Z.testbit r.1.2 0 = false /\ Z.testbit r.1.2 3 = false.
Proof. vm_compute. auto. Qed.

(** C7 fails on the code for owner ids of 31 and above.  With the
    destination list [(vmid=43, perm=RW)] and a successful call, the OR of
    [BIT(vmid)] is [2^43], but [next_vm] is an [int]: the bit is cut off
    and [*srcvm] becomes 0.  With [vmid=31] the [int] turns negative and
    [*srcvm] becomes [0xFFFFFFFF80000000] instead of [2^31]. *)
Theorem assign_mem_drops_high_owner_bits :
  let r43 := qcom_scm_assign_mem platform_ok 4096 4096 (mask_of [0; 3])
               [{| vmid := 43; perm := 6 |}] boot in
  let r31 := qcom_scm_assign_mem platform_ok 4096 4096 (mask_of [0; 3])
               [{| vmid := 31; perm := 6 |}] boot in
  (r43.1 = (0, 0) /\ dest_mask [{| vmid := 43; perm := 6 |}] = 2 ^ 43) /\
  (r31.1 = (0, 2 ^ 64 - 2 ^ 31) /\ dest_mask [{| vmid := 31; perm := 6 |}] = 2 ^ 31).
Proof. vm_compute. auto. Qed.

(** ** Transport buffers *)

Lemma store_bytes_full (data old : bytes) :
  length old = length data -> store_bytes data old = data.
Proof.
  intros H. unfold store_bytes.
  rewrite take_ge by lia. rewrite drop_ge by lia. apply app_nil_r.
Qed.

Lemma store_bytes_zero (n : nat) (old : bytes) :
  length old = n -> store_bytes (replicate n 0) old = replicate n 0.
Proof. intros H. apply store_bytes_full. now rewrite length_replicate. Qed.

(** ** Peripheral authentication: image metadata *)

(** When the bandwidth vote is refused, [qcom_scm_pas_init_image] returns at
    once: the metadata buffer stays allocated and the three clocks stay
    enabled. *)
Lemma pas_init_image_bw_failure (E : env) (peripheral : Z) (metadata : bytes)
    (ctx : option qcom_scm_pas_metadata) (w : world) :
  alloc_ok E (allocs w) = true ->
  (forall c, clk_prepare_enable_ret E c = 0) ->
  path E = PATH_OK ->
  scm_vote_count w = 0 ->
  icc_set_bw_ret E UINT_MAX < 0 ->
  let r := qcom_scm_pas_init_image E peripheral metadata ctx w in
  let a := buf_addr (allocs w) in
  r.1 = (icc_set_bw_ret E UINT_MAX, ctx) /\
  clocks_of r.2 = (S (core_en w), S (iface_en w), S (bus_en w)) /\
  heap r.2 !! a = Some {| buf_backend := Direct; buf_data := metadata |} /\
  trace r.2 = trace w ++
    [EvAlloc Direct a (length metadata); EvMemcpyIn a metadata;
     EvClkEnable CORE_CLK; EvClkEnable IFACE_CLK; EvClkEnable BUS_CLK;
     EvIccSetBw UINT_MAX (icc_set_bw_ret E UINT_MAX);
     EvErr "failed to set bandwidth request"].
Proof.
  intros Ha Hclk HP Hv Hicc. cbv zeta.
  unfold qcom_scm_pas_init_image, dma_alloc_coherent, alloc_from,
    qcom_scm_clk_enable, clk_prepare_enable, qcom_scm_bw_enable, icc_set_bw,
    memcpy_in, update_buf.
  rewrite Ha, !Hclk, HP. cbn. rewrite lookup_insert_eq. run.
  rewrite store_bytes_full by now rewrite length_replicate.
  rewrite lookup_insert_eq, <- !app_assoc. repeat split.
Qed.

(** When the core clock refuses to start, the buffer is given back and the
    clocks are as they were. *)
Lemma pas_init_image_clk_failure (E : env) (peripheral : Z) (metadata : bytes)
    (ctx : option qcom_scm_pas_metadata) (w : world) :
  alloc_ok E (allocs w) = true ->
  - 2 ^ 31 <= clk_prepare_enable_ret E CORE_CLK < 0 ->
  let r := qcom_scm_pas_init_image E peripheral metadata ctx w in
  let a := buf_addr (allocs w) in
  r.1 = (clk_prepare_enable_ret E CORE_CLK, ctx) /\
  clocks_of r.2 = clocks_of w /\
  scm_vote_count r.2 = scm_vote_count w /\
  heap r.2 !! a = None /\
  frees (drop (length (trace w)) (trace r.2)) = [a].
Proof.
  intros Ha Hclk. cbv zeta.
  unfold qcom_scm_pas_init_image, dma_alloc_coherent, alloc_from,
    qcom_scm_clk_enable, clk_prepare_enable, memcpy_in, update_buf,
    pas_init_image_out, dma_free_coherent, free_buf, ret_or_result.
  rewrite Ha. cbn. rewrite lookup_insert_eq. run.
  rewrite lookup_insert_eq. cbn.
  rewrite lookup_delete_eq, <- !app_assoc, drop_app_length, to_int_id by lia.
  repeat split.
Qed.


(** Resolving the convention touches no clock, vote or buffer. *)
Lemma get_convention_frame (E : env) (w : world) :
  let w' := (__get_convention E w).2 in
  heap w' = heap w /\ clocks_of w' = clocks_of w /\
  scm_vote_count w' = scm_vote_count w /\ allocs w' = allocs w.
Proof.
  cbv zeta. destruct (decide (convention w = SMC_CONVENTION_UNKNOWN)) as [H | H].
  - rewrite get_convention_fresh by exact H. unfold negotiated_world. cbn.
    generalize (negotiation_probes_spec E). intros l. revert w H.
    induction l as [| c l IH]; intros w H; cbn; [auto |].
    apply (IH (emit (EvProbe c) w)). exact H.
  - rewrite get_convention_cached by exact H. auto.
Qed.

Lemma poke_dom (h : gmap Z buffer) (wr : Z * bytes) : dom (poke h wr) = dom h.
Proof.
  unfold poke. destruct (h !! wr.1) eqn:Hl; [| reflexivity].
  apply dom_insert_lookup_L. now rewrite Hl.
Qed.

Lemma foldl_poke_dom (l : list (Z * bytes)) :
  forall h : gmap Z buffer, dom (foldl poke h l) = dom h.
Proof.
  induction l as [| wr l IH]; intros h; cbn; [reflexivity |].
  rewrite IH. apply poke_dom.
Qed.

(** The firmware writes into buffers; it neither creates nor frees one. *)
Lemma fw_touch_dom (E : env) (d : qcom_scm_desc) (w : world) :
  dom (heap (fw_touch E d w)) = dom (heap w).
Proof. unfold fw_touch. cbn. apply foldl_poke_dom. Qed.

Lemma free_buf_clocks (b : backend) (a : Z) (w : world) :
  clocks_of (free_buf b a w) = clocks_of w.
Proof. unfold free_buf. now destruct (heap w !! a). Qed.

Lemma free_buf_vote_count (b : backend) (a : Z) (w : world) :
  scm_vote_count (free_buf b a w) = scm_vote_count w.
Proof. unfold free_buf. now destruct (heap w !! a). Qed.

Lemma free_buf_gone (b : backend) (a : Z) (w : world) :
  heap (free_buf b a w) !! a = None.
Proof.
  unfold free_buf. destruct (heap w !! a) eqn:Hl; cbn;
    [apply lookup_delete_eq | exact Hl].
Qed.

Lemma free_buf_dom (b : backend) (a : Z) (w : world) :
  dom (heap (free_buf b a w)) = dom (heap w) ∖ {[a]}.
Proof.
  unfold free_buf. destruct (heap w !! a) eqn:Hl; cbn.
  - apply dom_delete_L.
  - apply not_elem_of_dom in Hl. set_solver.
Qed.

(** The set-up of an image goes through to the call when the buffer is
    allocated, the clocks start and the bandwidth vote is granted.  Then
    the clocks and the vote are released whatever the call returns; the
    buffer is given back when the call fails or there is no context, and is
    handed to the context otherwise. *)
Lemma pas_init_image_call (E : env) (peripheral : Z) (metadata : bytes)
    (ctx : option qcom_scm_pas_metadata) (w : world) :
  alloc_ok E (allocs w) = true ->
  (forall c, clk_prepare_enable_ret E c = 0) ->
  path E = PATH_OK ->
  scm_vote_count w = 0 ->
  icc_set_bw_ret E UINT_MAX = 0 ->
  heap w !! buf_addr (allocs w) = None ->
  let r := qcom_scm_pas_init_image E peripheral metadata ctx w in
  let a := buf_addr (allocs w) in
  let d := {| cmd := PIL_PAS_INIT_IMAGE; arginfo := [QCOM_SCM_VAL; QCOM_SCM_RW];
              args := [peripheral; a] |} in
  let ret := fw_ret E (convention_in_effect E w) d in
  clocks_of r.2 = clocks_of w /\
  scm_vote_count r.2 = 0 /\
  (ret < 0 \/ ctx = None ->
   r.1.2 = ctx /\ dom (heap r.2) = dom (heap w)) /\
  (~ (ret < 0 \/ ctx = None) ->
   r.1.2 = Some {| ctx_ptr := Some a; ctx_phys := a;
                   ctx_size := length metadata |} /\
   dom (heap r.2) = {[a]} ∪ dom (heap w)).
Proof.
  intros Ha Hclk HP Hv Hicc Hfresh. cbv zeta.
  unfold qcom_scm_pas_init_image, dma_alloc_coherent, alloc_from,
    qcom_scm_clk_enable, clk_prepare_enable, qcom_scm_bw_enable, icc_set_bw,
    memcpy_in, update_buf.
  rewrite Ha, !Hclk, HP, Hicc.
  destruct w as [vc cv dn ce ie be bv al hp tr]. cbn in Hv, Hfresh |- *. subst vc.
  rewrite lookup_insert_eq. run.
  rewrite qcom_scm_call_spec. cbv zeta.
  match goal with
  | |- context [__get_convention E ?W] =>
      pose proof (get_convention_frame E W) as (Hh & Hc & Hvc & _);
      rewrite !(convention_in_effect_ext E W
                  {| scm_vote_count := 0; convention := cv; waitq_done := dn;
                     core_en := ce; iface_en := ie; bus_en := be;
                     bw_vote := bv; allocs := al; heap := hp; trace := tr |})
        by reflexivity;
      destruct (__get_convention E W)
        as [c0 [vc1 cv1 dn1 ce1 ie1 be1 bv1 al1 hp1 tr1]]
  end.
  cbn in Hh, Hc, Hvc. injection Hc as -> -> ->. subst.
  unfold qcom_scm_bw_disable, qcom_scm_clk_disable, pas_init_image_out,
    dma_free_coherent, icc_set_bw. rewrite HP.
  change (to_int (0 + 1)) with 1.
  apply not_elem_of_dom in Hfresh.
  repeat split; intros; run;
    rewrite ?free_buf_clocks, ?free_buf_vote_count, ?free_buf_dom; cbn;
    rewrite ?foldl_poke_dom, ?dom_insert_L; try reflexivity; try tauto;
    set_solver.
Qed.

(** C3 fails on the code when the bandwidth vote is refused.  On the
    sample platform with an interconnect that rejects the request, image
    set-up from boot returns the interconnect's error while the metadata
    buffer is still allocated and never freed, and all three clocks are
    still enabled; a refusal of the core clock on the same platform, by
    contrast, leaves nothing held. *)
Theorem pas_init_image_bw_failure_leaks :
  let E := with_icc_ret (fun _ => - EINVAL) platform_ok in
  let r := qcom_scm_pas_init_image E 1 [127; 69; 76; 70] None boot in
  let E' := with_clk_ret (fun _ => - EINVAL) platform_ok in
  let r' := qcom_scm_pas_init_image E' 1 [127; 69; 76; 70] None boot in
  (r.1.1 = - EINVAL /\
   clocks_of r.2 = (1, 1, 1)%nat /\
   heap r.2 !! buf_addr 0 =
     Some {| buf_backend := Direct; buf_data := [127; 69; 76; 70] |} /\
   frees (trace r.2) = []) /\
  (r'.1.1 = - EINVAL /\
   clocks_of r'.2 = (0, 0, 0)%nat /\
   heap r'.2 !! buf_addr 0 = None /\
   frees (trace r'.2) = [buf_addr 0]).
Proof. vm_compute. auto 10. Qed.

(** ** Inline-encryption key operations *)

(** C1 fails on the code in [qcom_scm_ice_set_key].  Direct backend, the
    firmware refuses the call: the [goto exit] skips [memzero_explicit] and
    the key buffer goes back to [dma_free_coherent] still holding the key.
    On the success path of the same backend the buffer is wiped first.  In
    the bridged backend even the success path hands the buffer to
    [qtee_shmbridge_free_shm] with the key in it. *)
Theorem ice_set_key_failure_skips_wipe :
  let a := buf_addr 0 in
  let bad := qcom_scm_ice_set_key (with_fw_ret fw_refuses (platform_keys false))
               0 sample_key 0 8 boot in
  let good := qcom_scm_ice_set_key (platform_keys false) 0 sample_key 0 8 boot in
  let shm := qcom_scm_ice_set_key (platform_keys true) 0 sample_key 0 8 boot in
  (bad.1 = -5 /\
   last (trace bad.2) = Some (EvFree Direct a sample_key) /\
   frees_wiped (trace bad.2) = false /\
   freed_dirty (trace bad.2) = [(a, sample_key)]) /\
  (good.1 = 0 /\
   last (trace good.2) = Some (EvFree Direct a [0; 0; 0; 0]) /\
   frees_wiped (trace good.2) = true) /\
  (shm.1 = 0 /\
   last (trace shm.2) = Some (EvFree Bridged a sample_key) /\
   frees_wiped (trace shm.2) = false).
Proof. vm_compute. auto 12. Qed.

(** C8 fails on the code in the bridged backend of
    [qcom_scm_import_ice_key].  The raw key is copied into the first shared
    buffer before the second buffer is requested; when that request fails
    the first buffer is handed back holding the raw key, with no zeroing.
    The direct backend of the same function allocates both buffers first
    and wipes the first one before freeing it. *)
Theorem import_ice_key_bridged_marshals_early :
  let a := buf_addr 0 in
  let E := with_alloc_ok second_alloc_fails (platform_keys true) in
  let r := qcom_scm_import_ice_key E sample_key 4 boot in
  let E' := with_alloc_ok second_alloc_fails (platform_keys false) in
  let r' := qcom_scm_import_ice_key E' sample_key 4 boot in
  (r.1 = (- ENOMEM, None) /\
   trace r.2 = [EvAlloc Bridged a 4; EvMemcpyIn a sample_key; EvFlush a;
                EvAllocFail Bridged 4; EvFree Bridged a sample_key;
                EvErr "qcom_scm_import_ice_key, smbridge allocate error"] /\
   alloc_before_marshal (trace r.2) = false /\
   freed_dirty (trace r.2) = [(a, sample_key)]) /\
  (r'.1 = (- ENOMEM, None) /\
   trace r'.2 = [EvAlloc Direct a 4; EvAllocFail Direct 4;
                 EvMemzeroExplicit a; EvFree Direct a [0; 0; 0; 0]] /\
   alloc_before_marshal (trace r'.2) = true /\
   frees_wiped (trace r'.2) = true).
Proof. vm_compute. auto 12. Qed.

(** Direct backend, second allocation fails: each of the three two-buffer
    operations has copied nothing yet, wipes the first buffer with
    [memzero_explicit], frees it and returns [-ENOMEM]. *)
Lemma two_buffer_direct_rollback (E : env) (key : bytes) (out_size : nat) (w : world) :
  qtee_shmbridge_is_enabled E = false ->
  alloc_ok E (allocs w) = true ->
  alloc_ok E (S (allocs w)) = false ->
  let a := buf_addr (allocs w) in
  let expected :=
    (- ENOMEM, None,
     [EvAlloc Direct a (length key); EvAllocFail Direct out_size;
      EvMemzeroExplicit a; EvFree Direct a (replicate (length key) 0)]) in
  outcome w (qcom_scm_derive_sw_secret E key out_size w) = expected /\
  outcome w (qcom_scm_prepare_ice_key E key out_size w) = expected /\
  outcome w (qcom_scm_import_ice_key E key out_size w) = expected.
Proof.
  intros Hs Ha1 Ha2. cbv zeta.
  unfold outcome, qcom_scm_derive_sw_secret, qcom_scm_prepare_ice_key,
    qcom_scm_import_ice_key, dma_alloc_coherent, alloc_from, memzero_explicit,
    update_buf, dma_free_coherent, free_buf.
  rewrite Hs. destruct w as [vc cv dn ce ie be bv al hp tr].
  cbn in Ha1, Ha2 |- *. rewrite Ha1. cbn. rewrite Ha2. cbn.
  rewrite !lookup_insert_eq. cbn. rewrite !lookup_insert_eq. cbn.
  rewrite store_bytes_zero by apply length_replicate.
  rewrite <- !app_assoc, drop_app_length. auto.
Qed.

(** Bridged backend, second allocation fails, in
    [qcom_scm_derive_sw_secret] and [qcom_scm_prepare_ice_key]: the first
    buffer is the output buffer, filled with zeros by [memset]; no caller
    data has been copied; the buffer is handed back all-zero. *)
Lemma two_buffer_bridged_rollback (E : env) (key : bytes) (out_size : nat) (w : world) :
  qtee_shmbridge_is_enabled E = true ->
  alloc_ok E (allocs w) = true ->
  alloc_ok E (S (allocs w)) = false ->
  let a := buf_addr (allocs w) in
  let expected msg :=
    (- ENOMEM, None,
     [EvAlloc Bridged a out_size; EvMemset0 a; EvFlush a;
      EvAllocFail Bridged (length key);
      EvFree Bridged a (replicate out_size 0); EvErr msg]) in
  outcome w (qcom_scm_derive_sw_secret E key out_size w) =
    expected "qcom_scm_derive_sw_secret, smbridge allocate error" /\
  outcome w (qcom_scm_prepare_ice_key E key out_size w) =
    expected "qcom_scm_prepare_ice_key, smbridge allocate error".
Proof.
  intros Hs Ha1 Ha2. cbv zeta.
  unfold outcome, qcom_scm_derive_sw_secret, qcom_scm_prepare_ice_key,
    qtee_shmbridge_allocate_shm, alloc_from, memset0, update_buf,
    qtee_shmbridge_flush_shm_buf, qtee_shmbridge_free_shm, free_buf.
  rewrite Hs. destruct w as [vc cv dn ce ie be bv al hp tr].
  cbn in Ha1, Ha2 |- *. rewrite Ha1. cbn. rewrite !lookup_insert_eq. cbn.
  rewrite Ha2. cbn. rewrite !lookup_insert_eq. cbn.
  rewrite store_bytes_zero by apply length_resize.
  rewrite <- !app_assoc, !drop_app_length. auto.
Qed.

(** Bridged backend, second allocation fails, in
    [qcom_scm_import_ice_key], for every key and every state: the key was
    copied in before the second allocation, and the buffer is handed back
    holding it. *)
Lemma import_ice_key_bridged_rollback (E : env) (imp_key : bytes) (lt_key_size : nat)
    (w : world) :
  qtee_shmbridge_is_enabled E = true ->
  alloc_ok E (allocs w) = true ->
  alloc_ok E (S (allocs w)) = false ->
  let a := buf_addr (allocs w) in
  outcome w (qcom_scm_import_ice_key E imp_key lt_key_size w) =
  (- ENOMEM, None,
   [EvAlloc Bridged a (length imp_key); EvMemcpyIn a imp_key; EvFlush a;
    EvAllocFail Bridged lt_key_size; EvFree Bridged a imp_key;
    EvErr "qcom_scm_import_ice_key, smbridge allocate error"]).
Proof.
  intros Hs Ha1 Ha2. cbv zeta.
  unfold outcome, qcom_scm_import_ice_key,
    qtee_shmbridge_allocate_shm, alloc_from, memcpy_in, update_buf,
    qtee_shmbridge_flush_shm_buf, qtee_shmbridge_free_shm, free_buf.
  rewrite Hs. destruct w as [vc cv dn ce ie be bv al hp tr].
  cbn in Ha1, Ha2 |- *. rewrite Ha1. cbn. rewrite !lookup_insert_eq. cbn.
  rewrite Ha2. cbn. rewrite !lookup_insert_eq. cbn.
  rewrite store_bytes_full by apply length_resize.
  rewrite <- !app_assoc, drop_app_length. auto.
Qed.

Lemma foldl_poke_lookup (l : list (Z * bytes)) :
  forall (h : gmap Z buffer) (a : Z) (b : buffer),
    h !! a = Some b ->
    exists data,
      foldl poke h l !! a = Some {| buf_backend := buf_backend b; buf_data := data |} /\
      length data = length (buf_data b).
Proof.
  induction l as [| wr l IH]; intros h a b Hb; cbn.
  - exists (buf_data b). now destruct b.
  - unfold poke at 2. destruct (h !! wr.1) as [b1 |] eqn:H1; [| now apply IH].
    destruct (decide (wr.1 = a)) as [Heq | Hne].
    + rewrite Heq in *. rewrite Hb in H1. injection H1 as <-.
      destruct (IH (<[a := {| buf_backend := buf_backend b;
                              buf_data := store_bytes wr.2 (buf_data b) |}]> h) a
                  {| buf_backend := buf_backend b;
                     buf_data := store_bytes wr.2 (buf_data b) |})
        as (data & Hd & Hl); [apply lookup_insert_eq |].
      exists data. split; [exact Hd |]. rewrite Hl. cbn.
      unfold store_bytes. rewrite length_app, length_take, length_drop. lia.
    + apply IH. now rewrite lookup_insert_ne.
Qed.

(** [qcom_scm_ice_set_key], direct backend, for every key and state.  When
    the call succeeds the key buffer is wiped by [memzero_explicit] and
    then freed, whatever the firmware wrote into it.  When the call fails
    the buffer is freed as the call left it: with firmware that does not
    write to it, still holding the key. *)
Lemma ice_set_key_direct (E : env) (index : Z) (key : bytes)
    (cipher data_unit_size : Z) (w : world) :
  qtee_shmbridge_is_enabled E = false ->
  alloc_ok E (allocs w) = true ->
  let a := buf_addr (allocs w) in
  let d := {| cmd := ES_CONFIG_SET_ICE_KEY;
              arginfo := [QCOM_SCM_VAL; QCOM_SCM_RW; QCOM_SCM_VAL;
                          QCOM_SCM_VAL; QCOM_SCM_VAL];
              args := [index; a; Z.of_nat (length key); cipher; data_unit_size] |} in
  let ret := fw_ret E (convention_in_effect E w) d in
  let r := qcom_scm_ice_set_key E index key cipher data_unit_size w in
  r.1 = ret /\
  (ret = 0 ->
   exists tr, trace r.2 = tr ++ [EvMemzeroExplicit a;
                                 EvFree Direct a (replicate (length key) 0)]) /\
  (ret ≠ 0 -> fw_mem E d = [] ->
   exists tr, trace r.2 = tr ++ [call_event (convention_in_effect E w) false d;
                                 EvErr "qcom_scm_ice_set_key, scm call failed";
                                 EvFree Direct a key]).
Proof.
  intros Hs Ha. cbv zeta.
  unfold qcom_scm_ice_set_key, ice_set_key_call, dma_alloc_coherent, alloc_from,
    memcpy_in, update_buf.
  rewrite Hs, Ha.
  destruct w as [vc cv dn ce ie be bv al hp tr]. cbn.
  rewrite lookup_insert_eq. cbn.
  rewrite qcom_scm_call_spec. cbv zeta.
  match goal with
  | |- context [__get_convention E ?W] =>
      pose proof (get_convention_frame E W) as (Hh & _);
      rewrite !(convention_in_effect_ext E W
                  {| scm_vote_count := vc; convention := cv; waitq_done := dn;
                     core_en := ce; iface_en := ie; bus_en := be;
                     bw_vote := bv; allocs := al; heap := hp; trace := tr |})
        by reflexivity;
      destruct (__get_convention E W)
        as [c0 [vc1 cv1 dn1 ce1 ie1 be1 bv1 al1 hp1 tr1]]
  end.
  cbn in Hh. subst hp1.
  rewrite store_bytes_full by apply length_replicate.
  unfold dma_free_coherent, free_buf, memzero_explicit, update_buf, fw_touch.
  split; [reflexivity |]. split.
  - intros Hret. rewrite decide_False by (rewrite Hret; tauto). cbn.
    match goal with
    | |- context [foldl poke ?h ?l !! ?a] =>
        destruct (foldl_poke_lookup l h a
                    {| buf_backend := Direct; buf_data := key |})
          as (data & Hd & Hl); [apply lookup_insert_eq |]
    end.
    rewrite Hd. cbn. rewrite lookup_insert_eq. cbn.
    cbn in Hl. rewrite store_bytes_zero by exact Hl.
    eexists. rewrite <- app_assoc. reflexivity.
  - intros Hret Hmem. rewrite decide_True by exact Hret. rewrite Hmem. cbn.
    rewrite lookup_insert_eq. cbn.
    exists tr1. rewrite <- !app_assoc. reflexivity.
Qed.

Lemma buf_addr_inj (m n : nat) : buf_addr m = buf_addr n -> m = n.
Proof. unfold buf_addr. lia. Qed.

(** [qcom_scm_derive_sw_secret], direct backend, both buffers allocated:
    whether the call succeeds or fails, and whatever the firmware wrote,
    the secret buffer and then the wrapped-key buffer are each wiped by
    [memzero_explicit] and freed holding zeros. *)
Lemma derive_sw_secret_direct_wipes (E : env) (wkey : bytes) (sw_secret_size : nat)
    (w : world) :
  qtee_shmbridge_is_enabled E = false ->
  alloc_ok E (allocs w) = true ->
  alloc_ok E (S (allocs w)) = true ->
  let k := buf_addr (allocs w) in
  let s := buf_addr (S (allocs w)) in
  let r := qcom_scm_derive_sw_secret E wkey sw_secret_size w in
  exists tr,
    trace r.2 = tr ++ [EvMemzeroExplicit s; EvFree Direct s (replicate sw_secret_size 0);
                       EvMemzeroExplicit k; EvFree Direct k (replicate (length wkey) 0)].
Proof.
  intros Hs Ha1 Ha2. cbv zeta.
  unfold qcom_scm_derive_sw_secret, derive_sw_secret_call, dma_alloc_coherent,
    alloc_from, memcpy_in, update_buf.
  rewrite Hs, Ha1.
  destruct w as [vc cv dn ce ie be bv al hp tr]. cbn in Ha2 |- *.
  rewrite Ha2. cbn.
  assert (buf_addr al ≠ buf_addr (S al)) as Hne
    by (intros H; apply buf_addr_inj in H; lia).
  assert (buf_addr (S al) ≠ buf_addr al) as Hne'
    by (intros H; apply buf_addr_inj in H; lia).
  rewrite (lookup_insert_ne (M := gmap Z)) by exact Hne'.
  rewrite lookup_insert_eq. cbn.
  rewrite qcom_scm_call_spec. cbv zeta.
  match goal with
  | |- context [__get_convention E ?W] =>
      pose proof (get_convention_frame E W) as (Hh & _);
      destruct (__get_convention E W)
        as [c0 [vc1 cv1 dn1 ce1 ie1 be1 bv1 al1 hp1 tr1]]
  end.
  cbn in Hh. subst hp1.
  rewrite store_bytes_full by apply length_replicate.
  unfold dma_free_coherent, free_buf, memzero_explicit, update_buf, fw_touch,
    memcpy_out, peek.
  case_decide; cbn.
  all: match goal with
       | |- context [foldl poke ?h ?l] =>
           destruct (foldl_poke_lookup l h (buf_addr al)
                       {| buf_backend := Direct; buf_data := wkey |})
             as (dk & Hdk & Hlk); [apply lookup_insert_eq |];
           destruct (foldl_poke_lookup l h (buf_addr (S al))
                       {| buf_backend := Direct;
                          buf_data := replicate sw_secret_size 0 |})
             as (ds & Hds & Hls);
             [rewrite (lookup_insert_ne (M := gmap Z)) by exact Hne;
              apply lookup_insert_eq |]
       end.
  all: cbn in Hlk, Hls; rewrite length_replicate in Hls.
  all: rewrite ?Hds; cbn; rewrite ?Hds; cbn; rewrite !lookup_insert_eq; cbn.
  all: rewrite (lookup_delete_ne (M := gmap Z)) by exact Hne'.
  all: rewrite (lookup_insert_ne (M := gmap Z)) by exact Hne'.
  all: rewrite Hdk; cbn; rewrite lookup_insert_eq; cbn.
  all: rewrite !store_bytes_zero by assumption.
  all: rewrite <- !app_assoc; cbn.
  all: eexists (tr1 ++ [_; _]); rewrite <- app_assoc; reflexivity.
Qed.

(** * Further properties of the dispatch file *)

(** ** ResourceGate: clocks *)

Lemma qcom_scm_clk_enable_ok (E : env) (w : world) :
  (forall c, clk_prepare_enable_ret E c = 0) ->
  (qcom_scm_clk_enable E w).1 = 0 /\
  clocks_of (qcom_scm_clk_enable E w).2 = (S (core_en w), S (iface_en w), S (bus_en w)).
Proof.
  intros H. unfold qcom_scm_clk_enable, clk_prepare_enable. rewrite !H. run. auto.
Qed.

Lemma clk_enable_times_clocks (E : env) (k : nat) :
  (forall c, clk_prepare_enable_ret E c = 0) ->
  forall w : world,
    clocks_of (clk_enable_times E k w) =
    ((k + core_en w)%nat, (k + iface_en w)%nat, (k + bus_en w)%nat).
Proof.
  intros H. induction k as [| k IH]; intros w; [reflexivity |].
  unfold clk_enable_times in *. rewrite Nat.iter_succ.
  destruct (qcom_scm_clk_enable_ok E (Nat.iter k (fun w => (qcom_scm_clk_enable E w).2) w) H)
    as [_ Hc].
  rewrite Hc. specialize (IH w). injection IH as -> -> ->. reflexivity.
Qed.

Lemma qcom_scm_clk_disable_clocks (w : world) :
  clocks_of (qcom_scm_clk_disable w) =
  (Nat.pred (core_en w), Nat.pred (iface_en w), Nat.pred (bus_en w)).
Proof. now destruct w. Qed.

Lemma clk_disable_times_clocks (k : nat) :
  forall w : world,
    clocks_of (clk_disable_times k w) =
    ((core_en w - k)%nat, (iface_en w - k)%nat, (bus_en w - k)%nat).
Proof.
  induction k as [| k IH]; intros w.
  - cbn. unfold clocks_of. f_equal; [f_equal |]; lia.
  - unfold clk_disable_times in *. rewrite Nat.iter_succ.
    rewrite qcom_scm_clk_disable_clocks.
    specialize (IH w). unfold clocks_of in IH.
    injection IH as -> -> ->. f_equal; [f_equal |]; lia.
Qed.

(** X1. When the three clocks start, [k] calls of [qcom_scm_clk_enable]
    raise each enable count by [k], and [k] calls of
    [qcom_scm_clk_disable] after them bring each count back to what it was:
    the clocks are held exactly between the first enable and the last
    disable. *)
Theorem clk_enable_disable_balanced (E : env) (k : nat) (w : world) :
  (forall c, clk_prepare_enable_ret E c = 0) ->
  clocks_of (clk_enable_times E k w) =
    ((k + core_en w)%nat, (k + iface_en w)%nat, (k + bus_en w)%nat) /\
  clocks_of (clk_disable_times k (clk_enable_times E k w)) = clocks_of w /\
  (forall j, (j < k)%nat ->
     let w' := clk_disable_times j (clk_enable_times E k w) in
     (0 < core_en w' /\ 0 < iface_en w' /\ 0 < bus_en w')%nat).
Proof.
  intros H. pose proof (clk_enable_times_clocks E k H w) as He.
  split; [exact He |]. split.
  - rewrite clk_disable_times_clocks. unfold clocks_of in *.
    injection He as -> -> ->. f_equal; [f_equal |]; lia.
  - intros j Hj. cbv zeta.
    pose proof (clk_disable_times_clocks j (clk_enable_times E k w)) as Hd.
    unfold clocks_of in *. injection He as H1 H2 H3. injection Hd as -> -> ->.
    lia.
Qed.

Lemma clk_enable_disable_balanced_witness :
  clocks_of (clk_enable_times platform_ok 3 boot) = (3, 3, 3)%nat /\
  clocks_of (clk_disable_times 3 (clk_enable_times platform_ok 3 boot)) = (0, 0, 0)%nat.
Proof.
  destruct (clk_enable_disable_balanced platform_ok 3 boot) as (H1 & H2 & _);
    [reflexivity |].
  split; [exact H1 | exact H2].
Defined.

(** ** ResourceGate: bandwidth vote *)

Lemma icc_requests_snoc (tr : list event) (e : event) :
  icc_requests (tr ++ [e]) =
  icc_requests tr ++ match e with EvIccSetBw peak _ => [peak] | _ => [] end.
Proof. unfold icc_requests. rewrite omap_app. now destruct e. Qed.

Lemma bw_run_app (E : env) (ops1 ops2 : list bw_op) (w : world) :
  bw_run E (ops1 ++ ops2) w = bw_run E ops2 (bw_run E ops1 w).
Proof. unfold bw_run. apply foldl_app. Qed.

(** An enable that finds a vote already held only counts. *)
Lemma bw_enable_held (E : env) (w : world) :
  path E = PATH_OK -> scm_vote_count w ≠ 0 ->
  qcom_scm_bw_enable E w = (0, set_vote_count (to_int (scm_vote_count w + 1)) w).
Proof.
  intros HP Hc. unfold qcom_scm_bw_enable. rewrite HP. now rewrite decide_False.
Qed.

(** A disable that leaves a vote held only counts. *)
Lemma bw_disable_held (E : env) (w : world) :
  path E = PATH_OK -> scm_vote_count w ≠ 1 ->
  qcom_scm_bw_disable E w = set_vote_count (to_int (scm_vote_count w - 1)) w.
Proof.
  intros HP Hc. unfold qcom_scm_bw_disable. rewrite HP. cbn. now rewrite decide_False.
Qed.

Lemma bw_enables_held (E : env) (n : nat) :
  path E = PATH_OK ->
  forall w : world,
    0 < scm_vote_count w -> scm_vote_count w + Z.of_nat n < 2 ^ 31 ->
    let w' := bw_run E (replicate n BwEnable) w in
    scm_vote_count w' = scm_vote_count w + Z.of_nat n /\
    trace w' = trace w /\ bw_vote w' = bw_vote w.
Proof.
  intros HP. induction n as [| n IH]; intros w Hc Hb; cbv zeta.
  - cbn. split; [lia | auto].
  - cbn [replicate]. rewrite bw_run_cons. cbn [bw_step].
    rewrite bw_enable_held by (auto; lia). cbn [snd].
    set (w1 := set_vote_count (to_int (scm_vote_count w + 1)) w).
    assert (scm_vote_count w1 = scm_vote_count w + 1) as Hw1
      by (subst w1; cbn; apply to_int_id; lia).
    destruct (IH w1) as (H1 & H2 & H3); [lia | lia |].
    cbv zeta in H1. rewrite H1, H2, H3, Hw1. subst w1. cbn.
    split; [lia | auto].
Qed.

Lemma bw_disables_held (E : env) (n : nat) :
  path E = PATH_OK ->
  forall w : world,
    Z.of_nat n < scm_vote_count w < 2 ^ 31 ->
    let w' := bw_run E (replicate n BwDisable) w in
    scm_vote_count w' = scm_vote_count w - Z.of_nat n /\
    trace w' = trace w /\ bw_vote w' = bw_vote w.
Proof.
  intros HP. induction n as [| n IH]; intros w Hc; cbv zeta.
  - cbn. split; [lia | auto].
  - cbn [replicate]. rewrite bw_run_cons. cbn [bw_step].
    rewrite bw_disable_held by (auto; lia).
    set (w1 := set_vote_count (to_int (scm_vote_count w - 1)) w).
    assert (scm_vote_count w1 = scm_vote_count w - 1) as Hw1
      by (subst w1; cbn; apply to_int_id; lia).
    destruct (IH w1) as (H1 & H2 & H3); [lia |].
    cbv zeta in H1. rewrite H1, H2, H3, Hw1. subst w1. cbn.
    split; [lia | auto].
Qed.

(** X2. With a usable path and an interconnect that grants requests, [n]
    calls of [qcom_scm_bw_enable] followed by [n] calls of
    [qcom_scm_bw_disable], starting with no vote held, reach the
    interconnect exactly twice: the first enable requests [UINT_MAX] and the
    last disable requests 0.  The calls in between only count.  Afterwards
    no vote is held and the requested bandwidth is 0. *)
Theorem bw_votes_reach_interconnect_twice (E : env) (n : nat) (w : world) :
  path E = PATH_OK ->
  (forall peak, 0 <= icc_set_bw_ret E peak) ->
  scm_vote_count w = 0 ->
  Z.of_nat n < 2 ^ 31 - 1 ->
  let w' := bw_run E (replicate (S n) BwEnable ++ replicate (S n) BwDisable) w in
  scm_vote_count w' = 0 /\
  icc_requests (trace w') = icc_requests (trace w) ++ [UINT_MAX; 0] /\
  bw_vote w' = 0.
Proof.
  intros HP Hicc Hc Hn. cbv zeta.
  replace (replicate (S n) BwDisable) with (replicate n BwDisable ++ [BwDisable])
    by (rewrite <- replicate_S_end; reflexivity).
  cbn [replicate]. rewrite <- app_comm_cons, bw_run_cons, !bw_run_app.
  set (w1 := bw_step E BwEnable w).
  assert (scm_vote_count w1 = 1 /\
          trace w1 = trace w ++ [EvIccSetBw UINT_MAX (icc_set_bw_ret E UINT_MAX)] /\
          bw_vote w1 = UINT_MAX) as (Hc1 & Ht1 & Hv1).
  { subst w1. cbn. unfold qcom_scm_bw_enable, icc_set_bw. rewrite HP.
    pose proof (Hicc UINT_MAX). destruct w. cbn in Hc. subst. run. auto. }
  destruct (bw_enables_held E n HP w1) as (Hc2 & Ht2 & Hv2); [lia | lia |].
  cbv zeta in Hc2. set (w2 := bw_run E (replicate n BwEnable) w1) in *.
  destruct (bw_disables_held E n HP w2) as (Hc3 & Ht3 & Hv3); [lia |].
  cbv zeta in Hc3. set (w3 := bw_run E (replicate n BwDisable) w2) in *.
  assert (scm_vote_count w3 = 1) as Hc4 by lia.
  cbn. unfold qcom_scm_bw_disable, icc_set_bw. rewrite HP.
  pose proof (Hicc 0).
  rewrite decide_True by exact Hc4. cbn.
  rewrite decide_False by lia. cbn.
  rewrite Hc4, Ht3, Ht2, Ht1.
  rewrite !icc_requests_snoc, <- app_assoc. auto.
Qed.

Lemma bw_votes_reach_interconnect_twice_witness :
  let w' := bw_run platform_ok (replicate 3 BwEnable ++ replicate 3 BwDisable) boot in
  scm_vote_count w' = 0 /\
  icc_requests (trace w') = icc_requests (trace boot) ++ [UINT_MAX; 0] /\
  bw_vote w' = 0.
Proof.
  apply (bw_votes_reach_interconnect_twice platform_ok 2 boot);
    [reflexivity | intros; cbn; lia | reflexivity | cbn; lia].
Defined.

(** X3. Without a usable interconnect path the bandwidth gate does
    nothing at all: whatever sequence of calls is made, the state is
    unchanged; an enable reports success when no path is configured and
    [-EINVAL] when the path handle is an error pointer. *)
Theorem bw_gate_without_path (E : env) (ops : list bw_op) (w : world) :
  path E ≠ PATH_OK ->
  bw_run E ops w = w /\
  (qcom_scm_bw_enable E w).1 = (if decide (path E = PATH_NULL) then 0 else - EINVAL).
Proof.
  intros HP. split.
  - revert w. induction ops as [| o ops IH]; intros w; [reflexivity |].
    rewrite bw_run_cons, qcom_scm_bw_no_path by exact HP. apply IH.
  - unfold qcom_scm_bw_enable. destruct (path E); try congruence; reflexivity.
Qed.

Lemma bw_gate_without_path_witness :
  let E := {| CONFIG_ARM64 := true; is_sc7180 := false;
              clk_prepare_enable_ret := fun _ => 0; path := PATH_ERR;
              icc_set_bw_ret := fun _ => 0; qtee_shmbridge_is_enabled := false;
              alloc_ok := fun _ => true; pool_fill := fun _ => [];
              fw_ret := fun _ _ => 0;
              fw_res := fun _ _ => {| result := [0; 0; 0] |};
              fw_mem := fun _ => [] |} in
  bw_run E [BwEnable; BwDisable; BwDisable] boot = boot /\
  (qcom_scm_bw_enable E boot).1 = - EINVAL.
Proof.
  cbv zeta.
  match goal with
  | |- bw_run ?E ?ops ?w = _ /\ _ =>
      destruct (bw_gate_without_path E ops w) as [H1 H2]; [discriminate |]
  end.
  split; [exact H1 | exact H2].
Defined.

(** ** CallDispatcher *)

Lemma dispatched_snoc_call (tr : list event) (e : event) :
  is_dispatch e = true -> dispatched (tr ++ [e]) = dispatched tr ++ [e].
Proof.
  intros He. unfold dispatched. rewrite filter_app.
  rewrite filter_cons_True by (rewrite He; exact I).
  now rewrite filter_nil.
Qed.

Lemma call_event_is_dispatch (c : qcom_scm_convention) (atomic : bool)
    (d : qcom_scm_desc) : is_dispatch (call_event c atomic d) = true.
Proof. now destruct c. Qed.

(** Resolving the convention changes nothing that is held and sends no
    call. *)
Lemma get_convention_held (E : env) (w : world) :
  held (__get_convention E w).2 = held w /\
  dispatched (trace (__get_convention E w).2) = dispatched (trace w).
Proof.
  destruct (decide (convention w = SMC_CONVENTION_UNKNOWN)) as [H | H].
  - rewrite get_convention_fresh by exact H. unfold negotiated_world.
    cbn. rewrite dispatched_snoc_other by reflexivity.
    generalize (negotiation_probes_spec E). intros l. clear H. revert w.
    induction l as [| c l IH]; intros w; cbn; [auto |].
    destruct (IH (emit (EvProbe c) w)) as [H1 H2].
    unfold held in *. cbn in H1, H2 |- *.
    rewrite dispatched_snoc_other in H2 by reflexivity. auto.
  - rewrite get_convention_cached by exact H. auto.
Qed.

(** What [qcom_scm_call] returns and leaves behind. *)
Lemma qcom_scm_call_frame (E : env) (d : qcom_scm_desc) (w : world) :
  let c := convention_in_effect E w in
  let r := qcom_scm_call E d w in
  r.1 = (fw_ret E c d, fw_res E c d) /\
  held r.2 = held w /\
  dispatched (trace r.2) = dispatched (trace w) ++ [call_event c false d] /\
  convention r.2 = c /\
  c ≠ SMC_CONVENTION_UNKNOWN.
Proof.
  cbv zeta. rewrite qcom_scm_call_spec. cbv zeta.
  destruct (get_convention_held E w) as [Hh Hd].
  pose proof (get_convention_published E w) as Hp.
  split; [reflexivity |]. split; [| split; [| split]].
  - rewrite <- Hh. unfold held, fw_touch. cbn. now rewrite foldl_poke_dom.
  - unfold fw_touch. cbn. rewrite dispatched_snoc_call by apply call_event_is_dispatch.
    now rewrite Hd.
  - unfold fw_touch. cbn. exact Hp.
  - apply convention_in_effect_known.
Qed.

Global Arguments fw_calls : simpl never.

Lemma fw_calls_snoc (tr : list event) (e : event) :
  fw_calls (tr ++ [e]) = fw_calls tr ++ (if is_fw_call e then [e] else []).
Proof.
  unfold fw_calls. rewrite filter_app. f_equal.
  destruct (is_fw_call e) eqn:He.
  - now rewrite filter_cons_True by (rewrite He; exact I).
  - now rewrite filter_cons_False by (rewrite He; auto).
Qed.

Lemma fw_calls_probes (l : list qcom_scm_convention) :
  fw_calls (EvProbe <$> l) = EvProbe <$> l.
Proof.
  unfold fw_calls. induction l as [| c l IH]; [reflexivity |].
  cbn [fmap list_fmap]. rewrite filter_cons_True by exact I. now f_equal.
Qed.

Lemma fw_calls_get_convention (E : env) (w : world) :
  fw_calls (trace (__get_convention E w).2) = fw_calls (trace w) ++ negotiation E w.
Proof.
  unfold negotiation. case_decide as H.
  - rewrite get_convention_fresh by exact H. cbn [snd].
    rewrite negotiated_world_trace, app_assoc, fw_calls_snoc. cbn.
    rewrite app_nil_r. unfold fw_calls at 1. rewrite filter_app.
    fold (fw_calls (trace w)). fold (fw_calls (EvProbe <$> negotiation_probes_spec E)).
    now rewrite fw_calls_probes.
  - rewrite get_convention_cached by exact H. cbn. now rewrite app_nil_r.
Qed.

Lemma negotiation_length (E : env) (w : world) :
  (length (negotiation E w) <= 2)%nat /\
  (convention w = SMC_CONVENTION_UNKNOWN -> (1 <= length (negotiation E w))%nat) /\
  (convention w ≠ SMC_CONVENTION_UNKNOWN -> negotiation E w = []).
Proof.
  unfold negotiation, negotiation_probes_spec.
  case_decide as H.
  - destruct (CONFIG_ARM64 E), (probe_ok E SMC_CONVENTION_ARM_64), (is_sc7180 E);
      cbn; (split; [lia |]); (split; [intros _; lia | tauto]).
  - cbn. split; [lia |]. split; [tauto | reflexivity].
Qed.

Lemma call_event_is_fw_call (c : qcom_scm_convention) (atomic : bool)
    (d : qcom_scm_desc) : is_fw_call (call_event c atomic d) = true.
Proof. now destruct c. Qed.

(** Everything [qcom_scm_call] sends. *)
Lemma qcom_scm_call_traffic (E : env) (d : qcom_scm_desc) (w : world) :
  let c := convention_in_effect E w in
  let r := qcom_scm_call E d w in
  r.1 = (fw_ret E c d, fw_res E c d) /\
  fw_calls (trace r.2) =
  fw_calls (trace w) ++ negotiation E w ++ [call_event c false d] /\
  convention r.2 = c.
Proof.
  cbv zeta. rewrite qcom_scm_call_spec. cbv zeta.
  split; [reflexivity |]. split.
  - unfold fw_touch. cbn. rewrite fw_calls_snoc, call_event_is_fw_call.
    now rewrite fw_calls_get_convention, <- app_assoc.
  - unfold fw_touch. cbn. apply get_convention_published.
Qed.

(** X4. What the firmware sees of a [qcom_scm_call].  From a state where
    the convention is still unresolved it first receives the probes of the
    negotiation, one or two of them; then, in every case, the call itself,
    once, in the convention [__get_convention] settled on, and the function
    returns the status and result of that call.  The convention is
    published on the way, so a further [qcom_scm_call] sends its call and
    no probe. *)
Theorem qcom_scm_call_probes_then_calls (E : env) (d d' : qcom_scm_desc) (w : world) :
  let c := convention_in_effect E w in
  let r := qcom_scm_call E d w in
  let r' := qcom_scm_call E d' r.2 in
  r.1 = (fw_ret E c d, fw_res E c d) /\
  fw_calls (trace r.2) =
  fw_calls (trace w) ++ negotiation E w ++ [call_event c false d] /\
  (length (negotiation E w) <= 2)%nat /\
  (convention w = SMC_CONVENTION_UNKNOWN -> (1 <= length (negotiation E w))%nat) /\
  (convention w ≠ SMC_CONVENTION_UNKNOWN -> negotiation E w = []) /\
  r'.1 = (fw_ret E c d', fw_res E c d') /\
  fw_calls (trace r'.2) = fw_calls (trace r.2) ++ [call_event c false d'].
Proof.
  cbv zeta.
  destruct (qcom_scm_call_traffic E d w) as (R1 & R2 & R3).
  destruct (negotiation_length E w) as (N1 & N2 & N3).
  destruct (qcom_scm_call_traffic E d' (qcom_scm_call E d w).2) as (S1 & S2 & _).
  assert (convention_in_effect E (qcom_scm_call E d w).2 = convention_in_effect E w)
    as Hc.
  { unfold convention_in_effect at 1. rewrite R3.
    now rewrite decide_False by apply convention_in_effect_known. }
  rewrite Hc in S1, S2.
  assert (negotiation E (qcom_scm_call E d w).2 = []) as Hn.
  { apply negotiation_length. rewrite R3. apply convention_in_effect_known. }
  rewrite Hn in S2. cbn [app] in S2.
  repeat split; assumption.
Qed.

(** ** Peripheral authentication: the gated calls *)

(** A refused clock leaves the enable counts as they were and nothing else
    touched. *)
Lemma qcom_scm_clk_enable_fail (E : env) (w : world) :
  (qcom_scm_clk_enable E w).1 ≠ 0 ->
  held (qcom_scm_clk_enable E w).2 = held w /\
  dispatched (trace (qcom_scm_clk_enable E w).2) = dispatched (trace w).
Proof.
  unfold qcom_scm_clk_enable, clk_prepare_enable. destruct w. run; intros Hr;
    try congruence; rewrite ?dispatched_snoc_other by reflexivity; auto.
Qed.

Lemma qcom_scm_clk_enable_ok_world (E : env) (w : world) :
  (forall c, clk_prepare_enable_ret E c = 0) ->
  exists w1,
    qcom_scm_clk_enable E w = (0, w1) /\
    held w1 = (S (core_en w), S (iface_en w), S (bus_en w), scm_vote_count w,
               bw_vote w, allocs w, waitq_done w, dom (heap w)) /\
    dispatched (trace w1) = dispatched (trace w) /\
    convention w1 = convention w.
Proof.
  intros H. unfold qcom_scm_clk_enable, clk_prepare_enable. rewrite !H.
  destruct w. run. eexists. split; [reflexivity |]. cbn.
  rewrite !dispatched_snoc_other by reflexivity. auto.
Qed.

Global Arguments dispatched : simpl never.

Lemma footprint_call (E : env) (d : qcom_scm_desc) (w : world) :
  footprint (qcom_scm_call E d w).2 =
  (clocks_of w, scm_vote_count w, allocs w, dom (heap w),
   dispatched (trace w) ++ [call_event (convention_in_effect E w) false d]).
Proof.
  destruct (qcom_scm_call_frame E d w) as (_ & Hh & Hd & _).
  unfold footprint, clocks_of. rewrite Hd. unfold held in Hh.
  injection Hh as -> -> -> -> _ -> _ ->. reflexivity.
Qed.

Lemma footprint_clk_enable_ok (E : env) (w : world) :
  (forall c, clk_prepare_enable_ret E c = 0) ->
  (qcom_scm_clk_enable E w).1 = 0 /\
  footprint (qcom_scm_clk_enable E w).2 =
  ((S (core_en w), S (iface_en w), S (bus_en w)), scm_vote_count w, allocs w,
   dom (heap w), dispatched (trace w)) /\
  convention (qcom_scm_clk_enable E w).2 = convention w.
Proof.
  intros H. destruct (qcom_scm_clk_enable_ok_world E w H) as (w1 & -> & Hh & Hd & Hc).
  cbn. unfold footprint, clocks_of. rewrite Hd. unfold held in Hh.
  injection Hh as -> -> -> -> _ -> _ ->. auto.
Qed.

Lemma footprint_clk_disable (w : world) :
  footprint (qcom_scm_clk_disable w) =
  ((Nat.pred (core_en w), Nat.pred (iface_en w), Nat.pred (bus_en w)),
   scm_vote_count w, allocs w, dom (heap w), dispatched (trace w)).
Proof.
  destruct w. unfold footprint. cbn.
  now rewrite !dispatched_snoc_other by reflexivity.
Qed.

(** A granted bandwidth vote adds one to the count and nothing else to the
    footprint; with no path configured it adds nothing at all. *)
Lemma footprint_bw_enable_ok (E : env) (w : world) :
  path E = PATH_NULL \/
  (path E = PATH_OK /\ 0 <= scm_vote_count w < 2 ^ 31 - 1 /\
   icc_set_bw_ret E UINT_MAX = 0) ->
  (qcom_scm_bw_enable E w).1 = 0 /\
  footprint (qcom_scm_bw_enable E w).2 =
  (clocks_of w,
   if decide (path E = PATH_OK) then scm_vote_count w + 1 else scm_vote_count w,
   allocs w, dom (heap w), dispatched (trace w)) /\
  convention (qcom_scm_bw_enable E w).2 = convention w.
Proof.
  unfold qcom_scm_bw_enable, icc_set_bw.
  intros [HP | (HP & Hc & Hi)]; rewrite HP; [rewrite decide_False by discriminate; auto |].
  rewrite Hi.
  destruct w. cbn in Hc |- *. unfold footprint. run;
    rewrite ?dispatched_snoc_other by reflexivity;
    rewrite to_int_id by lia; auto.
Qed.

(** A disable takes the vote back out of the count. *)
Lemma footprint_bw_disable (E : env) (w : world) :
  (path E = PATH_OK -> - 2 ^ 31 < scm_vote_count w < 2 ^ 31) ->
  footprint (qcom_scm_bw_disable E w) =
  (clocks_of w,
   if decide (path E = PATH_OK) then scm_vote_count w - 1 else scm_vote_count w,
   allocs w, dom (heap w), dispatched (trace w)) /\
  convention (qcom_scm_bw_disable E w) = convention w.
Proof.
  intros Hc. unfold qcom_scm_bw_disable, icc_set_bw.
  destruct (path E); [auto | auto |]. specialize (Hc eq_refl).
  destruct w. cbn in Hc |- *. unfold footprint. run;
    rewrite ?dispatched_snoc_other by reflexivity;
    rewrite ?to_int_id by lia; auto.
Qed.

Lemma footprint_inv (w : world) (k : nat * nat * nat) (v : Z) (a : nat)
    (s : gset Z) (l : list event) :
  footprint w = (k, v, a, s, l) ->
  clocks_of w = k /\ scm_vote_count w = v /\ allocs w = a /\
  dom (heap w) = s /\ dispatched (trace w) = l.
Proof. unfold footprint. intros H. injection H as <- <- <- <- <-. auto 6. Qed.

(** What the shared body does once the clocks start and the vote is
    granted. *)
Lemma pas_gated_call_through (E : env) (desc : qcom_scm_desc) (w : world) :
  (forall c, clk_prepare_enable_ret E c = 0) ->
  path E = PATH_NULL \/
  (path E = PATH_OK /\ 0 <= scm_vote_count w < 2 ^ 31 - 1 /\
   icc_set_bw_ret E UINT_MAX = 0) ->
  let c := convention_in_effect E w in
  let r := pas_gated_call E desc w in
  r.1 = ret_or_result (fw_ret E c desc) (fw_res E c desc) /\
  footprint r.2 =
  (clocks_of w, scm_vote_count w, allocs w, dom (heap w),
   dispatched (trace w) ++ [call_event c false desc]).
Proof.
  intros Hclk Hbw. cbv zeta. unfold pas_gated_call.
  destruct (footprint_clk_enable_ok E w Hclk) as (Hr1 & Hf1 & Hc1).
  destruct (qcom_scm_clk_enable E w) as [ret1 w1]. cbn in Hr1, Hf1, Hc1. subst ret1.
  rewrite decide_False by tauto.
  apply footprint_inv in Hf1 as (Hk1 & Hv1 & Ha1 & Hd1 & Hl1).
  destruct (footprint_bw_enable_ok E w1) as (Hr2 & Hf2 & Hc2);
    [rewrite Hv1; exact Hbw |].
  destruct (qcom_scm_bw_enable E w1) as [ret2 w2]. cbn in Hr2, Hf2, Hc2. subst ret2.
  rewrite decide_False by tauto.
  apply footprint_inv in Hf2 as (Hk2 & Hv2 & Ha2 & Hd2 & Hl2).
  destruct (qcom_scm_call_frame E desc w2) as (Hr3 & _ & _ & Hc3 & _).
  pose proof (footprint_call E desc w2) as Hf3.
  rewrite (convention_in_effect_ext E w2 w) in Hr3, Hf3, Hc3 by congruence.
  destruct (qcom_scm_call E desc w2) as [[ret3 res3] w3].
  cbn in Hr3, Hf3, Hc3. injection Hr3 as -> ->.
  apply footprint_inv in Hf3 as (Hk3 & Hv3 & Ha3 & Hd3 & Hl3).
  destruct (footprint_bw_disable E w3) as (Hf4 & Hc4).
  { intros HP. rewrite Hv3, Hv2, Hv1.
    destruct Hbw as [HN | (_ & Hc & _)]; [congruence |].
    rewrite decide_True by exact HP. lia. }
  apply footprint_inv in Hf4 as (Hk4 & Hv4 & Ha4 & Hd4 & Hl4).
  cbn. split; [reflexivity |].
  rewrite footprint_clk_disable.
  unfold clocks_of in *. 
  injection Hk4 as -> -> ->. injection Hk3 as -> -> ->.
  injection Hk2 as -> -> ->. injection Hk1 as -> -> ->. cbn.
  rewrite Hv4, Hv3, Hv2, Hv1, Ha4, Ha3, Ha2, Ha1, Hd4, Hd3, Hd2, Hd1, Hl4, Hl3, Hl2, Hl1.
  f_equal. f_equal. f_equal. f_equal.
  destruct (decide (path E = PATH_OK)); lia.
Qed.

(** X5. [qcom_scm_pas_mem_setup], [qcom_scm_pas_auth_and_reset] and
    [qcom_scm_pas_shutdown]: when the clocks start and the bandwidth vote is
    granted (or no interconnect path is configured), each sends exactly one
    call, with its own arguments; returns the call's error if there is one
    and the first result word otherwise; and gives back everything it took:
    the clock enable counts, the vote count and the live buffers are as
    before. *)
Theorem pas_gated_calls_balanced (E : env) (c_setup c_auth c_shutdown : scm_cmd)
    (peripheral addr size : Z) (w : world) :
  (forall c, clk_prepare_enable_ret E c = 0) ->
  path E = PATH_NULL \/
  (path E = PATH_OK /\ 0 <= scm_vote_count w < 2 ^ 31 - 1 /\
   icc_set_bw_ret E UINT_MAX = 0) ->
  let c := convention_in_effect E w in
  let after (r : Z * world) (d : qcom_scm_desc) :=
    r.1 = ret_or_result (fw_ret E c d) (fw_res E c d) /\
    footprint r.2 =
    (clocks_of w, scm_vote_count w, allocs w, dom (heap w),
     dispatched (trace w) ++ [call_event c false d]) in
  after (qcom_scm_pas_mem_setup E c_setup peripheral addr size w)
    {| cmd := c_setup; arginfo := [QCOM_SCM_VAL; QCOM_SCM_VAL; QCOM_SCM_VAL];
       args := [peripheral; addr; size] |} /\
  after (qcom_scm_pas_auth_and_reset E c_auth peripheral w)
    {| cmd := c_auth; arginfo := [QCOM_SCM_VAL]; args := [peripheral] |} /\
  after (qcom_scm_pas_shutdown E c_shutdown peripheral w)
    {| cmd := c_shutdown; arginfo := [QCOM_SCM_VAL]; args := [peripheral] |}.
Proof.
  intros Hclk Hbw. cbv zeta.
  unfold qcom_scm_pas_mem_setup, qcom_scm_pas_auth_and_reset, qcom_scm_pas_shutdown.
  repeat split; apply pas_gated_call_through; assumption.
Qed.

Lemma pas_gated_calls_balanced_witness :
  let r := qcom_scm_pas_auth_and_reset platform_ok PIL_PAS_INIT_IMAGE 1 boot in
  r.1 = 0 /\ clocks_of r.2 = (0, 0, 0)%nat /\ scm_vote_count r.2 = 0.
Proof.
  cbv zeta.
  destruct (pas_gated_calls_balanced platform_ok PIL_PAS_INIT_IMAGE
              PIL_PAS_INIT_IMAGE PIL_PAS_INIT_IMAGE 1 0 0 boot)
    as (_ & (Hr & Hf) & _).
  - intros c. reflexivity.
  - right. cbn. repeat split; lia.
  - split; [exact Hr |]. apply footprint_inv in Hf as (Hk & Hv & _). auto.
Defined.

(** X6. The same three functions when the bandwidth vote is refused after
    the clocks started: the refusal is returned, no call reaches the
    firmware, and the function returns without [qcom_scm_clk_disable]: each
    of the three enable counts is one higher than before. *)
Theorem pas_gated_call_refused_vote (E : env) (desc : qcom_scm_desc) (w : world) :
  (forall c, clk_prepare_enable_ret E c = 0) ->
  path E = PATH_ERR \/
  (path E = PATH_OK /\ scm_vote_count w = 0 /\ icc_set_bw_ret E UINT_MAX < 0) ->
  let r := pas_gated_call E desc w in
  r.1 = (if decide (path E = PATH_ERR) then - EINVAL else icc_set_bw_ret E UINT_MAX) /\
  r.1 ≠ 0 /\
  clocks_of r.2 = (S (core_en w), S (iface_en w), S (bus_en w)) /\
  scm_vote_count r.2 = scm_vote_count w /\
  dispatched (trace r.2) = dispatched (trace w).
Proof.
  intros Hclk Hbw. cbv zeta. unfold pas_gated_call.
  destruct (footprint_clk_enable_ok E w Hclk) as (Hr1 & Hf1 & Hc1).
  destruct (qcom_scm_clk_enable E w) as [ret1 w1]. cbn in Hr1, Hf1, Hc1. subst ret1.
  rewrite decide_False by tauto.
  apply footprint_inv in Hf1 as (Hk1 & Hv1 & Ha1 & Hd1 & Hl1).
  unfold qcom_scm_bw_enable, icc_set_bw.
  destruct Hbw as [HP | (HP & Hv & Hi)]; rewrite HP.
  - rewrite decide_True by (unfold EINVAL; lia). cbn.
    rewrite decide_True by reflexivity. unfold EINVAL. repeat split; auto; lia.
  - rewrite decide_True by congruence. cbn.
    rewrite !(decide_True (P := icc_set_bw_ret E UINT_MAX < 0)) by exact Hi.
    rewrite decide_True by lia. rewrite decide_False by discriminate.
    destruct w1. cbn in *.
    rewrite !dispatched_snoc_other by reflexivity. repeat split; auto; lia.
Qed.

Lemma pas_gated_call_refused_vote_witness :
  let E := with_icc_ret (fun _ => - ENOMEM) platform_ok in
  let r := qcom_scm_pas_shutdown E PIL_PAS_INIT_IMAGE 1 boot in
  r.1 = - ENOMEM /\ clocks_of r.2 = (1, 1, 1)%nat.
Proof.
  cbv zeta.
  destruct (pas_gated_call_refused_vote (with_icc_ret (fun _ => - ENOMEM) platform_ok)
              {| cmd := PIL_PAS_INIT_IMAGE; arginfo := [QCOM_SCM_VAL]; args := [1] |}
              boot) as (Hr & _ & Hk & _).
  - intros c. reflexivity.
  - right. cbn. unfold ENOMEM. repeat split; lia.
  - split; [exact Hr | exact Hk].
Defined.

(** X7. The same three functions when a clock refuses to start: the clock
    error is returned, no call reaches the firmware and nothing is left
    held, neither a clock, a vote nor a buffer. *)
Theorem pas_gated_call_refused_clock (E : env) (desc : qcom_scm_desc) (w : world) :
  (qcom_scm_clk_enable E w).1 ≠ 0 ->
  let r := pas_gated_call E desc w in
  r.1 = (qcom_scm_clk_enable E w).1 /\
  held r.2 = held w /\
  dispatched (trace r.2) = dispatched (trace w).
Proof.
  intros H. cbv zeta. unfold pas_gated_call.
  destruct (qcom_scm_clk_enable_fail E w H) as (Hh & Hd).
  destruct (qcom_scm_clk_enable E w) as [ret1 w1]. cbn in H, Hh, Hd.
  rewrite decide_True by exact H. auto.
Qed.

Lemma pas_gated_call_refused_clock_witness :
  let E := with_clk_ret bus_clk_fails platform_ok in
  let r := qcom_scm_pas_mem_setup E PIL_PAS_INIT_IMAGE 1 4096 4096 boot in
  r.1 = - EINVAL /\ held r.2 = held boot.
Proof.
  cbv zeta.
  destruct (pas_gated_call_refused_clock (with_clk_ret bus_clk_fails platform_ok)
              {| cmd := PIL_PAS_INIT_IMAGE;
                 arginfo := [QCOM_SCM_VAL; QCOM_SCM_VAL; QCOM_SCM_VAL];
                 args := [1; 4096; 4096] |} boot) as (Hr & Hh & _).
  - vm_compute. discriminate.
  - split; [exact Hr | exact Hh].
Defined.

(** ** SecureBufferBroker: what stays live *)

Global Arguments update_buf : simpl never.
Global Arguments fw_touch : simpl never.

Lemma update_buf_dom (a : Z) (f : bytes -> bytes) (w : world) :
  dom (heap (update_buf a f w)) = dom (heap w).
Proof.
  unfold update_buf. destruct (heap w !! a) eqn:Hl; [| reflexivity]. cbn.
  apply dom_insert_lookup_L. now rewrite Hl.
Qed.

Lemma update_buf_allocs (a : Z) (f : bytes -> bytes) (w : world) :
  allocs (update_buf a f w) = allocs w.
Proof. unfold update_buf. now destruct (heap w !! a). Qed.

Lemma get_convention_dom (E : env) (w : world) :
  dom (heap (__get_convention E w).2) = dom (heap w).
Proof. now destruct (get_convention_frame E w) as (-> & _). Qed.

Lemma qcom_scm_call_dom (E : env) (d : qcom_scm_desc) (w : world) :
  dom (heap (qcom_scm_call E d w).2) = dom (heap w).
Proof.
  rewrite qcom_scm_call_spec. cbv zeta. cbn.
  rewrite fw_touch_dom. cbn. apply get_convention_dom.
Qed.

Ltac dom_calc :=
  unfold qtee_shmbridge_free_shm, dma_free_coherent, memcpy_in, memset0,
    memzero_explicit, memcpy_out, qtee_shmbridge_flush_shm_buf,
    qtee_shmbridge_inv_shm_buf;
  repeat first
    [ rewrite free_buf_dom | rewrite update_buf_dom | rewrite fw_touch_dom
    | rewrite get_convention_dom | rewrite dom_insert_L
    | progress cbn [heap emit set_heap bump_allocs fst snd] ].

Lemma heap_fresh_next (w : world) :
  heap_fresh w ->
  (buf_addr (allocs w) ∉ dom (heap w)) /\ (buf_addr (S (allocs w)) ∉ dom (heap w)).
Proof. intros H. split; apply not_elem_of_dom, H; lia. Qed.

Ltac call_dom E d w :=
  let H := fresh "Hcall" in
  pose proof (qcom_scm_call_dom E d w) as H;
  destruct (qcom_scm_call E d w) as [[? ?] ?]; cbn [snd] in H.

Lemma ice_set_key_call_dom (E : env) (b : bool) (d : qcom_scm_desc) (a : Z)
    (n : nat) (w : world) :
  dom (heap (ice_set_key_call E b d a n w).2) = dom (heap w) ∖ {[a]}.
Proof.
  unfold ice_set_key_call. call_dom E d w.
  destruct b; repeat case_decide; cbn [snd]; dom_calc; now rewrite Hcall.
Qed.

Lemma derive_sw_secret_call_dom (E : env) (b : bool) (k : Z) (ks : nat) (s : Z)
    (ss : nat) (w : world) :
  dom (heap (derive_sw_secret_call E b k ks s ss w).2) = dom (heap w) ∖ {[s]} ∖ {[k]}.
Proof.
  unfold derive_sw_secret_call.
  match goal with |- context [qcom_scm_call E ?d w] => call_dom E d w end.
  destruct b; repeat case_decide; cbn [snd]; dom_calc; now rewrite Hcall.
Qed.

Lemma prepare_ice_key_call_dom (E : env) (b : bool) (k : Z) (ks : nat) (s : Z)
    (ss : nat) (w : world) :
  dom (heap (prepare_ice_key_call E b k ks s ss w).2) = dom (heap w) ∖ {[s]} ∖ {[k]}.
Proof.
  unfold prepare_ice_key_call.
  match goal with |- context [qcom_scm_call E ?d w] => call_dom E d w end.
  destruct b; repeat case_decide; cbn [snd]; dom_calc; now rewrite Hcall.
Qed.

Lemma import_ice_key_call_dom (E : env) (b : bool) (k : Z) (ks : nat) (s : Z)
    (ss : nat) (w : world) :
  dom (heap (import_ice_key_call E b k ks s ss w).2) =
  if b then dom (heap w) ∖ {[k]} ∖ {[s]} else dom (heap w) ∖ {[s]} ∖ {[k]}.
Proof.
  unfold import_ice_key_call.
  match goal with |- context [qcom_scm_call E ?d w] => call_dom E d w end.
  destruct b; repeat case_decide; cbn [snd]; dom_calc; now rewrite Hcall.
Qed.

Ltac alloc_cases E w :=
  unfold qtee_shmbridge_allocate_shm, dma_alloc_coherent, alloc_from;
  destruct (qtee_shmbridge_is_enabled E), (alloc_ok E (allocs w));
  cbn -[ice_set_key_call derive_sw_secret_call prepare_ice_key_call
        import_ice_key_call memcpy_in memset0 memzero_explicit];
  unfold memcpy_in, memset0, memzero_explicit;
  cbn -[ice_set_key_call derive_sw_secret_call prepare_ice_key_call
        import_ice_key_call];
  rewrite ?update_buf_allocs; cbn [allocs emit set_heap bump_allocs];
  try destruct (alloc_ok E (S (allocs w)));
  cbn -[ice_set_key_call derive_sw_secret_call prepare_ice_key_call
        import_ice_key_call].

Lemma ice_set_key_dom (E : env) (index : Z) (key : bytes)
    (cipher data_unit_size : Z) (w : world) :
  heap_fresh w ->
  dom (heap (qcom_scm_ice_set_key E index key cipher data_unit_size w).2) =
  dom (heap w).
Proof.
  intros Hf. apply heap_fresh_next in Hf as [Hf1 Hf2].
  unfold qcom_scm_ice_set_key. alloc_cases E w;
    rewrite ?ice_set_key_call_dom; dom_calc; try reflexivity; set_solver.
Qed.

Lemma derive_sw_secret_dom (E : env) (key : bytes) (size : nat) (w : world) :
  heap_fresh w ->
  dom (heap (qcom_scm_derive_sw_secret E key size w).2) = dom (heap w).
Proof.
  intros Hf. apply heap_fresh_next in Hf as [Hf1 Hf2].
  unfold qcom_scm_derive_sw_secret. alloc_cases E w;
    rewrite ?derive_sw_secret_call_dom; dom_calc; try reflexivity; set_solver.
Qed.

Lemma generate_ice_key_dom (E : env) (size : nat) (w : world) :
  heap_fresh w ->
  dom (heap (qcom_scm_generate_ice_key E size w).2) = dom (heap w).
Proof.
  intros Hf. apply heap_fresh_next in Hf as [Hf1 Hf2].
  unfold qcom_scm_generate_ice_key, qtee_shmbridge_allocate_shm,
    dma_alloc_coherent, alloc_from.
  destruct (qtee_shmbridge_is_enabled E), (alloc_ok E (allocs w));
    cbn -[memset0]; try reflexivity;
    match goal with |- context [qcom_scm_call E ?d ?w] => call_dom E d w end;
    repeat case_decide; cbn [snd]; dom_calc; rewrite Hcall; dom_calc; set_solver.
Qed.

Lemma prepare_ice_key_dom (E : env) (key : bytes) (size : nat) (w : world) :
  heap_fresh w ->
  dom (heap (qcom_scm_prepare_ice_key E key size w).2) = dom (heap w).
Proof.
  intros Hf. apply heap_fresh_next in Hf as [Hf1 Hf2].
  unfold qcom_scm_prepare_ice_key. alloc_cases E w;
    rewrite ?prepare_ice_key_call_dom; dom_calc; try reflexivity; set_solver.
Qed.

Lemma import_ice_key_dom (E : env) (key : bytes) (size : nat) (w : world) :
  heap_fresh w ->
  dom (heap (qcom_scm_import_ice_key E key size w).2) = dom (heap w).
Proof.
  intros Hf. apply heap_fresh_next in Hf as [Hf1 Hf2].
  unfold qcom_scm_import_ice_key. alloc_cases E w;
    rewrite ?import_ice_key_call_dom; dom_calc; try reflexivity; set_solver.
Qed.

(** X8. The five inline-encryption key operations give back every buffer
    they allocate, on either backend and on every path: whether the
    allocations succeed or fail, whatever the firmware returns and writes,
    the set of live buffers afterwards is the set before. *)
Theorem ice_ops_free_their_buffers (E : env) (index cipher data_unit_size : Z)
    (key : bytes) (size : nat) (w : world) :
  heap_fresh w ->
  dom (heap (qcom_scm_ice_set_key E index key cipher data_unit_size w).2) = dom (heap w) /\
  dom (heap (qcom_scm_derive_sw_secret E key size w).2) = dom (heap w) /\
  dom (heap (qcom_scm_generate_ice_key E size w).2) = dom (heap w) /\
  dom (heap (qcom_scm_prepare_ice_key E key size w).2) = dom (heap w) /\
  dom (heap (qcom_scm_import_ice_key E key size w).2) = dom (heap w).
Proof.
  intros Hf. repeat split;
    [ apply ice_set_key_dom | apply derive_sw_secret_dom
    | apply generate_ice_key_dom | apply prepare_ice_key_dom
    | apply import_ice_key_dom ]; exact Hf.
Qed.

Lemma heap_fresh_boot : heap_fresh boot.
Proof. intros n _. apply lookup_empty. Qed.

Lemma ice_ops_free_their_buffers_witness :
  heap (qcom_scm_import_ice_key (platform_keys true) sample_key 4 boot).2 = ∅.
Proof.
  apply (dom_empty_inv_L (D := gset Z)).
  destruct (ice_ops_free_their_buffers (platform_keys true) 0 0 0 sample_key 4 boot
              heap_fresh_boot) as (_ & _ & _ & _ & H).
  rewrite H. apply dom_empty_L.
Defined.

(** ** Inline-encryption key operations: what the caller receives *)

Ltac key_op_result E w :=
  unfold qtee_shmbridge_allocate_shm, dma_alloc_coherent, alloc_from;
  destruct (qtee_shmbridge_is_enabled E), (alloc_ok E (allocs w));
  cbn -[memcpy_in memset0 memzero_explicit memcpy_out];
  unfold memcpy_in, memset0;
  cbn -[memzero_explicit memcpy_out];
  rewrite ?update_buf_allocs; cbn [allocs emit set_heap bump_allocs];
  try destruct (alloc_ok E (S (allocs w)));
  cbn -[memzero_explicit memcpy_out];
  try match goal with
      | |- context [qcom_scm_call E ?d ?w1] =>
          destruct (qcom_scm_call E d w1) as [[ret res] w2]
      end;
  cbn -[memzero_explicit memcpy_out];
  repeat case_decide; cbn; unfold ENOMEM; split; intros; try congruence; try lia.

(** X9. The four key operations with an output buffer,
    [qcom_scm_derive_sw_secret], [qcom_scm_generate_ice_key],
    [qcom_scm_prepare_ice_key] and [qcom_scm_import_ice_key], copy to the
    caller's buffer exactly when they return 0: on every failure, of an
    allocation or of the call, on either backend, the caller's buffer is
    left alone. *)
Theorem key_ops_copy_out_iff_success (E : env) (key : bytes) (size : nat) (w : world) :
  let copied (r : Z * option bytes * world) := r.1.2 ≠ None <-> r.1.1 = 0 in
  copied (qcom_scm_derive_sw_secret E key size w) /\
  copied (qcom_scm_generate_ice_key E size w) /\
  copied (qcom_scm_prepare_ice_key E key size w) /\
  copied (qcom_scm_import_ice_key E key size w).
Proof.
  cbv zeta. split; [| split; [| split]].
  - unfold qcom_scm_derive_sw_secret, derive_sw_secret_call. key_op_result E w.
  - unfold qcom_scm_generate_ice_key. key_op_result E w.
  - unfold qcom_scm_prepare_ice_key, prepare_ice_key_call. key_op_result E w.
  - unfold qcom_scm_import_ice_key, import_ice_key_call. key_op_result E w.
Qed.

Lemma peek_emit (a : Z) (n : nat) (e : event) (w : world) :
  peek a n (emit e w) = peek a n w.
Proof. reflexivity. Qed.

(** The caller reads back what the firmware wrote when the firmware's one
    write fills the buffer. *)
Lemma peek_fw_touch (E : env) (d : qcom_scm_desc) (s : Z) (out : bytes)
    (b : buffer) (w : world) :
  fw_mem E d = [(s, out)] ->
  heap w !! s = Some b ->
  length (buf_data b) = length out ->
  peek s (length out) (fw_touch E d w) = out.
Proof.
  intros Hm Hb Hl. unfold peek, fw_touch. cbn. rewrite Hm. cbn.
  unfold poke. cbn. rewrite Hb, lookup_insert_eq. cbn.
  rewrite store_bytes_full by lia. apply firstn_all.
Qed.

Lemma update_buf_lookup_ne (a s : Z) (f : bytes -> bytes) (w : world) :
  a ≠ s -> heap (update_buf a f w) !! s = heap w !! s.
Proof.
  intros Hne. unfold update_buf. destruct (heap w !! a); [| reflexivity].
  cbn. now rewrite lookup_insert_ne.
Qed.

Lemma update_buf_lookup (a : Z) (f : bytes -> bytes) (b : buffer) (w : world) :
  heap w !! a = Some b ->
  heap (update_buf a f w) !! a =
  Some {| buf_backend := buf_backend b; buf_data := f (buf_data b) |}.
Proof. intros Hb. unfold update_buf. rewrite Hb. cbn. apply lookup_insert_eq. Qed.

Lemma store_bytes_length (data old : bytes) :
  length (store_bytes data old) = length old.
Proof.
  unfold store_bytes. rewrite length_app, length_take, length_drop. lia.
Qed.

Lemma buf_size_update_buf (a s : Z) (data : bytes) (w : world) :
  buf_size (heap (update_buf a (store_bytes data) w)) s = buf_size (heap w) s.
Proof.
  unfold buf_size, update_buf. destruct (heap w !! a) as [b |] eqn:Hb; [| reflexivity].
  cbn. destruct (decide (a = s)) as [<- | Hne].
  - rewrite lookup_insert_eq, Hb. cbn. now rewrite store_bytes_length.
  - now rewrite lookup_insert_ne.
Qed.

Lemma buf_size_insert_eq (h : gmap Z buffer) (a : Z) (b : buffer) :
  buf_size (<[a := b]> h) a = Some (length (buf_data b)).
Proof. unfold buf_size. now rewrite lookup_insert_eq. Qed.

Lemma buf_size_insert_ne (h : gmap Z buffer) (a s : Z) (b : buffer) :
  a ≠ s -> buf_size (<[a := b]> h) s = buf_size h s.
Proof. intros H. unfold buf_size. now rewrite lookup_insert_ne. Qed.

Lemma call_peek (E : env) (d : qcom_scm_desc) (s : Z) (out : bytes) (w : world) :
  (forall c, fw_ret E c d = 0) ->
  fw_mem E d = [(s, out)] ->
  buf_size (heap w) s = Some (length out) ->
  exists res w2,
    qcom_scm_call E d w = (0, res, w2) /\ peek s (length out) w2 = out.
Proof.
  intros Hr Hm Hb. rewrite qcom_scm_call_spec. cbv zeta. rewrite Hr.
  eexists _, _. split; [reflexivity |].
  unfold buf_size in Hb. destruct (heap w !! s) as [b |] eqn:Hl; [| discriminate].
  injection Hb as Hb.
  apply (peek_fw_touch E d s out b); [exact Hm | | exact Hb].
  cbn. now destruct (get_convention_frame E w) as (-> & _).
Qed.

Ltac size_calc :=
  repeat first
    [ rewrite buf_size_update_buf
    | rewrite buf_size_insert_eq
    | rewrite buf_size_insert_ne by assumption
    | progress cbn [heap emit set_heap bump_allocs qtee_shmbridge_flush_shm_buf
                    buf_data] ];
  rewrite ?length_replicate, ?length_resize; reflexivity.

Ltac call_peek_at E s out :=
  match goal with
  | |- context [qcom_scm_call E ?d ?w] =>
      let H1 := fresh in let H2 := fresh in
      destruct (call_peek E d s out w) as (? & ? & H1 & H2);
      [ | | | rewrite H1; cbn; case_decide; [congruence |]; cbn;
              unfold qtee_shmbridge_inv_shm_buf; rewrite ?peek_emit, ?H2 ]
  end.

Ltac key_op_run E w Ha1 Ha2 :=
  unfold qtee_shmbridge_allocate_shm, dma_alloc_coherent, alloc_from;
  destruct (qtee_shmbridge_is_enabled E); rewrite Ha1;
  cbn -[memcpy_in memset0 memzero_explicit memcpy_out];
  unfold memcpy_in, memset0;
  cbn -[memzero_explicit memcpy_out];
  rewrite ?update_buf_allocs; cbn [allocs emit set_heap bump_allocs];
  rewrite ?Ha2; cbn -[memzero_explicit memcpy_out].

(** X10. With both allocations granted and firmware that accepts the call
    and writes its output into the output buffer it was handed, the four key
    operations with an output return 0 and hand the caller exactly the
    firmware's bytes, on either backend and from every state. *)
Theorem key_ops_return_firmware_output (E : env) (key out : bytes) (w : world) :
  alloc_ok E (allocs w) = true ->
  alloc_ok E (S (allocs w)) = true ->
  (forall c d, fw_ret E c d = 0) ->
  (forall d, fw_mem E d = fw_key_out out d) ->
  (qcom_scm_derive_sw_secret E key (length out) w).1 = (0, Some out) /\
  (qcom_scm_generate_ice_key E (length out) w).1 = (0, Some out) /\
  (qcom_scm_prepare_ice_key E key (length out) w).1 = (0, Some out) /\
  (qcom_scm_import_ice_key E key (length out) w).1 = (0, Some out).
Proof.
  intros Ha1 Ha2 Hret Hmem.
  assert (buf_addr (allocs w) ≠ buf_addr (S (allocs w))) as Hne
    by (intros H; apply buf_addr_inj in H; lia).
  assert (buf_addr (S (allocs w)) ≠ buf_addr (allocs w)) as Hne' by congruence.
  split; [| split; [| split]].
  - unfold qcom_scm_derive_sw_secret, derive_sw_secret_call.
    key_op_run E w Ha1 Ha2.
    + call_peek_at E (buf_addr (allocs w)) out;
        [ intros; apply Hret | rewrite Hmem; reflexivity | size_calc | reflexivity ].
    + call_peek_at E (buf_addr (S (allocs w))) out;
        [ intros; apply Hret | rewrite Hmem; reflexivity | size_calc | reflexivity ].
  - unfold qcom_scm_generate_ice_key.
    key_op_run E w Ha1 Ha2;
      (call_peek_at E (buf_addr (allocs w)) out;
       [ intros; apply Hret | rewrite Hmem; reflexivity | size_calc | reflexivity ]).
  - unfold qcom_scm_prepare_ice_key, prepare_ice_key_call.
    key_op_run E w Ha1 Ha2.
    + call_peek_at E (buf_addr (allocs w)) out;
        [ intros; apply Hret | rewrite Hmem; reflexivity | size_calc | reflexivity ].
    + call_peek_at E (buf_addr (S (allocs w))) out;
        [ intros; apply Hret | rewrite Hmem; reflexivity | size_calc | reflexivity ].
  - unfold qcom_scm_import_ice_key, import_ice_key_call.
    key_op_run E w Ha1 Ha2;
      (call_peek_at E (buf_addr (S (allocs w))) out;
       [ intros; apply Hret | rewrite Hmem; reflexivity | size_calc | reflexivity ]).
Qed.

Lemma key_ops_return_firmware_output_witness :
  (qcom_scm_prepare_ice_key (platform_keys true) sample_key 4 boot).1 =
  (0, Some sample_out).
Proof.
  apply (key_ops_return_firmware_output (platform_keys true) sample_key sample_out
           boot); reflexivity.
Defined.

(** ** Inline-encryption key operations: wiping on the direct backend *)

Lemma buf_size_poke (h : gmap Z buffer) (wr : Z * bytes) (s : Z) :
  buf_size (poke h wr) s = buf_size h s.
Proof.
  unfold buf_size, poke. destruct (h !! wr.1) as [b |] eqn:Hb; [| reflexivity].
  destruct (decide (wr.1 = s)) as [Heq | Hne].
  - rewrite Heq in *. rewrite lookup_insert_eq, Hb. cbn.
    now rewrite store_bytes_length.
  - now rewrite lookup_insert_ne.
Qed.

Lemma buf_size_foldl_poke (l : list (Z * bytes)) (s : Z) :
  forall h : gmap Z buffer, buf_size (foldl poke h l) s = buf_size h s.
Proof.
  induction l as [| wr l IH]; intros h; cbn; [reflexivity |].
  rewrite IH. apply buf_size_poke.
Qed.

Lemma buf_size_call (E : env) (d : qcom_scm_desc) (w : world) (s : Z) :
  buf_size (heap (qcom_scm_call E d w).2) s = buf_size (heap w) s.
Proof.
  rewrite qcom_scm_call_spec. cbv zeta. unfold fw_touch. cbn.
  rewrite buf_size_foldl_poke.
  now destruct (get_convention_frame E w) as (-> & _).
Qed.

Lemma buf_size_free_ne (b : backend) (a s : Z) (w : world) :
  a ≠ s -> buf_size (heap (free_buf b a w)) s = buf_size (heap w) s.
Proof.
  intros Hne. unfold buf_size, free_buf. destruct (heap w !! a); cbn; [| reflexivity].
  now rewrite lookup_delete_ne.
Qed.

Lemma update_buf_trace (a : Z) (f : bytes -> bytes) (w : world) :
  trace (update_buf a f w) = trace w.
Proof. unfold update_buf. now destruct (heap w !! a). Qed.

(** [memzero_explicit] followed by [dma_free_coherent] hands the buffer back
    holding zeros. *)
Lemma wipe_free (a : Z) (n : nat) (w : world) :
  buf_size (heap w) a = Some n ->
  trace (dma_free_coherent a (memzero_explicit a n w)) =
  trace w ++ [EvMemzeroExplicit a; EvFree Direct a (replicate n 0)].
Proof.
  unfold buf_size. intros Hs.
  destruct (heap w !! a) as [b |] eqn:Hb; [| discriminate]. injection Hs as Hs.
  unfold dma_free_coherent, free_buf, memzero_explicit. cbn.
  rewrite (update_buf_lookup a _ b) by exact Hb. cbn.
  rewrite store_bytes_zero by exact Hs.
  rewrite update_buf_trace, <- app_assoc. reflexivity.
Qed.

Lemma wipe_free_size (a s : Z) (n : nat) (w : world) :
  a ≠ s ->
  buf_size (heap (dma_free_coherent a (memzero_explicit a n w))) s =
  buf_size (heap w) s.
Proof.
  intros Hne. unfold dma_free_coherent, memzero_explicit.
  rewrite buf_size_free_ne by exact Hne. cbn. apply buf_size_update_buf.
Qed.

Ltac sizes_after_call E k nk s ns Hk Hsz :=
  match goal with
  | |- context [qcom_scm_call E ?d ?w1] =>
      assert (buf_size (heap (qcom_scm_call E d w1).2) k = Some nk) as Hk
        by (rewrite buf_size_call; unfold memcpy_in; size_calc);
      assert (buf_size (heap (qcom_scm_call E d w1).2) s = Some ns) as Hsz
        by (rewrite buf_size_call; unfold memcpy_in; size_calc);
      destruct (qcom_scm_call E d w1) as [[ret res] w2]
  end;
  cbn [snd] in Hk, Hsz.

Ltac two_wipes Hk Hsz :=
  case_decide; cbn -[memzero_explicit dma_free_coherent];
  (rewrite wipe_free by (rewrite wipe_free_size by assumption; exact Hk));
  (rewrite wipe_free by exact Hsz);
  eexists; rewrite <- app_assoc; reflexivity.

(** X11. On the direct backend, once both buffers are allocated, the
    two-buffer key operations end by wiping the output buffer and then the
    input buffer with [memzero_explicit] and freeing each holding zeros, and
    [qcom_scm_generate_ice_key] does the same with its one buffer: whether
    the call succeeds or fails, and whatever the firmware wrote. *)
Theorem direct_key_ops_wipe_before_free (E : env) (key : bytes) (size : nat)
    (w : world) :
  qtee_shmbridge_is_enabled E = false ->
  alloc_ok E (allocs w) = true ->
  alloc_ok E (S (allocs w)) = true ->
  let k := buf_addr (allocs w) in
  let s := buf_addr (S (allocs w)) in
  let wiped (r : Z * option bytes * world) :=
    exists tr, trace r.2 = tr ++ [EvMemzeroExplicit s; EvFree Direct s (replicate size 0);
                                  EvMemzeroExplicit k;
                                  EvFree Direct k (replicate (length key) 0)] in
  wiped (qcom_scm_derive_sw_secret E key size w) /\
  wiped (qcom_scm_prepare_ice_key E key size w) /\
  wiped (qcom_scm_import_ice_key E key size w) /\
  exists tr, trace (qcom_scm_generate_ice_key E size w).2 =
             tr ++ [EvMemzeroExplicit k; EvFree Direct k (replicate size 0)].
Proof.
  intros Hs Ha1 Ha2. cbv zeta.
  assert (buf_addr (allocs w) ≠ buf_addr (S (allocs w))) as Hne
    by (intros H; apply buf_addr_inj in H; lia).
  assert (buf_addr (S (allocs w)) ≠ buf_addr (allocs w)) as Hne' by congruence.
  split; [| split; [| split]].
  - now apply derive_sw_secret_direct_wipes.
  - unfold qcom_scm_prepare_ice_key, prepare_ice_key_call,
      dma_alloc_coherent, alloc_from.
    rewrite Hs, Ha1. cbn -[memcpy_in memzero_explicit memcpy_out]. rewrite Ha2.
    cbn -[memcpy_in memzero_explicit memcpy_out dma_free_coherent].
    sizes_after_call E (buf_addr (allocs w)) (length key)
      (buf_addr (S (allocs w))) size Hk Hsz.
    two_wipes Hk Hsz.
  - unfold qcom_scm_import_ice_key, import_ice_key_call,
      dma_alloc_coherent, alloc_from.
    rewrite Hs, Ha1. cbn -[memcpy_in memzero_explicit memcpy_out]. rewrite Ha2.
    cbn -[memcpy_in memzero_explicit memcpy_out dma_free_coherent].
    sizes_after_call E (buf_addr (allocs w)) (length key)
      (buf_addr (S (allocs w))) size Hk Hsz.
    two_wipes Hk Hsz.
  - unfold qcom_scm_generate_ice_key, dma_alloc_coherent, alloc_from.
    rewrite Hs, Ha1. cbn -[memzero_explicit memcpy_out dma_free_coherent].
    sizes_after_call E (buf_addr (allocs w)) size (buf_addr (allocs w)) size Hk Hsz.
    case_decide; cbn -[memzero_explicit dma_free_coherent];
      (rewrite wipe_free by exact Hk); eexists; reflexivity.
Qed.

Lemma direct_key_ops_wipe_before_free_witness :
  exists tr,
    trace (qcom_scm_import_ice_key (platform_keys false) sample_key 4 boot).2 =
    tr ++ [EvMemzeroExplicit 8192; EvFree Direct 8192 [0; 0; 0; 0];
           EvMemzeroExplicit 4096; EvFree Direct 4096 [0; 0; 0; 0]].
Proof.
  destruct (direct_key_ops_wipe_before_free (platform_keys false) sample_key 4 boot)
    as (_ & _ & H & _); [reflexivity | reflexivity | reflexivity |].
  exact H.
Defined.

(** ** Inline-encryption key operations: the bridged backend *)

Lemma wipes_snoc (tr : list event) (e : event) :
  wipes (tr ++ [e]) = wipes tr ++ wipes [e].
Proof. apply omap_app. Qed.

Lemma wipes_get_convention (E : env) (w : world) :
  wipes (trace (__get_convention E w).2) = wipes (trace w).
Proof.
  destruct (decide (convention w = SMC_CONVENTION_UNKNOWN)) as [H | H].
  - rewrite get_convention_fresh by exact H. cbn [snd].
    rewrite negotiated_world_trace. unfold wipes. rewrite !omap_app. cbn.
    rewrite app_nil_r.
    assert (forall l, omap (fun e => match e with
                                     | EvMemzeroExplicit a => Some a
                                     | _ => None
                                     end) (EvProbe <$> l) = []) as Hl
      by (intros l; induction l; auto).
    rewrite Hl. apply app_nil_r.
  - now rewrite get_convention_cached by exact H.
Qed.

Lemma wipes_call (E : env) (d : qcom_scm_desc) (w : world) :
  wipes (trace (qcom_scm_call E d w).2) = wipes (trace w).
Proof.
  rewrite qcom_scm_call_spec. cbv zeta. unfold fw_touch. cbn.
  rewrite wipes_snoc, wipes_get_convention.
  destruct (convention_in_effect E w); cbn; apply app_nil_r.
Qed.

Lemma wipes_free (b : backend) (a : Z) (w : world) :
  wipes (trace (free_buf b a w)) = wipes (trace w).
Proof.
  unfold free_buf. destruct (heap w !! a); cbn; rewrite wipes_snoc; apply app_nil_r.
Qed.

Ltac wipes_calc :=
  unfold qtee_shmbridge_free_shm, memcpy_in, memset0, memcpy_out,
    qtee_shmbridge_flush_shm_buf, qtee_shmbridge_inv_shm_buf;
  repeat first
    [ rewrite wipes_free | rewrite update_buf_trace
    | rewrite wipes_snoc; cbn [wipes omap]; rewrite app_nil_r
    | progress cbn [trace emit set_heap bump_allocs fst snd] ].

Ltac call_wipes E :=
  match goal with
  | |- context [qcom_scm_call E ?d ?w1] =>
      let H := fresh "Hcall" in
      pose proof (wipes_call E d w1) as H;
      destruct (qcom_scm_call E d w1) as [[? ?] ?]; cbn [snd] in H
  end.

Ltac bridged_run E w Hs :=
  unfold qtee_shmbridge_allocate_shm, alloc_from; rewrite Hs;
  destruct (alloc_ok E (allocs w));
  cbn -[memcpy_in memset0 memcpy_out qtee_shmbridge_free_shm];
  unfold memset0, memcpy_in; cbn -[memcpy_out qtee_shmbridge_free_shm];
  rewrite ?update_buf_allocs; cbn [allocs emit set_heap bump_allocs];
  try destruct (alloc_ok E (S (allocs w)));
  cbn -[memcpy_out qtee_shmbridge_free_shm];
  try call_wipes E; repeat case_decide;
  cbn -[memcpy_out qtee_shmbridge_free_shm];
  wipes_calc;
  try match goal with H : wipes (trace _) = _ |- _ => rewrite H end;
  wipes_calc; try reflexivity.

(** X12. On the bridged backend none of the five key operations calls
    [memzero_explicit], on any path: the shared-memory buffers that carried
    the key material go back to the pool without an explicit wipe. *)
Theorem bridged_key_ops_never_wipe (E : env) (index cipher data_unit_size : Z)
    (key : bytes) (size : nat) (w : world) :
  qtee_shmbridge_is_enabled E = true ->
  wipes (trace (qcom_scm_ice_set_key E index key cipher data_unit_size w).2) =
    wipes (trace w) /\
  wipes (trace (qcom_scm_derive_sw_secret E key size w).2) = wipes (trace w) /\
  wipes (trace (qcom_scm_generate_ice_key E size w).2) = wipes (trace w) /\
  wipes (trace (qcom_scm_prepare_ice_key E key size w).2) = wipes (trace w) /\
  wipes (trace (qcom_scm_import_ice_key E key size w).2) = wipes (trace w).
Proof.
  intros Hs. split; [| split; [| split; [| split]]].
  - unfold qcom_scm_ice_set_key, ice_set_key_call. bridged_run E w Hs.
  - unfold qcom_scm_derive_sw_secret, derive_sw_secret_call. bridged_run E w Hs.
  - unfold qcom_scm_generate_ice_key. bridged_run E w Hs.
  - unfold qcom_scm_prepare_ice_key, prepare_ice_key_call. bridged_run E w Hs.
  - unfold qcom_scm_import_ice_key, import_ice_key_call. bridged_run E w Hs.
Qed.

Lemma bridged_key_ops_never_wipe_witness :
  wipes (trace (qcom_scm_ice_set_key (platform_keys true) 0 sample_key 0 0 boot).2) = [].
Proof.
  destruct (bridged_key_ops_never_wipe (platform_keys true) 0 0 0 sample_key 4 boot)
    as (H & _); [reflexivity |].
  exact H.
Defined.

(** ** Peripheral authentication: the metadata context *)

(** A bandwidth vote that is granted: no path is configured, or the path is
    usable and either a vote is already held or the interconnect accepts the
    request. *)
Lemma footprint_bw_enable_granted (E : env) (w : world) :
  path E = PATH_NULL \/
  (path E = PATH_OK /\ 0 <= scm_vote_count w < 2 ^ 31 - 1 /\
   (scm_vote_count w = 0 -> icc_set_bw_ret E UINT_MAX = 0)) ->
  (qcom_scm_bw_enable E w).1 = 0 /\
  footprint (qcom_scm_bw_enable E w).2 =
  (clocks_of w,
   if decide (path E = PATH_OK) then scm_vote_count w + 1 else scm_vote_count w,
   allocs w, dom (heap w), dispatched (trace w)) /\
  convention (qcom_scm_bw_enable E w).2 = convention w.
Proof.
  intros [HP | (HP & Hc & Hi)].
  - apply footprint_bw_enable_ok. now left.
  - destruct (decide (scm_vote_count w = 0)) as [Hz | Hnz].
    + apply footprint_bw_enable_ok. right. auto.
    + unfold qcom_scm_bw_enable. rewrite HP.
      rewrite (decide_False (P := scm_vote_count w = 0)) by exact Hnz.
      rewrite decide_True by reflexivity.
      destruct w. cbn in Hc |- *. unfold footprint. cbn.
      rewrite to_int_id by lia. auto.
Qed.

(** Image set-up when nothing refuses: the buffer is allocated, the clocks
    start, the vote is granted.  The clocks and the vote are given back; the
    buffer is handed to the context when the call does not fail and a
    context was passed, and is freed otherwise. *)
Lemma pas_init_image_through (E : env) (peripheral : Z) (metadata : bytes)
    (ctx : option qcom_scm_pas_metadata) (w : world) :
  alloc_ok E (allocs w) = true ->
  (forall c, clk_prepare_enable_ret E c = 0) ->
  path E = PATH_NULL \/
  (path E = PATH_OK /\ 0 <= scm_vote_count w < 2 ^ 31 - 1 /\
   (scm_vote_count w = 0 -> icc_set_bw_ret E UINT_MAX = 0)) ->
  heap w !! buf_addr (allocs w) = None ->
  let r := qcom_scm_pas_init_image E peripheral metadata ctx w in
  let a := buf_addr (allocs w) in
  let d := {| cmd := PIL_PAS_INIT_IMAGE; arginfo := [QCOM_SCM_VAL; QCOM_SCM_RW];
              args := [peripheral; a] |} in
  let ret := fw_ret E (convention_in_effect E w) d in
  clocks_of r.2 = clocks_of w /\
  scm_vote_count r.2 = scm_vote_count w /\
  (ret < 0 \/ ctx = None ->
   r.1.2 = ctx /\ dom (heap r.2) = dom (heap w)) /\
  (~ (ret < 0 \/ ctx = None) ->
   r.1.2 = Some {| ctx_ptr := Some a; ctx_phys := a;
                   ctx_size := length metadata |} /\
   dom (heap r.2) = {[a]} ∪ dom (heap w)).
Proof.
  intros Ha Hclk Hbw Hfresh. cbv zeta.
  unfold qcom_scm_pas_init_image, dma_alloc_coherent, alloc_from. rewrite Ha.
  set (w0 := memcpy_in _ _ _).
  assert (footprint w0 = (clocks_of w, scm_vote_count w, S (allocs w),
                          {[buf_addr (allocs w)]} ∪ dom (heap w),
                          dispatched (trace w)) /\
          convention w0 = convention w) as [Hf0 Hc0].
  { subst w0. unfold memcpy_in, update_buf. cbn. rewrite lookup_insert_eq.
    unfold footprint, clocks_of. cbn.
    rewrite !dispatched_snoc_other by reflexivity.
    rewrite !dom_insert_L. split; [| reflexivity].
    replace ({[buf_addr (allocs w)]} ∪ ({[buf_addr (allocs w)]} ∪ dom (heap w)))
      with ({[buf_addr (allocs w)]} ∪ dom (heap w)) by set_solver.
    reflexivity. }
  clearbody w0.
  apply footprint_inv in Hf0 as (Hk0 & Hv0 & Ha0 & Hd0 & Hl0).
  destruct (footprint_clk_enable_ok E w0 Hclk) as (Hr1 & Hf1 & Hc1).
  destruct (qcom_scm_clk_enable E w0) as [ret1 w1]. cbn in Hr1, Hf1, Hc1. subst ret1.
  rewrite decide_False by tauto.
  apply footprint_inv in Hf1 as (Hk1 & Hv1 & Ha1 & Hd1 & Hl1).
  destruct (footprint_bw_enable_granted E w1) as (Hr2 & Hf2 & Hc2);
    [rewrite Hv1, Hv0; exact Hbw |].
  destruct (qcom_scm_bw_enable E w1) as [ret2 w2]. cbn in Hr2, Hf2, Hc2. subst ret2.
  rewrite decide_False by tauto.
  apply footprint_inv in Hf2 as (Hk2 & Hv2 & Ha2 & Hd2 & Hl2).
  match goal with
  | |- context [qcom_scm_call E ?d w2] =>
      destruct (qcom_scm_call_frame E d w2) as (Hr3 & _ & _ & Hc3 & _);
      pose proof (footprint_call E d w2) as Hf3;
      rewrite (convention_in_effect_ext E w2 w) in Hr3 by congruence;
      destruct (qcom_scm_call E d w2) as [[ret3 res3] w3]
  end.
  cbn in Hr3, Hf3, Hc3. injection Hr3 as -> ->.
  apply footprint_inv in Hf3 as (Hk3 & Hv3 & Ha3 & Hd3 & _).
  destruct (footprint_bw_disable E w3) as (Hf4 & Hc4).
  { intros HP. rewrite Hv3, Hv2, Hv1, Hv0.
    destruct Hbw as [HN | (_ & Hc & _)]; [congruence |].
    rewrite decide_True by exact HP. lia. }
  apply footprint_inv in Hf4 as (Hk4 & Hv4 & Ha4 & Hd4 & _).
  pose proof (footprint_clk_disable (qcom_scm_bw_disable E w3)) as Hf5.
  apply footprint_inv in Hf5 as (Hk5 & Hv5 & Ha5 & Hd5 & _).
  set (w5 := qcom_scm_clk_disable (qcom_scm_bw_disable E w3)) in *.
  assert (clocks_of w5 = clocks_of w) as HK.
  { rewrite Hk5. unfold clocks_of in *.
    injection Hk4 as -> -> ->. injection Hk3 as -> -> ->.
    injection Hk2 as -> -> ->. injection Hk1 as -> -> ->.
    injection Hk0 as -> -> ->. reflexivity. }
  assert (scm_vote_count w5 = scm_vote_count w) as HV.
  { rewrite Hv5, Hv4, Hv3, Hv2, Hv1, Hv0.
    destruct (decide (path E = PATH_OK)); lia. }
  assert (dom (heap w5) = {[buf_addr (allocs w)]} ∪ dom (heap w)) as HD
    by (rewrite Hd5, Hd4, Hd3, Hd2, Hd1, Hd0; reflexivity).
  apply not_elem_of_dom in Hfresh.
  unfold pas_init_image_out, dma_free_coherent.
  match goal with
  | |- context [decide (?x < 0 \/ ctx = None)] =>
      destruct (decide (x < 0 \/ ctx = None)) as [Hdec | Hdec]
  end; cbn [fst snd];
    rewrite ?free_buf_clocks, ?free_buf_vote_count, ?free_buf_dom;
    (split; [exact HK |]); (split; [exact HV |]);
    (split; intros Hcase); try tauto;
    (split; [reflexivity |]); rewrite ?HD; set_solver.
Qed.

(** X13. Image set-up with a context, followed by
    [qcom_scm_pas_metadata_release].  When the metadata buffer is allocated
    at an address not in use, the clocks start, the bandwidth vote is
    granted (no interconnect path is configured; or the path is usable, the
    vote count is at least 0 and below the largest [int], and a vote is
    already held or the interconnect accepts the request) and the firmware
    does not fail the call, the context comes back owning the metadata
    buffer; the release frees that buffer and clears the context, after
    which the live buffers, the clock enable counts and the vote count are
    as before the set-up; a second release does nothing. *)
Theorem pas_metadata_round_trip (E : env) (peripheral : Z) (metadata : bytes)
    (ctx0 : qcom_scm_pas_metadata) (w : world) :
  alloc_ok E (allocs w) = true ->
  (forall c, clk_prepare_enable_ret E c = 0) ->
  path E = PATH_NULL \/
  (path E = PATH_OK /\ 0 <= scm_vote_count w < 2 ^ 31 - 1 /\
   (scm_vote_count w = 0 -> icc_set_bw_ret E UINT_MAX = 0)) ->
  heap w !! buf_addr (allocs w) = None ->
  0 <= fw_ret E (convention_in_effect E w)
         {| cmd := PIL_PAS_INIT_IMAGE; arginfo := [QCOM_SCM_VAL; QCOM_SCM_RW];
            args := [peripheral; buf_addr (allocs w)] |} ->
  let r := qcom_scm_pas_init_image E peripheral metadata (Some ctx0) w in
  let a := buf_addr (allocs w) in
  let cleared := {| ctx_ptr := None; ctx_phys := 0; ctx_size := 0 |} in
  exists ctx,
    r.1.2 = Some ctx /\
    ctx = {| ctx_ptr := Some a; ctx_phys := a; ctx_size := length metadata |} /\
    a ∈ dom (heap r.2) /\
    let r' := qcom_scm_pas_metadata_release ctx r.2 in
    r'.1 = cleared /\
    dom (heap r'.2) = dom (heap w) /\
    clocks_of r'.2 = clocks_of w /\
    scm_vote_count r'.2 = scm_vote_count w /\
    qcom_scm_pas_metadata_release r'.1 r'.2 = r'.
Proof.
  intros Ha Hclk Hbw Hfresh Hret. cbv zeta.
  destruct (pas_init_image_through E peripheral metadata (Some ctx0) w
              Ha Hclk Hbw Hfresh) as (Hk & Hvc & _ & Hkeep).
  destruct Hkeep as [Hctx Hdom].
  { intros [Hneg | Hnone]; [lia | discriminate]. }
  apply not_elem_of_dom in Hfresh.
  eexists. split; [exact Hctx |]. split; [reflexivity |].
  split; [rewrite Hdom; set_solver |].
  unfold qcom_scm_pas_metadata_release. cbn.
  unfold dma_free_coherent.
  rewrite free_buf_dom, free_buf_clocks, free_buf_vote_count, Hdom, Hk, Hvc.
  repeat split. set_solver.
Qed.

Lemma pas_metadata_round_trip_witness :
  let ctx0 := {| ctx_ptr := None; ctx_phys := 0; ctx_size := 0 |} in
  exists ctx,
    (qcom_scm_pas_init_image platform_ok 1 [127; 69; 76; 70] (Some ctx0) boot).1.2
    = Some ctx /\
    ctx_ptr ctx = Some 4096.
Proof.
  cbv zeta.
  destruct (pas_metadata_round_trip platform_ok 1 [127; 69; 76; 70]
              {| ctx_ptr := None; ctx_phys := 0; ctx_size := 0 |} boot)
    as (ctx & H1 & H2 & _);
    [ reflexivity | reflexivity
    | right; cbn; repeat split; lia
    | reflexivity | cbn; lia | ].
  exists ctx. split; [exact H1 |]. rewrite H2. reflexivity.
Defined.

(** ** Memory-ownership reassignment: the transport buffer *)

Lemma write_at_dom (a off : Z) (data : bytes) (w : world) :
  dom (heap (write_at a off data w)) = dom (heap w).
Proof. apply update_buf_dom. Qed.

Lemma write_at_frame (a off : Z) (data : bytes) (w : world) :
  trace (write_at a off data w) = trace w /\
  convention (write_at a off data w) = convention w.
Proof. split; [apply update_buf_trace | apply convention_update_buf]. Qed.

Lemma dispatched_free (b : backend) (a : Z) (w : world) :
  dispatched (trace (free_buf b a w)) = dispatched (trace w).
Proof.
  unfold free_buf. destruct (heap w !! a); cbn;
    now rewrite dispatched_snoc_other by reflexivity.
Qed.

(** X14. [qcom_scm_assign_mem] frees its transport buffer on every path,
    whatever the firmware answers.  When the buffer is allocated it sends
    the firmware exactly one call, whose arguments are the three regions of
    that buffer; when the buffer cannot be allocated it returns [-ENOMEM]
    with the caller's owner mask as it was and without a call to the
    firmware. *)
Theorem assign_mem_buffer_lifetime (E : env) (mem_addr mem_sz srcvm : Z)
    (newvm : list qcom_scm_vmperm) (w : world) :
  heap_fresh w ->
  let r := qcom_scm_assign_mem E mem_addr mem_sz srcvm newvm w in
  dom (heap r.2) = dom (heap w) /\
  (alloc_ok E (allocs w) = true ->
   dispatched (trace r.2) =
   dispatched (trace w) ++
   [call_event (convention_in_effect E w) false
      (assign_mem_desc (buf_addr (allocs w)) srcvm newvm)]) /\
  (alloc_ok E (allocs w) = false ->
   r.1 = (- ENOMEM, srcvm) /\ dispatched (trace r.2) = dispatched (trace w)).
Proof.
  intros Hf. apply heap_fresh_next in Hf as [Hf1 _]. cbv zeta.
  unfold qcom_scm_assign_mem, __qcom_scm_assign_mem, dma_alloc_coherent, alloc_from.
  destruct (alloc_ok E (allocs w)); cbn -[write_at].
  - match goal with
    | |- context [qcom_scm_call E ?d ?w1] =>
        pose proof (qcom_scm_call_dom E d w1) as Hcall;
        destruct (qcom_scm_call_frame E d w1) as (_ & _ & Hd & _);
        rewrite (convention_in_effect_ext E w1 w) in Hd
          by (rewrite !(proj2 (write_at_frame _ _ _ _)); reflexivity);
        destruct (qcom_scm_call E d w1) as [[ret res] w2]
    end.
    cbn [snd] in Hcall, Hd. rewrite !write_at_dom in Hcall. cbn in Hcall.
    rewrite !(proj1 (write_at_frame _ _ _ _)) in Hd. cbn in Hd.
    rewrite dispatched_snoc_other in Hd by reflexivity.
    rewrite dom_insert_L in Hcall.
    split; [| split; [intros _ | discriminate]].
    + case_decide; cbn; unfold dma_free_coherent; rewrite free_buf_dom, Hcall;
        set_solver.
    + case_decide; cbn; unfold dma_free_coherent;
        rewrite ?dispatched_snoc_other by reflexivity;
        rewrite dispatched_free; exact Hd.
  - split; [reflexivity |]. split; [discriminate |]. intros _.
    split; [reflexivity |].
    now rewrite dispatched_snoc_other by reflexivity.
Qed.

Lemma assign_mem_buffer_lifetime_witness :
  let E := with_alloc_ok (fun _ => false) platform_ok in
  (qcom_scm_assign_mem E 4096 4096 1 [{| vmid := 3; perm := 7 |}] boot).1 =
  (- ENOMEM, 1).
Proof.
  cbv zeta.
  destruct (assign_mem_buffer_lifetime (with_alloc_ok (fun _ => false) platform_ok)
              4096 4096 1 [{| vmid := 3; perm := 7 |}] boot) as (_ & _ & H).
  - intros n _. apply lookup_empty.
  - apply H. reflexivity.
Defined.

(** ** Memory-ownership reassignment: the source list and the layout *)

Lemma land_BIT_testbit (x b : Z) :
  0 <= b < 64 -> (Z.land x (BIT b) ≠ 0 <-> Z.testbit x b = true).
Proof.
  intros Hb. rewrite BIT_eq by exact Hb. split.
  - intros H. destruct (Z.testbit x b) eqn:Hx; [reflexivity |].
    exfalso. apply H. apply Z.bits_inj'. intros n Hn.
    rewrite Z.land_spec, Z.bits_0, Z.pow2_bits_eqb by lia.
    destruct (Z.eqb_spec b n) as [<- | _]; [now rewrite Hx | apply andb_false_r].
  - intros Hx H.
    assert (Z.testbit (Z.land x (2 ^ b)) b = true) as Ht
      by (rewrite Z.land_spec, Hx, Z.pow2_bits_true by lia; reflexivity).
    rewrite H, Z.bits_0 in Ht. discriminate.
Qed.

Lemma filter_length_ext {A : Type} (P Q : A -> Prop) `{!forall x, Decision (P x)}
    `{!forall x, Decision (Q x)} (l : list A) :
  Forall (fun x => P x <-> Q x) l -> filter P l = filter Q l.
Proof.
  induction 1 as [| x l Hx _ IH]; [reflexivity |].
  rewrite !filter_cons, IH.
  destruct (decide (P x)), (decide (Q x)); tauto.
Qed.

Lemma src_vmids_testbit (x : Z) :
  src_vmids x = filter (fun b => Z.testbit x b) (seqZ 0 64).
Proof.
  unfold src_vmids. apply filter_length_ext. apply Forall_forall.
  intros b Hb. apply elem_of_seqZ in Hb.
  rewrite land_BIT_testbit by lia. symmetry. apply Is_true_true.
Qed.

Lemma length_cpu_to_le32_list (l : list Z) :
  length (concat (cpu_to_le32 <$> l)) = (4 * length l)%nat.
Proof.
  induction l as [| z l IH]; [reflexivity |].
  cbn [fmap list_fmap concat]. rewrite length_app, IH.
  unfold cpu_to_le32, le_bytes. rewrite length_fmap, length_seq. cbn. lia.
Qed.

(** The size of the source list announced to the firmware is the number of
    bytes the fill loop writes. *)
Lemma assign_mem_src_sz_matches_list (srcvm : Z) :
  hweight64 srcvm * 4 =
  Z.of_nat (length (concat (cpu_to_le32 <$> src_vmids srcvm))).
Proof.
  rewrite length_cpu_to_le32_list, src_vmids_testbit. unfold hweight64. lia.
Qed.

Lemma mask_fold_testbit (ids : list Z) :
  Forall (fun i => 0 <= i < 64) ids ->
  forall m n, 0 <= n ->
    Z.testbit (foldl (fun m i => Z.lor m (BIT i)) m ids) n =
    Z.testbit m n || bool_decide (n ∈ ids).
Proof.
  induction 1 as [| i ids Hi _ IH]; intros m n Hn; cbn.
  - rewrite bool_decide_eq_false_2 by apply not_elem_of_nil. now rewrite orb_false_r.
  - rewrite IH by exact Hn. rewrite Z.lor_spec, BIT_eq, Z.pow2_bits_eqb by lia.
    rewrite <- orb_assoc. f_equal.
    destruct (Z.eqb_spec i n) as [-> | Hne].
    + cbn. symmetry. apply bool_decide_eq_true_2, list_elem_of_here.
    + cbn. apply bool_decide_ext. rewrite elem_of_cons. intuition congruence.
Qed.

(** OR-ing [BIT(b)] over the owner ids of a mask gives the mask back. *)
Lemma mask_of_src_vmids (srcvm : Z) :
  0 <= srcvm < 2 ^ 64 ->
  mask_of (src_vmids srcvm) = srcvm.
Proof.
  intros Hx. unfold mask_of. apply Z.bits_inj'. intros n Hn.
  rewrite mask_fold_testbit; [| | exact Hn].
  - rewrite Z.bits_0. cbn. rewrite src_vmids_testbit.
    destruct (decide (n < 64)) as [Hlt | Hge].
    + destruct (Z.testbit srcvm n) eqn:Hb.
      * apply bool_decide_eq_true_2. apply list_elem_of_filter.
        split; [now rewrite Hb | apply elem_of_seqZ; lia].
      * apply bool_decide_eq_false_2. rewrite list_elem_of_filter, Hb.
        cbn. tauto.
    + rewrite bool_decide_eq_false_2.
      * symmetry. destruct (decide (srcvm = 0)) as [-> | Hnz];
          [apply Z.bits_0 |].
        assert (2 ^ 64 <= 2 ^ n) by (apply Z.pow_le_mono_r; lia).
        apply Z.bits_above_log2; [lia |].
        apply Z.log2_lt_pow2; lia.
      * rewrite list_elem_of_filter, elem_of_seqZ. lia.
  - unfold src_vmids. apply Forall_forall. intros b Hb.
    apply list_elem_of_filter in Hb as [_ Hb]. apply elem_of_seqZ in Hb. lia.
Qed.


Lemma ALIGN_64 (x : Z) : 0 <= x -> ALIGN x SZ_64 = (x + 63) / 64 * 64.
Proof.
  intros Hx. unfold ALIGN, SZ_64.
  change (64 - 1) with (Z.ones 6).
  rewrite <- (Z.shiftr_div_pow2 _ 6), <- (Z.shiftl_mul_pow2 _ 6) by lia.
  apply Z.bits_inj'. intros n Hn.
  rewrite Z.land_spec, Z.lnot_spec by exact Hn.
  destruct (decide (n < 6)) as [Hlt | Hge].
  - rewrite Z.ones_spec_low, Z.shiftl_spec_low by lia. apply andb_false_r.
  - rewrite Z.ones_spec_high, Z.shiftl_spec, Z.shiftr_spec by lia.
    cbn. rewrite andb_true_r. f_equal. lia.
Qed.

Lemma length_destvm_list (newvm : list qcom_scm_vmperm) :
  length (concat (destvm_bytes <$> newvm)) = (24 * length newvm)%nat.
Proof.
  induction newvm as [| vm newvm IH]; [reflexivity |].
  cbn [fmap list_fmap concat]. rewrite length_app, IH.
  change (length (destvm_bytes vm)) with 24%nat. cbn [length]. lia.
Qed.

(** The arithmetic of the layout: aligned offsets in order, no region
    running into the next, all within [ptr_sz]; the data written into each
    region has the size announced for it. *)
Lemma assign_mem_layout_arith (ptr srcvm mem_addr mem_sz : Z)
    (newvm : list qcom_scm_vmperm) :
  let src_sz := hweight64 srcvm * 4 in
  let mem_to_map_sz := 16 in
  let dest_sz := Z.of_nat (length newvm) * 24 in
  let map_off := ALIGN src_sz SZ_64 in
  let dest_off := ALIGN mem_to_map_sz SZ_64 + ALIGN src_sz SZ_64 in
  let ptr_sz := ALIGN src_sz SZ_64 + ALIGN mem_to_map_sz SZ_64 +
                ALIGN dest_sz SZ_64 in
  args (assign_mem_desc ptr srcvm newvm) =
    [ptr + map_off; mem_to_map_sz; ptr; src_sz; ptr + dest_off; dest_sz; 0] /\
  (Z.of_nat (length (concat (cpu_to_le32 <$> src_vmids srcvm))) = src_sz /\
   Z.of_nat (length (cpu_to_le64 mem_addr ++ cpu_to_le64 mem_sz)) = mem_to_map_sz /\
   Z.of_nat (length (concat (destvm_bytes <$> newvm))) = dest_sz) /\
  0 <= src_sz <= map_off /\
  map_off + mem_to_map_sz <= dest_off /\
  dest_off + dest_sz <= ptr_sz /\
  map_off mod 64 = 0 /\ dest_off mod 64 = 0 /\ ptr_sz mod 64 = 0.
Proof.
  cbv zeta. split; [reflexivity |]. split.
  { split; [symmetry; apply assign_mem_src_sz_matches_list |].
    split; [reflexivity |]. rewrite length_destvm_list. lia. }
  assert (0 <= hweight64 srcvm * 4) as H1 by (unfold hweight64; lia).
  assert (0 <= Z.of_nat (length newvm) * 24) as H2 by lia.
  rewrite !ALIGN_64 by lia.
  generalize dependent (hweight64 srcvm * 4). intros a Ha.
  generalize dependent (Z.of_nat (length newvm) * 24). intros b Hb.
  change ((16 + 63) / 64 * 64) with 64.
  pose proof (Z.div_mod (a + 63) 64 ltac:(lia)).
  pose proof (Z.mod_pos_bound (a + 63) 64 ltac:(lia)).
  pose proof (Z.div_mod (b + 63) 64 ltac:(lia)).
  pose proof (Z.mod_pos_bound (b + 63) 64 ltac:(lia)).
  set (q1 := (a + 63) / 64) in *. set (q2 := (b + 63) / 64) in *.
  repeat split; try lia.
  - apply Z.mod_mul. lia.
  - replace (64 + q1 * 64) with ((1 + q1) * 64) by lia. apply Z.mod_mul. lia.
  - replace (q1 * 64 + 64 + q2 * 64) with ((q1 + 1 + q2) * 64) by lia.
    apply Z.mod_mul. lia.
Qed.

(** ** WaitQueueBridge: the interrupt handler's loop *)

Lemma irq_handler_valid (a : wq_answer) (answers : list wq_answer) (w : world) :
  wq_valid a ->
  qcom_scm_irq_handler (a :: answers) w =
  if decide (wq_more_pending a ≠ 0)
  then qcom_scm_irq_handler answers (complete w) else complete w.
Proof.
  intros (Hr & Hc & Hf). cbn.
  unfold qcom_scm_waitq_wakeup, qcom_scm_assert_valid_wq_ctx.
  rewrite Hr, Hc.
  repeat (case_decide; cbn); try reflexivity; exfalso; intuition congruence.
Qed.

Lemma irq_handler_invalid (a : wq_answer) (answers : list wq_answer) (w : world) :
  ~ wq_valid a ->
  waitq_done (qcom_scm_irq_handler (a :: answers) w) = waitq_done w.
Proof.
  intros Hn. cbn. unfold qcom_scm_waitq_wakeup, qcom_scm_assert_valid_wq_ctx.
  repeat (case_decide; cbn); try reflexivity; exfalso;
    try (unfold EINVAL in *; lia);
    apply Hn; unfold wq_valid;
    destruct (decide (wq_flags a = QCOM_SMC_WAITQ_FLAG_WAKE_ONE)),
      (decide (wq_flags a = QCOM_SMC_WAITQ_FLAG_WAKE_ALL));
    intuition congruence.
Qed.

(** X17. The loop of [qcom_scm_irq_handler]: while the firmware's answers
    are valid and report more pending, each posts one completion; the loop
    ends after posting for the first valid answer that reports nothing more
    pending, and ends without posting at the first answer that is not
    valid (a failed query, unrecognised flags, or a context other than 0),
    whatever answers would follow. *)
Theorem irq_handler_posts_per_answer (good : list wq_answer) (last : wq_answer)
    (rest : list wq_answer) (w : world) :
  Forall (fun a => wq_valid a /\ wq_more_pending a ≠ 0) good ->
  let w' := qcom_scm_irq_handler (good ++ last :: rest) w in
  (wq_valid last -> wq_more_pending last = 0 ->
   waitq_done w' = (waitq_done w + length good + 1)%nat) /\
  (~ wq_valid last -> waitq_done w' = (waitq_done w + length good)%nat).
Proof.
  intros Hg. cbv zeta. revert w.
  induction Hg as [| a good [Ha Hm] _ IH]; intros w.
  - cbn [app length]. split.
    + intros Hv Hm. rewrite irq_handler_valid by exact Hv.
      rewrite decide_False by tauto. cbn. lia.
    + intros Hv. rewrite irq_handler_invalid by exact Hv. lia.
  - cbn [app length]. rewrite !irq_handler_valid by exact Ha.
    rewrite !decide_True by exact Hm.
    destruct (IH (complete w)) as (H1 & H2). cbn in H1, H2.
    split; intros; rewrite ?H1, ?H2 by assumption; lia.
Qed.

Lemma irq_handler_posts_per_answer_witness :
  let yes := {| wq_ret := 0; wq_ctx := 0; wq_flags := QCOM_SMC_WAITQ_FLAG_WAKE_ONE;
                wq_more_pending := 1 |} in
  let no := {| wq_ret := 0; wq_ctx := 0; wq_flags := QCOM_SMC_WAITQ_FLAG_WAKE_ALL;
               wq_more_pending := 0 |} in
  waitq_done (qcom_scm_irq_handler ([yes; yes] ++ no :: [yes]) boot) = 3%nat.
Proof.
  cbv zeta.
  match goal with
  | |- waitq_done (qcom_scm_irq_handler (?g ++ ?l :: ?r) boot) = _ =>
      destruct (irq_handler_posts_per_answer g l r boot) as (H & _)
  end.
  - repeat constructor; discriminate.
  - apply H; [| reflexivity]. repeat split. right. reflexivity.
Defined.


(** ** CallDispatcher: the atomic variant *)

Lemma qcom_scm_call_atomic_spec (E : env) (d : qcom_scm_desc) (w : world) :
  let c := convention_in_effect E w in
  qcom_scm_call_atomic E d w =
  (fw_ret E c d, fw_res E c d,
   fw_touch E d (emit (call_event c true d) (__get_convention E w).2)).
Proof.
  cbv zeta. unfold qcom_scm_call_atomic.
  pose proof (get_convention_fst E w) as H1.
  pose proof (get_convention_published E w) as H2.
  pose proof (convention_in_effect_known E w) as H3.
  destruct (__get_convention E w) as [c w1]. cbn in H1, H2. subst c.
  destruct (convention_in_effect E w); try congruence; cbn;
    unfold scm_smc_call, scm_legacy_call; cbn; rewrite ?H2; reflexivity.
Qed.

Global Arguments qcom_scm_call_atomic : simpl never.

Lemma qcom_scm_call_atomic_frame (E : env) (d : qcom_scm_desc) (w : world) :
  let c := convention_in_effect E w in
  let r := qcom_scm_call_atomic E d w in
  r.1 = (fw_ret E c d, fw_res E c d) /\
  held r.2 = held w /\
  dispatched (trace r.2) = dispatched (trace w) ++ [call_event c true d] /\
  convention r.2 = c.
Proof.
  cbv zeta. rewrite qcom_scm_call_atomic_spec. cbv zeta.
  destruct (get_convention_held E w) as [Hh Hd].
  pose proof (get_convention_published E w) as Hp.
  split; [reflexivity |]. split; [| split].
  - rewrite <- Hh. unfold held, fw_touch. cbn. now rewrite foldl_poke_dom.
  - unfold fw_touch. cbn. rewrite dispatched_snoc_call by apply call_event_is_dispatch.
    now rewrite Hd.
  - unfold fw_touch. cbn. exact Hp.
Qed.

(** C6, as stated, fails on the two functions: with the stored convention
    still the [SMC_CONVENTION_UNKNOWN] sentinel, as it is at boot, neither
    [qcom_scm_call] nor [qcom_scm_call_atomic] returns [-EINVAL]; each
    negotiates a convention and sends the call. *)
Lemma unknown_sentinel_is_negotiated :
  let d := {| cmd := MP_ASSIGN; arginfo := [QCOM_SCM_VAL]; args := [1] |} in
  convention boot = SMC_CONVENTION_UNKNOWN /\
  ((qcom_scm_call platform_ok d boot).1.1 = 0 /\
   (qcom_scm_call platform_ok d boot).1.1 ≠ - EINVAL /\
   dispatched (trace (qcom_scm_call platform_ok d boot).2) = [EvSmcCall false d]) /\
  ((qcom_scm_call_atomic platform_ok d boot).1.1 = 0 /\
   (qcom_scm_call_atomic platform_ok d boot).1.1 ≠ - EINVAL /\
   dispatched (trace (qcom_scm_call_atomic platform_ok d boot).2) =
   [EvSmcCall true d]).
Proof. vm_compute. repeat split; discriminate. Qed.

(** C6, amended.  For every descriptor and from every state, the stored
    convention resolved or still the sentinel, [qcom_scm_call] and
    [qcom_scm_call_atomic] switch on the value [__get_convention] returns,
    which is one of the three recognised conventions: they hand the call to
    the backend of that convention, return what it returns, and the error
    arm is not taken.  The error arm itself, for a switch value that is none
    of the three, returns [-EINVAL] and sends nothing. *)
Theorem call_resolves_before_dispatch (E : env) (d : qcom_scm_desc) (w : world) :
  let g := __get_convention E w in
  let c := g.1 in
  let r := qcom_scm_call E d w in
  let ra := qcom_scm_call_atomic E d w in
  (c = SMC_CONVENTION_ARM_32 \/ c = SMC_CONVENTION_ARM_64 \/
   c = SMC_CONVENTION_LEGACY) /\
  (r.1 = (fw_ret E c d, fw_res E c d) /\
   trace r.2 = trace g.2 ++ [call_event c false d]) /\
  (ra.1 = (fw_ret E c d, fw_res E c d) /\
   trace ra.2 = trace g.2 ++ [call_event c true d]) /\
  (forall c' : qcom_scm_convention,
     c' ≠ SMC_CONVENTION_ARM_32 -> c' ≠ SMC_CONVENTION_ARM_64 ->
     c' ≠ SMC_CONVENTION_LEGACY ->
     let s := qcom_scm_call_switch E c' d w in
     let sa := qcom_scm_call_atomic_switch E c' d w in
     (s.1.1 = - EINVAL /\ dispatched (trace s.2) = dispatched (trace w)) /\
     (sa.1.1 = - EINVAL /\ dispatched (trace sa.2) = dispatched (trace w))).
Proof.
  cbv zeta. rewrite qcom_scm_call_spec, qcom_scm_call_atomic_spec. cbv zeta.
  rewrite get_convention_fst.
  pose proof (convention_in_effect_known E w) as Hk.
  split; [destruct (convention_in_effect E w); tauto |].
  split; [split; reflexivity |]. split; [split; reflexivity |].
  intros c' H32 H64 HL.
  destruct (call_switch_default_arm E c' d w H32 H64 HL) as ((A1 & A2 & _) & B1 & B2 & _).
  auto.
Qed.

(** ** Availability queries *)

Global Arguments __qcom_scm_is_call_available : simpl never.

(** What [__qcom_scm_is_call_available] asks and answers. *)
Lemma is_call_available_frame (E : env) (smc_fnid legacy_fnid : Z) (w : world) :
  let c := convention_in_effect E w in
  let d := {| cmd := INFO_IS_CALL_AVAIL; arginfo := [QCOM_SCM_VAL];
              args := [if decide (c = SMC_CONVENTION_LEGACY)
                       then legacy_fnid else smc_fnid] |} in
  let r := __qcom_scm_is_call_available E smc_fnid legacy_fnid w in
  r.1 = bool_decide (fw_ret E c d = 0 /\ result_at (fw_res E c d) 0 ≠ 0) /\
  held r.2 = held w /\
  dispatched (trace r.2) = dispatched (trace w) ++ [call_event c false d] /\
  convention r.2 = c.
Proof.
  cbv zeta. unfold __qcom_scm_is_call_available.
  pose proof (get_convention_fst E w) as H1.
  pose proof (get_convention_published E w) as H2.
  pose proof (convention_in_effect_known E w) as H3.
  destruct (get_convention_held E w) as [Hh Hd].
  destruct (__get_convention E w) as [c w1]. cbn in H1, H2, Hh, Hd. subst c.
  assert (convention_in_effect E w1 = convention_in_effect E w) as Hc.
  { unfold convention_in_effect at 1. rewrite H2.
    now rewrite decide_False by exact H3. }
  destruct (convention_in_effect E w) eqn:Hce; try congruence;
    match goal with
    | |- context [qcom_scm_call E ?d w1] =>
        destruct (qcom_scm_call_frame E d w1) as (R1 & R2 & R3 & R4 & _);
        rewrite Hc in R1, R3, R4;
        destruct (qcom_scm_call E d w1) as [[ret res] w2]
    end;
    cbn in R1, R2, R3, R4 |- *; injection R1 as -> ->;
    rewrite R2, R3, Hh, Hd, R4;
    (split; [| auto]);
    (case_decide;
     [ rewrite bool_decide_eq_false_2 by tauto; reflexivity
     | apply bool_decide_ext; tauto ]).
Qed.

(** Everything [__qcom_scm_is_call_available] sends. *)
Lemma is_call_available_traffic (E : env) (smc_fnid legacy_fnid : Z) (w : world) :
  let c := convention_in_effect E w in
  let d := {| cmd := INFO_IS_CALL_AVAIL; arginfo := [QCOM_SCM_VAL];
              args := [if decide (c = SMC_CONVENTION_LEGACY)
                       then legacy_fnid else smc_fnid] |} in
  let r := __qcom_scm_is_call_available E smc_fnid legacy_fnid w in
  fw_calls (trace r.2) =
  fw_calls (trace w) ++ negotiation E w ++ [call_event c false d] /\
  (forall msg, EvErr msg ∉ drop (length (trace w)) (trace r.2)).
Proof.
  cbv zeta. unfold __qcom_scm_is_call_available.
  pose proof (get_convention_fst E w) as H1.
  pose proof (get_convention_published E w) as H2.
  pose proof (convention_in_effect_known E w) as H3.
  pose proof (fw_calls_get_convention E w) as Hf.
  assert (exists l, trace (__get_convention E w).2 = trace w ++ l /\
                    forall msg, EvErr msg ∉ l) as (l & Hl & Hnl).
  { destruct (decide (convention w = SMC_CONVENTION_UNKNOWN)) as [H | H].
    - rewrite get_convention_fresh by exact H. cbn [snd].
      rewrite negotiated_world_trace. eexists. split; [reflexivity |].
      intros msg Hin. apply elem_of_app in Hin as [Hin | Hin].
      + apply list_elem_of_fmap in Hin as (c0 & Heq & _). discriminate.
      + apply list_elem_of_singleton in Hin. discriminate.
    - rewrite get_convention_cached by exact H. exists []. cbn.
      split; [now rewrite app_nil_r | intros msg; apply not_elem_of_nil]. }
  destruct (__get_convention E w) as [c w1]. cbn in H1, H2, Hf, Hl. subst c.
  assert (convention_in_effect E w1 = convention_in_effect E w) as Hc.
  { unfold convention_in_effect at 1. rewrite H2.
    now rewrite decide_False by exact H3. }
  assert (negotiation E w1 = []) as Hn.
  { apply negotiation_length. rewrite H2. exact H3. }
  assert (__get_convention E w1 = (convention w1, w1)) as Hg.
  { apply get_convention_cached. rewrite H2. exact H3. }
  destruct (convention_in_effect E w) eqn:Hce; try congruence;
    rewrite qcom_scm_call_spec; cbv zeta; rewrite Hg, Hc; cbn;
    unfold fw_touch; cbn;
    rewrite fw_calls_snoc, Hf, <- app_assoc; cbn;
    (split; [reflexivity |]);
    intros msg; rewrite Hl, <- app_assoc, drop_app_length;
    intros Hin; apply elem_of_app in Hin as [Hin | Hin];
    [ now apply (Hnl msg) | apply list_elem_of_singleton in Hin; discriminate
    | now apply (Hnl msg) | apply list_elem_of_singleton in Hin; discriminate
    | now apply (Hnl msg) | apply list_elem_of_singleton in Hin; discriminate ].
Qed.

(** X19. [__qcom_scm_is_call_available] never takes its error branch and
    logs no error.  It resolves the convention itself, so from a state where
    the convention is still unresolved the firmware first receives the
    probes of the negotiation; then, in every case, it receives exactly one
    availability query, carrying the function id in the format of the
    convention in effect (the legacy id on the legacy convention, the SMC
    id otherwise).  The answer is true exactly when that query returns
    status 0 and a nonzero first result word. *)
Theorem is_call_available_probes_then_asks (E : env) (smc_fnid legacy_fnid : Z)
    (w : world) :
  let c := convention_in_effect E w in
  let d := {| cmd := INFO_IS_CALL_AVAIL; arginfo := [QCOM_SCM_VAL];
              args := [if decide (c = SMC_CONVENTION_LEGACY)
                       then legacy_fnid else smc_fnid] |} in
  let r := __qcom_scm_is_call_available E smc_fnid legacy_fnid w in
  r.1 = bool_decide (fw_ret E c d = 0 /\ result_at (fw_res E c d) 0 ≠ 0) /\
  fw_calls (trace r.2) =
  fw_calls (trace w) ++ negotiation E w ++ [call_event c false d] /\
  (forall msg, EvErr msg ∉ drop (length (trace w)) (trace r.2)) /\
  convention r.2 = c.
Proof.
  cbv zeta.
  destruct (is_call_available_frame E smc_fnid legacy_fnid w) as (R1 & _ & _ & R4).
  destruct (is_call_available_traffic E smc_fnid legacy_fnid w) as (T1 & T2).
  auto.
Qed.

Lemma hdcp_available_clock_failure (E : env) (smc_fnid legacy_fnid : Z) (w : world) :
  (qcom_scm_clk_enable E w).1 ≠ 0 ->
  let r := qcom_scm_hdcp_available E smc_fnid legacy_fnid w in
  r.1 = true /\
  held r.2 = held w /\
  dispatched (trace r.2) = dispatched (trace w).
Proof.
  intros H. cbv zeta. unfold qcom_scm_hdcp_available.
  destruct (qcom_scm_clk_enable_fail E w H) as (Hh & Hd).
  destruct (qcom_scm_clk_enable E w) as [ret w1]. cbn in H, Hh, Hd.
  rewrite decide_True by exact H. cbn.
  rewrite bool_decide_eq_true_2 by exact H. auto.
Qed.

Lemma hdcp_available_with_clocks (E : env) (smc_fnid legacy_fnid : Z) (w : world) :
  (forall c, clk_prepare_enable_ret E c = 0) ->
  let c := convention_in_effect E w in
  let d := {| cmd := INFO_IS_CALL_AVAIL; arginfo := [QCOM_SCM_VAL];
              args := [if decide (c = SMC_CONVENTION_LEGACY)
                       then legacy_fnid else smc_fnid] |} in
  let r := qcom_scm_hdcp_available E smc_fnid legacy_fnid w in
  r.1 = bool_decide (fw_ret E c d = 0 /\ result_at (fw_res E c d) 0 ≠ 0) /\
  clocks_of r.2 = clocks_of w /\
  dispatched (trace r.2) = dispatched (trace w) ++ [call_event c false d].
Proof.
  intros Hclk. cbv zeta. unfold qcom_scm_hdcp_available.
  destruct (qcom_scm_clk_enable_ok_world E w Hclk) as (w1 & -> & Hh & Hd & Hc).
  rewrite decide_False by tauto.
  destruct (is_call_available_frame E smc_fnid legacy_fnid w1) as (R1 & R2 & R3 & _).
  rewrite (convention_in_effect_ext E w1 w Hc) in R1, R3.
  destruct (__qcom_scm_is_call_available E smc_fnid legacy_fnid w1) as [avail w2].
  cbn in R1, R2, R3. cbn [fst snd]. subst avail. split; [reflexivity |].
  pose proof (footprint_clk_disable w2) as Hf.
  apply footprint_inv in Hf as (Hk & _ & _ & _ & Hl).
  rewrite Hk, Hl, R3, Hd.
  rewrite Hh in R2. unfold held in R2. injection R2 as E1 E2 E3 _ _ _ _ _.
  rewrite E1, E2, E3. split; reflexivity.
Qed.

(** X20. [qcom_scm_hdcp_available].  When the clocks start it answers what
    the one availability query answers, and the clock enable counts are as
    before.  When a clock refuses to start it answers true, although the
    firmware was never asked: the error code is returned from a function
    whose result is a truth value. *)
Theorem hdcp_available_answers (E : env) (smc_fnid legacy_fnid : Z) (w : world) :
  let c := convention_in_effect E w in
  let d := {| cmd := INFO_IS_CALL_AVAIL; arginfo := [QCOM_SCM_VAL];
              args := [if decide (c = SMC_CONVENTION_LEGACY)
                       then legacy_fnid else smc_fnid] |} in
  let r := qcom_scm_hdcp_available E smc_fnid legacy_fnid w in
  ((forall c, clk_prepare_enable_ret E c = 0) ->
   r.1 = bool_decide (fw_ret E c d = 0 /\ result_at (fw_res E c d) 0 ≠ 0) /\
   clocks_of r.2 = clocks_of w /\
   dispatched (trace r.2) = dispatched (trace w) ++ [call_event c false d]) /\
  ((qcom_scm_clk_enable E w).1 ≠ 0 ->
   r.1 = true /\ held r.2 = held w /\
   dispatched (trace r.2) = dispatched (trace w)).
Proof.
  cbv zeta. split; intros H.
  - now apply hdcp_available_with_clocks.
  - now apply hdcp_available_clock_failure.
Qed.

Lemma hdcp_available_answers_witness :
  let no := with_fw_ret (fun _ _ => -5) in
  (qcom_scm_hdcp_available (no (with_clk_ret bus_clk_fails platform_ok)) 0 0 boot).1
  = true /\
  (qcom_scm_hdcp_available (no platform_ok) 0 0 boot).1 = false.
Proof.
  cbv zeta. split.
  - apply (hdcp_available_answers
             (with_fw_ret (fun _ _ => -5) (with_clk_ret bus_clk_fails platform_ok))
             0 0 boot).
    vm_compute. discriminate.
  - destruct (hdcp_available_answers (with_fw_ret (fun _ _ => -5) platform_ok) 0 0 boot)
      as ((H & _) & _); [intros c; reflexivity |].
    exact H.
Defined.

(** X21. [qcom_scm_ice_available] asks about key invalidation first and
    about key programming only when the first answer is yes, and answers
    the conjunction of the two.  The firmware receives the probes of the
    negotiation when the convention was still unresolved, then the first
    availability query, then the second one only after a yes: after a no it
    has received one availability query, not two. *)
Theorem ice_available_short_circuits (E : env) (inv_smc inv_legacy set_smc set_legacy : Z)
    (w : world) :
  let c := convention_in_effect E w in
  let q (smc legacy : Z) :=
    {| cmd := INFO_IS_CALL_AVAIL; arginfo := [QCOM_SCM_VAL];
       args := [if decide (c = SMC_CONVENTION_LEGACY) then legacy else smc] |} in
  let yes (d : qcom_scm_desc) :=
    bool_decide (fw_ret E c d = 0 /\ result_at (fw_res E c d) 0 ≠ 0) in
  let r := qcom_scm_ice_available E inv_smc inv_legacy set_smc set_legacy w in
  r.1 = yes (q inv_smc inv_legacy) && yes (q set_smc set_legacy) /\
  fw_calls (trace r.2) =
  fw_calls (trace w) ++ negotiation E w ++
  call_event c false (q inv_smc inv_legacy) ::
  (if yes (q inv_smc inv_legacy)
   then [call_event c false (q set_smc set_legacy)] else []).
Proof.
  cbv zeta. unfold qcom_scm_ice_available.
  destruct (is_call_available_frame E inv_smc inv_legacy w) as (R1 & _ & _ & R4).
  destruct (is_call_available_traffic E inv_smc inv_legacy w) as (R3 & _).
  destruct (__qcom_scm_is_call_available E inv_smc inv_legacy w) as [a w1].
  cbn in R1, R3, R4. rewrite <- R1.
  destruct a; cbn [andb].
  - destruct (is_call_available_frame E set_smc set_legacy w1) as (S1 & _ & _ & _).
    destruct (is_call_available_traffic E set_smc set_legacy w1) as (S3 & _).
    assert (convention_in_effect E w1 = convention_in_effect E w) as Hc.
    { unfold convention_in_effect at 1. rewrite R4.
      now rewrite decide_False by apply convention_in_effect_known. }
    assert (negotiation E w1 = []) as Hn.
    { apply negotiation_length. rewrite R4. apply convention_in_effect_known. }
    rewrite Hc in S1, S3. rewrite Hn in S3.
    destruct (__qcom_scm_is_call_available E set_smc set_legacy w1) as [a2 w2].
    cbn in S1, S3 |- *. rewrite S1, S3, R3, <- !app_assoc. auto.
  - cbn. auto.
Qed.

(** ** Register access *)

(** X22. [qcom_scm_io_readl] sends one atomic call, returns the firmware's
    status when that is negative and 0 otherwise, so never a positive
    value, and stores the first result word, cut to 32 bits, into the
    caller's variable exactly when it returns 0. *)
Theorem io_readl_status_and_value (E : env) (c_read : scm_cmd) (addr val : Z)
    (w : world) :
  let c := convention_in_effect E w in
  let d := {| cmd := c_read; arginfo := [QCOM_SCM_VAL]; args := [addr] |} in
  let r := qcom_scm_io_readl E c_read addr val w in
  r.1.1 <= 0 /\
  (r.1.1 = 0 <-> 0 <= fw_ret E c d) /\
  (r.1.1 < 0 -> r.1.1 = fw_ret E c d /\ r.1.2 = val) /\
  (r.1.1 = 0 -> r.1.2 = to_u32 (result_at (fw_res E c d) 0)) /\
  held r.2 = held w /\
  dispatched (trace r.2) = dispatched (trace w) ++ [call_event c true d].
Proof.
  cbv zeta. unfold qcom_scm_io_readl.
  match goal with
  | |- context [qcom_scm_call_atomic E ?d w] =>
      destruct (qcom_scm_call_atomic_frame E d w) as (R1 & R2 & R3 & _);
      destruct (qcom_scm_call_atomic E d w) as [[ret res] w1]
  end.
  cbn in R1, R2, R3 |- *. injection R1 as <- <-.
  repeat case_decide; cbn; repeat split; auto; intros; try lia.
Qed.

(** ** Limits management *)

(** X23. [qcom_scm_lmh_dcvsh] frees its payload buffer on every path.  When
    the buffer is allocated it sends one call that names the buffer and its
    20 bytes, and returns the status of that call as it is; when the buffer
    cannot be allocated it returns [-ENOMEM] without a call. *)
Theorem lmh_dcvsh_buffer_lifetime (E : env) (c_dcvsh : scm_cmd)
    (payload_fn payload_reg payload_val limit_node node_id version : Z) (w : world) :
  heap_fresh w ->
  let c := convention_in_effect E w in
  let d := {| cmd := c_dcvsh;
              arginfo := [QCOM_SCM_RO; QCOM_SCM_VAL; QCOM_SCM_VAL; QCOM_SCM_VAL;
                          QCOM_SCM_VAL];
              args := [buf_addr (allocs w); 20; limit_node; node_id; version] |} in
  let r := qcom_scm_lmh_dcvsh E c_dcvsh payload_fn payload_reg payload_val
             limit_node node_id version w in
  dom (heap r.2) = dom (heap w) /\
  (alloc_ok E (allocs w) = true ->
   r.1 = fw_ret E c d /\
   dispatched (trace r.2) = dispatched (trace w) ++ [call_event c false d]) /\
  (alloc_ok E (allocs w) = false ->
   r.1 = - ENOMEM /\ dispatched (trace r.2) = dispatched (trace w)).
Proof.
  intros Hf. apply heap_fresh_next in Hf as [Hf1 _]. cbv zeta.
  unfold qcom_scm_lmh_dcvsh, dma_alloc_coherent, alloc_from.
  destruct (alloc_ok E (allocs w)); cbn -[write_at].
  - match goal with
    | |- context [qcom_scm_call E ?d ?w1] =>
        pose proof (qcom_scm_call_dom E d w1) as Hcall;
        destruct (qcom_scm_call_frame E d w1) as (Hr & _ & Hd & _);
        rewrite (convention_in_effect_ext E w1 w) in Hr, Hd
          by (rewrite !(proj2 (write_at_frame _ _ _ _)); reflexivity);
        destruct (qcom_scm_call E d w1) as [[ret res] w2]
    end.
    cbn [fst snd] in Hcall, Hd, Hr. injection Hr as -> _.
    rewrite !write_at_dom in Hcall. cbn in Hcall.
    rewrite !(proj1 (write_at_frame _ _ _ _)) in Hd. cbn in Hd.
    rewrite dispatched_snoc_other in Hd by reflexivity.
    rewrite dom_insert_L in Hcall. cbn [fst snd]. unfold dma_free_coherent.
    rewrite free_buf_dom, dispatched_free, Hcall.
    split; [set_solver |]. split; [auto | discriminate].
  - split; [reflexivity |]. split; [discriminate |]. intros _.
    split; [reflexivity |].
    now rewrite dispatched_snoc_other by reflexivity.
Qed.

Lemma lmh_dcvsh_buffer_lifetime_witness :
  (qcom_scm_lmh_dcvsh (with_fw_ret fw_refuses platform_ok) MP_ASSIGN 1 2 3 4 5 6
     boot).1 = -5 /\
  heap (qcom_scm_lmh_dcvsh (with_fw_ret fw_refuses platform_ok) MP_ASSIGN 1 2 3 4 5 6
          boot).2 = ∅.
Proof.
  destruct (lmh_dcvsh_buffer_lifetime (with_fw_ret fw_refuses platform_ok) MP_ASSIGN
              1 2 3 4 5 6 boot) as (Hd & Hok & _).
  - intros n _. apply lookup_empty.
  - split.
    + apply Hok. reflexivity.
    + apply (dom_empty_inv_L (D := gset Z)). rewrite Hd. apply dom_empty_L.
Defined.

(** ** Boot addresses *)

Lemma boot_flags_none (max_cpus : Z) (cpu_bits present : list Z) :
  Exists (fun cpu => max_cpus <= cpu) present ->
  forall flags, boot_flags max_cpus cpu_bits present flags = None.
Proof.
  induction present as [| cpu present IH]; intros Hex flags; cbn.
  - inversion Hex.
  - case_decide; [reflexivity |]. apply IH.
    inversion Hex; subst; [contradiction | assumption].
Qed.

Lemma boot_flags_some (max_cpus : Z) (cpu_bits present : list Z) :
  Forall (fun cpu => cpu < max_cpus) present ->
  forall flags,
    boot_flags max_cpus cpu_bits present flags =
    Some (foldl (fun f cpu => Z.lor f (default 0 (cpu_bits !! Z.to_nat cpu)))
            flags present).
Proof.
  induction 1 as [| cpu present Hc _ IH]; intros flags; cbn; [reflexivity |].
  rewrite decide_False by lia. apply IH.
Qed.

(** What [qcom_scm_set_boot_addr] does with the present CPUs. *)
Lemma set_boot_addr_frame (E : env) (c_set : scm_cmd) (max_cpus : Z)
    (present : list Z) (entry : Z) (cpu_bits : list Z) (w : world) :
  let r := qcom_scm_set_boot_addr E c_set max_cpus present entry cpu_bits w in
  let c := convention_in_effect E w in
  let flags := foldl (fun f cpu => Z.lor f (default 0 (cpu_bits !! Z.to_nat cpu)))
                 0 present in
  let d := {| cmd := c_set; arginfo := [QCOM_SCM_VAL; QCOM_SCM_VAL];
              args := [flags; entry] |} in
  (Exists (fun cpu => max_cpus <= cpu) present -> r = (- EINVAL, w)) /\
  (Forall (fun cpu => cpu < max_cpus) present ->
   r.1 = fw_ret E c d /\
   held r.2 = held w /\
   dispatched (trace r.2) = dispatched (trace w) ++ [call_event c true d]).
Proof.
  cbv zeta. unfold qcom_scm_set_boot_addr. split.
  - intros Hex. now rewrite boot_flags_none by exact Hex.
  - intros Hall. rewrite boot_flags_some by exact Hall.
    match goal with
    | |- context [qcom_scm_call_atomic E ?d w] =>
        destruct (qcom_scm_call_atomic_frame E d w) as (R1 & R2 & R3 & _);
        destruct (qcom_scm_call_atomic E d w) as [[ret res] w1]
    end.
    cbn in R1, R2, R3 |- *. injection R1 as <- _. auto.
Qed.

(** X24. [qcom_scm_set_boot_addr]: if any present CPU has a number at or
    above the limit it returns [-EINVAL] and nothing else happens, no call
    is sent; otherwise it sends one atomic call whose first argument is the
    OR of the table entries of all present CPUs, and returns that call's
    status. *)
Theorem set_boot_addr_checks_cpus (E : env) (c_set : scm_cmd) (max_cpus : Z)
    (present : list Z) (entry : Z) (cpu_bits : list Z) (w : world) :
  let r := qcom_scm_set_boot_addr E c_set max_cpus present entry cpu_bits w in
  let c := convention_in_effect E w in
  let flags := foldl (fun f cpu => Z.lor f (default 0 (cpu_bits !! Z.to_nat cpu)))
                 0 present in
  let d := {| cmd := c_set; arginfo := [QCOM_SCM_VAL; QCOM_SCM_VAL];
              args := [flags; entry] |} in
  (Exists (fun cpu => max_cpus <= cpu) present -> r = (- EINVAL, w)) /\
  (Forall (fun cpu => cpu < max_cpus) present ->
   r.1 = fw_ret E c d /\
   held r.2 = held w /\
   dispatched (trace r.2) = dispatched (trace w) ++ [call_event c true d]).
Proof. apply set_boot_addr_frame. Qed.







(** * The same behaviours for every input *)

(** X26. With a usable path and an interconnect that grants every request,
    the vote count is plain bookkeeping over any sequence of
    [qcom_scm_bw_enable] and [qcom_scm_bw_disable] calls: the count at the
    start, plus the enables, minus the disables, with no floor at zero. *)
Theorem bw_vote_count_is_bookkeeping (E : env) (ops : list bw_op) (w : world) :
  path E = PATH_OK ->
  (forall peak, 0 <= icc_set_bw_ret E peak) ->
  Z.abs (scm_vote_count w) + Z.of_nat (length ops) < 2 ^ 31 ->
  scm_vote_count (bw_run E ops w) =
  scm_vote_count w + bw_enables ops - bw_disables ops.
Proof. intros HP Hicc Hb. now apply bw_run_accounting. Qed.

Lemma bw_vote_count_is_bookkeeping_witness :
  scm_vote_count (bw_run platform_ok [BwEnable; BwDisable; BwDisable; BwEnable;
                                      BwEnable] boot) = 1.
Proof.
  rewrite bw_vote_count_is_bookkeeping.
  - reflexivity.
  - reflexivity.
  - intros peak. cbn. lia.
  - cbn. lia.
Defined.

(** X27. The second allocation of a two-buffer key operation fails.  On
    the direct backend each of the three operations has copied nothing yet,
    wipes the first buffer with [memzero_explicit], frees it and returns
    [-ENOMEM].  On the bridged backend [qcom_scm_derive_sw_secret] and
    [qcom_scm_prepare_ice_key] free an output buffer that holds only the
    zeros [memset] wrote, while [qcom_scm_import_ice_key] has already copied
    the caller's key in and frees the buffer still holding it. *)
Theorem key_ops_second_alloc_failure (E : env) (key : bytes) (out_size : nat)
    (w : world) :
  alloc_ok E (allocs w) = true ->
  alloc_ok E (S (allocs w)) = false ->
  let a := buf_addr (allocs w) in
  let direct :=
    (- ENOMEM, None,
     [EvAlloc Direct a (length key); EvAllocFail Direct out_size;
      EvMemzeroExplicit a; EvFree Direct a (replicate (length key) 0)]) in
  let bridged msg :=
    (- ENOMEM, None,
     [EvAlloc Bridged a out_size; EvMemset0 a; EvFlush a;
      EvAllocFail Bridged (length key);
      EvFree Bridged a (replicate out_size 0); EvErr msg]) in
  (qtee_shmbridge_is_enabled E = false ->
   outcome w (qcom_scm_derive_sw_secret E key out_size w) = direct /\
   outcome w (qcom_scm_prepare_ice_key E key out_size w) = direct /\
   outcome w (qcom_scm_import_ice_key E key out_size w) = direct) /\
  (qtee_shmbridge_is_enabled E = true ->
   outcome w (qcom_scm_derive_sw_secret E key out_size w) =
     bridged "qcom_scm_derive_sw_secret, smbridge allocate error" /\
   outcome w (qcom_scm_prepare_ice_key E key out_size w) =
     bridged "qcom_scm_prepare_ice_key, smbridge allocate error" /\
   outcome w (qcom_scm_import_ice_key E key out_size w) =
     (- ENOMEM, None,
      [EvAlloc Bridged a (length key); EvMemcpyIn a key; EvFlush a;
       EvAllocFail Bridged out_size; EvFree Bridged a key;
       EvErr "qcom_scm_import_ice_key, smbridge allocate error"])).
Proof.
  intros Ha1 Ha2. cbv zeta. split; intros Hs.
  - now apply two_buffer_direct_rollback.
  - destruct (two_buffer_bridged_rollback E key out_size w Hs Ha1 Ha2) as [H1 H2].
    split; [exact H1 |]. split; [exact H2 |].
    now apply import_ice_key_bridged_rollback.
Qed.

Lemma key_ops_second_alloc_failure_witness :
  let E := with_alloc_ok second_alloc_fails (platform_keys true) in
  outcome boot (qcom_scm_import_ice_key E sample_key 4 boot) =
  (- ENOMEM, None,
   [EvAlloc Bridged 4096 4; EvMemcpyIn 4096 sample_key; EvFlush 4096;
    EvAllocFail Bridged 4; EvFree Bridged 4096 sample_key;
    EvErr "qcom_scm_import_ice_key, smbridge allocate error"]).
Proof.
  cbv zeta.
  destruct (key_ops_second_alloc_failure
              (with_alloc_ok second_alloc_fails (platform_keys true)) sample_key 4 boot)
    as (_ & H); [reflexivity | reflexivity |].
  destruct (H eq_refl) as (_ & _ & H3). exact H3.
Defined.

(** X28. [qcom_scm_ice_set_key] on the direct backend, for every key and
    state, once the key buffer is allocated.  When the call succeeds the
    buffer is wiped by [memzero_explicit] and then freed holding zeros,
    whatever the firmware wrote into it.  When the call fails the buffer is
    freed as the call left it: with firmware that does not write to it,
    still holding the caller's key. *)
Theorem ice_set_key_direct_wipes_only_on_success (E : env) (index : Z) (key : bytes)
    (cipher data_unit_size : Z) (w : world) :
  qtee_shmbridge_is_enabled E = false ->
  alloc_ok E (allocs w) = true ->
  let a := buf_addr (allocs w) in
  let d := {| cmd := ES_CONFIG_SET_ICE_KEY;
              arginfo := [QCOM_SCM_VAL; QCOM_SCM_RW; QCOM_SCM_VAL;
                          QCOM_SCM_VAL; QCOM_SCM_VAL];
              args := [index; a; Z.of_nat (length key); cipher; data_unit_size] |} in
  let ret := fw_ret E (convention_in_effect E w) d in
  let r := qcom_scm_ice_set_key E index key cipher data_unit_size w in
  r.1 = ret /\
  (ret = 0 ->
   exists tr, trace r.2 = tr ++ [EvMemzeroExplicit a;
                                 EvFree Direct a (replicate (length key) 0)]) /\
  (ret ≠ 0 -> fw_mem E d = [] ->
   exists tr, trace r.2 = tr ++ [call_event (convention_in_effect E w) false d;
                                 EvErr "qcom_scm_ice_set_key, scm call failed";
                                 EvFree Direct a key]).
Proof. intros Hs Ha. now apply ice_set_key_direct. Qed.

Lemma ice_set_key_direct_wipes_only_on_success_witness :
  let E := with_fw_ret fw_refuses platform_ok in
  exists tr,
    trace (qcom_scm_ice_set_key E 0 sample_key 0 0 boot).2 =
    tr ++ [EvSmcCall false
             {| cmd := ES_CONFIG_SET_ICE_KEY;
                arginfo := [QCOM_SCM_VAL; QCOM_SCM_RW; QCOM_SCM_VAL;
                            QCOM_SCM_VAL; QCOM_SCM_VAL];
                args := [0; 4096; 4; 0; 0] |};
           EvErr "qcom_scm_ice_set_key, scm call failed";
           EvFree Direct 4096 sample_key].
Proof.
  cbv zeta.
  destruct (ice_set_key_direct_wipes_only_on_success
              (with_fw_ret fw_refuses platform_ok) 0 sample_key 0 0 boot)
    as (_ & _ & H); [reflexivity | reflexivity |].
  apply H; [vm_compute; discriminate | reflexivity].
Defined.

(** X29. The two early exits of [qcom_scm_pas_init_image], for every
    metadata blob and state, once the metadata buffer is allocated.  When
    the core clock refuses to start, the buffer is freed, the clocks and
    the vote count are as before, and the clock's error is returned.  When
    the clocks start but the bandwidth vote is refused, the function
    returns the refusal at once: the metadata buffer stays allocated,
    holding the metadata, and each clock stays enabled once more than
    before. *)
Theorem pas_init_image_early_exits (E : env) (peripheral : Z) (metadata : bytes)
    (ctx : option qcom_scm_pas_metadata) (w : world) :
  alloc_ok E (allocs w) = true ->
  let r := qcom_scm_pas_init_image E peripheral metadata ctx w in
  let a := buf_addr (allocs w) in
  (- 2 ^ 31 <= clk_prepare_enable_ret E CORE_CLK < 0 ->
   r.1 = (clk_prepare_enable_ret E CORE_CLK, ctx) /\
   clocks_of r.2 = clocks_of w /\
   scm_vote_count r.2 = scm_vote_count w /\
   heap r.2 !! a = None /\
   frees (drop (length (trace w)) (trace r.2)) = [a]) /\
  ((forall c, clk_prepare_enable_ret E c = 0) ->
   path E = PATH_OK -> scm_vote_count w = 0 -> icc_set_bw_ret E UINT_MAX < 0 ->
   r.1 = (icc_set_bw_ret E UINT_MAX, ctx) /\
   clocks_of r.2 = (S (core_en w), S (iface_en w), S (bus_en w)) /\
   heap r.2 !! a = Some {| buf_backend := Direct; buf_data := metadata |} /\
   frees (drop (length (trace w)) (trace r.2)) = []).
Proof.
  intros Ha. cbv zeta. split.
  - intros Hclk. now apply pas_init_image_clk_failure.
  - intros Hclk HP Hv Hicc.
    destruct (pas_init_image_bw_failure E peripheral metadata ctx w Ha Hclk HP Hv Hicc)
      as (H1 & H2 & H3 & H4).
    repeat split; try assumption.
    rewrite H4, drop_app_length. reflexivity.
Qed.

Lemma pas_init_image_early_exits_witness :
  let E := with_clk_ret (fun _ => - EINVAL) platform_ok in
  let r := qcom_scm_pas_init_image E 1 [127; 69; 76; 70] None boot in
  r.1 = (- EINVAL, None) /\ heap r.2 !! 4096 = None.
Proof.
  cbv zeta.
  destruct (pas_init_image_early_exits (with_clk_ret (fun _ => - EINVAL) platform_ok)
              1 [127; 69; 76; 70] None boot) as (H & _); [reflexivity |].
  destruct H as (H1 & _ & _ & H4 & _); [cbn; unfold EINVAL; lia |].
  split; [exact H1 | exact H4].
Defined.

(** X30. [qcom_scm_assign_mem] on success, when every new owner id is below
    31: it returns 0 and replaces the caller's owner mask by the OR of
    [BIT(vmid)] over the new owners. *)
Theorem assign_mem_success_sets_owner_mask (E : env) (mem_addr mem_sz srcvm : Z)
    (newvm : list qcom_scm_vmperm) (w : world) :
  alloc_ok E (allocs w) = true ->
  assign_status E w srcvm newvm = 0 ->
  Forall (fun vm => 0 <= vmid vm < 31) newvm ->
  (qcom_scm_assign_mem E mem_addr mem_sz srcvm newvm w).1 = (0, dest_mask newvm).
Proof. intros Ha Hs Hv. now apply qcom_scm_assign_mem_success_small. Qed.

Lemma assign_mem_success_sets_owner_mask_witness :
  (qcom_scm_assign_mem platform_ok 4096 4096 1
     [{| vmid := 3; perm := 7 |}; {| vmid := 5; perm := 1 |}] boot).1 = (0, 40).
Proof.
  apply (assign_mem_success_sets_owner_mask platform_ok 4096 4096 1
           [{| vmid := 3; perm := 7 |}; {| vmid := 5; perm := 1 |}] boot).
  - reflexivity.
  - reflexivity.
  - repeat constructor; cbn; lia.
Defined.

(** * The transport buffer of the ownership reassignment, as the firmware
      finds it *)

(** Writing into the zero-filled tail of a buffer. *)
Lemma write_zero_tail (pre data : bytes) (k off : nat) :
  (length pre <= off)%nat ->
  (off + length data <= length pre + k)%nat ->
  take off (pre ++ replicate k 0) ++
  store_bytes data (drop off (pre ++ replicate k 0)) =
  (pre ++ replicate (off - length pre) 0 ++ data) ++
  replicate (length pre + k - off - length data) 0.
Proof.
  intros H1 H2.
  rewrite take_app_ge, drop_app_ge by exact H1.
  rewrite take_replicate, drop_replicate.
  unfold store_bytes. rewrite length_replicate.
  rewrite take_ge by lia. rewrite drop_replicate.
  rewrite <- !app_assoc.
  replace ((off - length pre) `min` k)%nat with (off - length pre)%nat by lia.
  replace (k - (off - length pre) - length data)%nat
    with (length pre + k - off - length data)%nat by lia.
  reflexivity.
Qed.

(** What [__get_convention] adds to the trace is probes and the log line. *)
Lemma get_convention_trace (E : env) (w : world) :
  exists l,
    trace (__get_convention E w).2 = trace w ++ l /\
    heap (__get_convention E w).2 = heap w.
Proof.
  destruct (get_convention_frame E w) as (Hh & _).
  destruct (decide (convention w = SMC_CONVENTION_UNKNOWN)) as [H | H].
  - rewrite get_convention_fresh in * by exact H. cbn [snd] in *.
    rewrite negotiated_world_trace. eauto.
  - rewrite get_convention_cached in * by exact H. exists []. cbn.
    now rewrite app_nil_r.
Qed.

Lemma write_at_lookup (a off : Z) (data : bytes) (b : buffer) (w : world) :
  heap w !! a = Some b ->
  heap (write_at a off data w) !! a =
  Some {| buf_backend := buf_backend b;
          buf_data := take (Z.to_nat off) (buf_data b) ++
                      store_bytes data (drop (Z.to_nat off) (buf_data b)) |}.
Proof. intros Hb. unfold write_at. now rewrite (update_buf_lookup a _ b) by exact Hb. Qed.

(** Three stores into a zero-filled buffer, at increasing offsets. *)
Lemma three_writes (src mp dst : bytes) (n o1 o2 : nat) :
  (length src <= o1)%nat ->
  (o1 + length mp <= o2)%nat ->
  (o2 + length dst <= n)%nat ->
  let write (off : nat) (data old : bytes) :=
    take off old ++ store_bytes data (drop off old) in
  write o2 dst (write o1 mp (write 0%nat src (replicate n 0))) =
  src ++ replicate (o1 - length src) 0 ++ mp ++
  replicate (o2 - o1 - length mp) 0 ++ dst ++
  replicate (n - o2 - length dst) 0.
Proof.
  intros H1 H2 H3. cbv beta zeta.
  pose proof (write_zero_tail [] src n 0) as W1. cbn [app length] in W1.
  rewrite W1 by lia. clear W1.
  change (0 - 0)%nat with 0%nat. cbn [replicate app].
  replace (0 + n - 0 - length src)%nat with (n - length src)%nat by lia.
  rewrite (write_zero_tail src mp (n - length src) o1) by lia.
  rewrite (write_zero_tail (src ++ replicate (o1 - length src) 0 ++ mp) dst _ o2)
    by (rewrite !length_app, length_replicate; lia).
  rewrite !length_app, length_replicate. rewrite <- !app_assoc.
  repeat (f_equal; []). f_equal; [f_equal; lia |]. f_equal. f_equal. lia.
Qed.

(** What [qcom_scm_assign_mem] allocates, writes, sends and frees, with
    firmware that only reads the buffer. *)
Lemma assign_mem_buffer (E : env) (mem_addr mem_sz srcvm : Z)
    (newvm : list qcom_scm_vmperm) (w : world) :
  alloc_ok E (allocs w) = true ->
  fw_mem E (assign_mem_desc (buf_addr (allocs w)) srcvm newvm) = [] ->
  let ptr := buf_addr (allocs w) in
  let src_sz := hweight64 srcvm * 4 in
  let dest_sz := Z.of_nat (length newvm) * 24 in
  let map_off := ALIGN src_sz SZ_64 in
  let dest_off := ALIGN 16 SZ_64 + ALIGN src_sz SZ_64 in
  let ptr_sz := ALIGN src_sz SZ_64 + ALIGN 16 SZ_64 + ALIGN dest_sz SZ_64 in
  let src := concat (cpu_to_le32 <$> src_vmids srcvm) in
  let mp := cpu_to_le64 mem_addr ++ cpu_to_le64 mem_sz in
  let dst := concat (destvm_bytes <$> newvm) in
  let data :=
    src ++ replicate (Z.to_nat (map_off - src_sz)) 0 ++ mp ++
    replicate (Z.to_nat (dest_off - map_off - 16)) 0 ++ dst ++
    replicate (Z.to_nat (ptr_sz - dest_off - dest_sz)) 0 in
  let r := qcom_scm_assign_mem E mem_addr mem_sz srcvm newvm w in
  exists mid tail,
    trace r.2 =
    trace w ++ [EvAlloc Direct ptr (Z.to_nat ptr_sz)] ++ mid ++
    [call_event (convention_in_effect E w) false (assign_mem_desc ptr srcvm newvm);
     EvFree Direct ptr data] ++ tail.
Proof.
  intros Ha Hmem. cbv zeta.
  destruct (assign_mem_layout_arith (buf_addr (allocs w)) srcvm mem_addr mem_sz newvm)
    as (_ & (L1 & L2 & L3) & A1 & A2 & A3 & _).
  set (src := concat (cpu_to_le32 <$> src_vmids srcvm)) in *.
  set (mp := cpu_to_le64 mem_addr ++ cpu_to_le64 mem_sz) in *.
  set (dst := concat (destvm_bytes <$> newvm)) in *.
  set (src_sz := hweight64 srcvm * 4) in *.
  set (dest_sz := Z.of_nat (length newvm) * 24) in *.
  set (map_off := ALIGN src_sz SZ_64) in *.
  set (a16 := ALIGN 16 SZ_64) in *.
  set (ptr := buf_addr (allocs w)) in *.
  unfold qcom_scm_assign_mem, __qcom_scm_assign_mem, dma_alloc_coherent, alloc_from.
  rewrite Ha. cbv beta iota zeta.
  fold src mp dst src_sz dest_sz. fold map_off a16. fold ptr.
  match goal with
  | |- context [qcom_scm_call E ?d ?W0] =>
      change d with (assign_mem_desc ptr srcvm newvm);
      assert (trace W0 = trace w ++ [EvAlloc Direct ptr
                (Z.to_nat (map_off + a16 + ALIGN dest_sz SZ_64))]) as Ht
        by (rewrite !(proj1 (write_at_frame _ _ _ _)); reflexivity);
      assert (convention W0 = convention w) as Hc
        by (rewrite !(proj2 (write_at_frame _ _ _ _)); reflexivity);
      assert (heap W0 !! ptr =
              Some {| buf_backend := Direct;
                      buf_data :=
                        src ++ replicate (Z.to_nat (map_off - src_sz)) 0 ++ mp ++
                        replicate (Z.to_nat (a16 + map_off - map_off - 16)) 0 ++
                        dst ++
                        replicate (Z.to_nat (map_off + a16 + ALIGN dest_sz SZ_64 -
                                             (a16 + map_off) - dest_sz)) 0 |}) as Hb
        by (erewrite write_at_lookup;
            [| erewrite write_at_lookup;
               [ reflexivity
               | erewrite write_at_lookup;
                 [ reflexivity | cbn; apply lookup_insert_eq ] ] ];
            cbn [buf_backend buf_data]; f_equal; f_equal;
            change (Z.to_nat 0) with 0%nat;
            rewrite (three_writes src mp dst _ (Z.to_nat map_off)
                       (Z.to_nat (a16 + map_off))) by lia;
            repeat (f_equal; try lia));
      generalize dependent W0
  end.
  intros W0 Ht Hc Hb.
  destruct (get_convention_trace E W0) as (l & Hl & Hh).
  rewrite qcom_scm_call_spec. cbv zeta. cbn [fst snd].
  rewrite (convention_in_effect_ext E W0 w Hc).
  set (W1 := fw_touch E _ _).
  assert (trace W1 = (trace w ++ [EvAlloc Direct ptr
             (Z.to_nat (map_off + a16 + ALIGN dest_sz SZ_64))] ++ l) ++
          [call_event (convention_in_effect E w) false
             (assign_mem_desc ptr srcvm newvm)]) as Ht1
    by (subst W1; unfold fw_touch; cbn; rewrite Hl, Ht, <- !app_assoc; reflexivity).
  assert (heap W1 = heap W0) as Hh1
    by (subst W1; unfold fw_touch; cbn; rewrite Hmem; cbn; exact Hh).
  clearbody W1.
  exists l.
  unfold dma_free_coherent, free_buf.
  case_decide; cbn [fst snd]; rewrite Hh1, Hb; cbn; rewrite Ht1;
    [ exists [EvErr "Assign memory protection call failed"]
    | exists [] ];
    rewrite <- !app_assoc; cbn; rewrite ?app_nil_r; reflexivity.
Qed.

(** X15. The source list of [qcom_scm_assign_mem].  When the transport
    buffer is allocated and the firmware only reads it, the buffer the
    function hands over, as it is when it is freed after the call, starts
    with one little-endian 32-bit word per owner id of the caller's mask;
    the call names the start of the buffer as the source list and four
    bytes per id as its size; and for a 64-bit mask the ids written are
    exactly the owners of the mask: all below 64, and OR-ing [BIT(id)] over
    them gives the mask back. *)
Theorem assign_mem_writes_source_list (E : env) (mem_addr mem_sz srcvm : Z)
    (newvm : list qcom_scm_vmperm) (w : world) :
  alloc_ok E (allocs w) = true ->
  fw_mem E (assign_mem_desc (buf_addr (allocs w)) srcvm newvm) = [] ->
  0 <= srcvm < 2 ^ 64 ->
  let ptr := buf_addr (allocs w) in
  let ids := src_vmids srcvm in
  let d := assign_mem_desc ptr srcvm newvm in
  let r := qcom_scm_assign_mem E mem_addr mem_sz srcvm newvm w in
  (exists n mid rest tail,
     trace r.2 =
     trace w ++ [EvAlloc Direct ptr n] ++ mid ++
     [call_event (convention_in_effect E w) false d;
      EvFree Direct ptr (concat (cpu_to_le32 <$> ids) ++ rest)] ++ tail) /\
  args d !! 2%nat = Some ptr /\
  args d !! 3%nat = Some (4 * Z.of_nat (length ids)) /\
  Forall (fun i => 0 <= i < 64) ids /\
  mask_of ids = srcvm.
Proof.
  intros Ha Hmem Hx. cbv zeta.
  destruct (assign_mem_buffer E mem_addr mem_sz srcvm newvm w Ha Hmem)
    as (mid & tail & Ht).
  split; [eexists _, mid, _, tail; exact Ht |].
  split; [reflexivity |]. split.
  { cbn. f_equal.
    rewrite assign_mem_src_sz_matches_list, length_cpu_to_le32_list. lia. }
  split; [| now apply mask_of_src_vmids].
  unfold src_vmids. apply Forall_forall. intros b Hb.
  apply list_elem_of_filter in Hb as [_ Hb]. apply elem_of_seqZ in Hb. lia.
Qed.

Lemma assign_mem_writes_source_list_witness :
  exists n mid rest tail,
    trace (qcom_scm_assign_mem platform_ok 4096 4096 10
             [{| vmid := 3; perm := 7 |}] boot).2 =
    [EvAlloc Direct 4096 n] ++ mid ++
    [EvSmcCall false (assign_mem_desc 4096 10 [{| vmid := 3; perm := 7 |}]);
     EvFree Direct 4096 ([1; 0; 0; 0; 3; 0; 0; 0] ++ rest)] ++ tail.
Proof.
  destruct (assign_mem_writes_source_list platform_ok 4096 4096 10
              [{| vmid := 3; perm := 7 |}] boot) as (H & _);
    [reflexivity | reflexivity | lia |].
  exact H.
Defined.

(** X16. The layout of the transport buffer of [qcom_scm_assign_mem].  When
    the buffer is allocated and the firmware only reads it, the function
    allocates [ptr_sz] bytes and the buffer it hands over, as it is when it
    is freed after the call, holds the source list at offset 0, the 16
    bytes of region address and size at the next multiple of 64, and 24
    bytes per new owner at the multiple of 64 after that, with zeros in
    between and after; the call names these three places and sizes.  No
    region runs into the next and the last one ends within the buffer. *)
Theorem assign_mem_layout (E : env) (mem_addr mem_sz srcvm : Z)
    (newvm : list qcom_scm_vmperm) (w : world) :
  alloc_ok E (allocs w) = true ->
  fw_mem E (assign_mem_desc (buf_addr (allocs w)) srcvm newvm) = [] ->
  let ptr := buf_addr (allocs w) in
  let src_sz := hweight64 srcvm * 4 in
  let dest_sz := Z.of_nat (length newvm) * 24 in
  let map_off := ALIGN src_sz SZ_64 in
  let dest_off := ALIGN 16 SZ_64 + ALIGN src_sz SZ_64 in
  let ptr_sz := ALIGN src_sz SZ_64 + ALIGN 16 SZ_64 + ALIGN dest_sz SZ_64 in
  let src := concat (cpu_to_le32 <$> src_vmids srcvm) in
  let mp := cpu_to_le64 mem_addr ++ cpu_to_le64 mem_sz in
  let dst := concat (destvm_bytes <$> newvm) in
  let data :=
    src ++ replicate (Z.to_nat (map_off - src_sz)) 0 ++ mp ++
    replicate (Z.to_nat (dest_off - map_off - 16)) 0 ++ dst ++
    replicate (Z.to_nat (ptr_sz - dest_off - dest_sz)) 0 in
  let d := {| cmd := MP_ASSIGN;
              arginfo := [QCOM_SCM_RO; QCOM_SCM_VAL; QCOM_SCM_RO; QCOM_SCM_VAL;
                          QCOM_SCM_RO; QCOM_SCM_VAL; QCOM_SCM_VAL];
              args := [ptr + map_off; 16; ptr; src_sz; ptr + dest_off; dest_sz; 0] |} in
  let r := qcom_scm_assign_mem E mem_addr mem_sz srcvm newvm w in
  (exists mid tail,
     trace r.2 =
     trace w ++ [EvAlloc Direct ptr (Z.to_nat ptr_sz)] ++ mid ++
     [call_event (convention_in_effect E w) false d; EvFree Direct ptr data] ++ tail) /\
  (Z.of_nat (length src) = src_sz /\ Z.of_nat (length mp) = 16 /\
   Z.of_nat (length dst) = dest_sz /\ Z.of_nat (length data) = ptr_sz) /\
  0 <= src_sz <= map_off /\
  map_off + 16 <= dest_off /\
  dest_off + dest_sz <= ptr_sz /\
  map_off mod 64 = 0 /\ dest_off mod 64 = 0 /\ ptr_sz mod 64 = 0.
Proof.
  intros Ha Hmem. cbv zeta.
  destruct (assign_mem_buffer E mem_addr mem_sz srcvm newvm w Ha Hmem)
    as (mid & tail & Ht).
  destruct (assign_mem_layout_arith (buf_addr (allocs w)) srcvm mem_addr mem_sz newvm)
    as (_ & (L1 & L2 & L3) & A1 & A2 & A3 & M1 & M2 & M3).
  split; [exists mid, tail; exact Ht |].
  split; [| auto 8].
  split; [exact L1 |]. split; [exact L2 |]. split; [exact L3 |].
  rewrite !length_app, !length_replicate.
  rewrite !length_app in L2. lia.
Qed.

Lemma assign_mem_layout_witness :
  exists mid tail,
    trace (qcom_scm_assign_mem platform_ok 4096 8192 10
             [{| vmid := 3; perm := 7 |}] boot).2 =
    [EvAlloc Direct 4096 192] ++ mid ++
    [EvSmcCall false
       {| cmd := MP_ASSIGN;
          arginfo := [QCOM_SCM_RO; QCOM_SCM_VAL; QCOM_SCM_RO; QCOM_SCM_VAL;
                      QCOM_SCM_RO; QCOM_SCM_VAL; QCOM_SCM_VAL];
          args := [4160; 16; 4096; 8; 4224; 24; 0] |};
     EvFree Direct 4096
       ([1; 0; 0; 0; 3; 0; 0; 0] ++ replicate 56 0 ++
        [0; 16; 0; 0; 0; 0; 0; 0; 0; 32; 0; 0; 0; 0; 0; 0] ++ replicate 48 0 ++
        [3; 0; 0; 0; 7; 0; 0; 0] ++ replicate 16 0 ++ replicate 40 0)] ++ tail.
Proof.
  destruct (assign_mem_layout platform_ok 4096 8192 10
              [{| vmid := 3; perm := 7 |}] boot) as (H & _);
    [reflexivity | reflexivity |].
  exact H.
Defined.
